(** * EEPROManager: entry layout, locate scan and wear-levelling relocation

    A shallow embedding of [src/EEPROManager.h] (the [EEPROManager<T>] class
    template) together with the properties of its entry format, of the
    [locate] scan and of [update], [force] and [wipe].

    Conventions of the embedding.
    - The global [EEPROM] object is a list of bytes, one per cell; its
      [length()] is the length of the list.  [EEPROM.get] and [EEPROM.put]
      move [sizeof] bytes cell by cell, least significant byte first (every
      supported board is little-endian).
    - The storage driver is not part of the sources.  A cell at or beyond
      [length()] is taken to be absent: reading it yields the erased byte
      [0xFF] and writing it has no effect.  Cell indices are the sums the
      source writes, without the wrap-around of [size_t]; within the device
      they are below its length.  Every statement below that speaks about
      stored bytes asks for the bytes to lie within the device.
    - Fixed-width integers are [Z] with the wrap-around written out
      ([wrap 16], [wrap 32], and [size_t] arithmetic at [size_t_bits]).
    - The default build is modelled: neither [BOARD_RP2040] nor [BOARD_ESP]
      is defined, so the constructor runs [begin], [synchronise] does
      nothing and no [commit] is issued.
    - The bound record [*_MEMORY] is the list of its [sizeof(T)] bytes; the
      client changes it by assigning a list of the same length.
    - The loop of [locate] need not end (a stored length can wrap the 16-bit
      address back onto a header already seen), so [locate] and the
      functions that call it take fuel and return an [option].
    - The stream [print] writes to is the list of the characters sent to
      it so far.
    - [reset] does not type-check once instantiated (it assigns [new T] to
      a [T]) and is not modelled. *)

From Stdlib Require Import ZArith List Bool Ascii Lia.
From coqutil Require Import Byte Word.LittleEndianList.
Import ListNotations.
Local Open Scope Z_scope.

(** ** Fixed-width arithmetic *)

Definition wrap (bits : Z) (z : Z) : Z := z mod 2 ^ bits.

Definition xFF : byte := Byte.xff.

(** ** The storage device *)

Module EEPROM.

Definition t := list byte.

(** [EEPROM.length()] *)
Definition length (E : t) : Z := Z.of_nat (List.length E).

Definition in_range (E : t) (idx : Z) : bool :=
  (0 <=? idx) && (idx <? length E).

(** [EEPROM.read(idx)] / [EEPROM[idx]] *)
Definition read (E : t) (idx : Z) : byte :=
  if in_range E idx then nth (Z.to_nat idx) E xFF else xFF.

Fixpoint set_nth (n : nat) (v : byte) (l : list byte) {struct l} : list byte :=
  match l with
  | [] => []
  | x :: l' =>
      match n with
      | O => v :: l'
      | S n' => x :: set_nth n' v l'
      end
  end.

(** [EEPROM.update(idx, v)] (and [EEPROM.write]): one cell. *)
Definition update (E : t) (idx : Z) (v : byte) : t :=
  if in_range E idx then set_nth (Z.to_nat idx) v E else E.

(** [EEPROM.put(idx, value)] on the bytes of [value]. *)
Fixpoint put (E : t) (idx : Z) (bs : list byte) : t :=
  match bs with
  | [] => E
  | b :: bs' => put (update E idx b) (idx + 1) bs'
  end.

(** [EEPROM.get(idx, value)] for a value of [n] bytes. *)
Fixpoint get (E : t) (idx : Z) (n : nat) : list byte :=
  match n with
  | O => []
  | S n' => read E idx :: get E (idx + 1) n'
  end.

(** An integer of [n] bytes read at [idx]. *)
Definition get_uint (E : t) (idx : Z) (n : nat) : Z := le_combine (get E idx n).

(** An integer of [n] bytes written at [idx]. *)
Definition put_uint (E : t) (idx : Z) (n : nat) (v : Z) : t := put E idx (le_split n v).

(** A device of [n] erased cells. *)
Definition erased (n : nat) : t := repeat xFF n.

End EEPROM.

(** ** Build parameters

    What the header takes from outside: the two checksum routines of the CRC
    library ([crc8] and [crc32] over a byte array), the macro
    [EEPROM_MAX_WRITES] (100000 unless the client defines it), and the width
    of [size_t] on the target, in which [update] computes the room left. *)

Class Build := {
  crc8 : list byte -> byte;
  crc32 : list byte -> Z;
  EEPROM_MAX_WRITES : Z;
  size_t_bits : Z
}.

(** ** The manager object *)

Record EEPROManager := mkEEPROManager {
  _ADDRESS : Z;               (* uint16_t: start of the current entry *)
  _MEMORY : list byte;        (* the bytes of the bound record *)
  _ENTRY_KEY : Z;             (* uint16_t *)
  _ENTRY_CRC8 : byte;         (* uint8_t *)
  _ENTRY_WRITE_COUNT : Z;     (* uint32_t *)
  _ENTRY_LENGTH : Z;          (* uint16_t *)
  _ENTRY_CRC32 : Z            (* uint32_t *)
}.

Definition set_ADDRESS (m : EEPROManager) (a : Z) : EEPROManager :=
  mkEEPROManager a (_MEMORY m) (_ENTRY_KEY m) (_ENTRY_CRC8 m)
    (_ENTRY_WRITE_COUNT m) (_ENTRY_LENGTH m) (_ENTRY_CRC32 m).

Definition set_MEMORY (m : EEPROManager) (r : list byte) : EEPROManager :=
  mkEEPROManager (_ADDRESS m) r (_ENTRY_KEY m) (_ENTRY_CRC8 m)
    (_ENTRY_WRITE_COUNT m) (_ENTRY_LENGTH m) (_ENTRY_CRC32 m).

Definition set_WRITE_COUNT (m : EEPROManager) (c : Z) : EEPROManager :=
  mkEEPROManager (_ADDRESS m) (_MEMORY m) (_ENTRY_KEY m) (_ENTRY_CRC8 m)
    c (_ENTRY_LENGTH m) (_ENTRY_CRC32 m).

Definition set_CRC32 (m : EEPROManager) (c : Z) : EEPROManager :=
  mkEEPROManager (_ADDRESS m) (_MEMORY m) (_ENTRY_KEY m) (_ENTRY_CRC8 m)
    (_ENTRY_WRITE_COUNT m) (_ENTRY_LENGTH m) c.

(** [sizeof(T)], in bytes. *)
Definition sizeof_T (m : EEPROManager) : nat := List.length (_MEMORY m).

(** Offsets of the fields of an entry: [sizeof(_ENTRY_KEY)] and so on. *)
Definition off_CRC8 : Z := 2.
Definition off_WRITE_COUNT : Z := 2 + 1.
Definition off_LENGTH : Z := 2 + 1 + 4.
Definition off_DATA : Z := 2 + 1 + 4 + 2.
Definition off_CRC32 (m : EEPROManager) : Z := 2 + 1 + 4 + 2 + Z.of_nat (sizeof_T m).

(** The header overhead added to a stored length when an entry is skipped:
    key, key check, write count, length and payload check. *)
Definition overhead : Z := 2 + 1 + 4 + 2 + 4.

(** Bytes taken by a whole entry of the bound record. *)
Definition entry_size (m : EEPROManager) : Z := overhead + Z.of_nat (sizeof_T m).

Section Manager.
Context {B : Build}.

(** [crc8(&key, sizeof(uint8_t))]: the checksum runs over the first byte
    of the two-byte key only. *)
Definition key_crc8 (key : Z) : byte := crc8 (firstn 1 (le_split 2 key)).

(** [crc32(_MEMORY, sizeof(T))] as a [uint32_t]. *)
Definition memory_crc32 (m : EEPROManager) : Z := wrap 32 (crc32 (_MEMORY m)).

Definition initialise (m : EEPROManager) : EEPROManager :=
  mkEEPROManager (_ADDRESS m) (_MEMORY m) (_ENTRY_KEY m)
    (key_crc8 (_ENTRY_KEY m))
    1
    (wrap 16 (Z.of_nat (sizeof_T m)))
    (memory_crc32 m).

(** [locate]: the result is the returned [validSpace] and the manager with
    its [_ADDRESS] moved.  One unit of fuel is spent per header examined;
    [None] means the fuel ran out before the loop ended. *)
Fixpoint locate (fuel : nat) (E : EEPROM.t) (m : EEPROManager)
  : option (Z * EEPROManager) :=
  if _ADDRESS m <? EEPROM.length E then
    match fuel with
    | O => None
    | S fuel' =>
        let EEPROMKey := EEPROM.get_uint E (_ADDRESS m) 2 in
        let EEPROMCRC8 := EEPROM.read E (_ADDRESS m + off_CRC8) in
        if Byte.eqb (key_crc8 EEPROMKey) EEPROMCRC8 then
          let EEPROMCount := EEPROM.get_uint E (_ADDRESS m + off_WRITE_COUNT) 4 in
          let EEPROMLength := EEPROM.get_uint E (_ADDRESS m + off_LENGTH) 2 in
          if (EEPROMKey =? _ENTRY_KEY m) && (EEPROMCount <? EEPROM_MAX_WRITES) then
            Some (1, m)
          else
            locate fuel' E
              (set_ADDRESS m (wrap 16 (_ADDRESS m + (EEPROMLength + overhead))))
        else
          Some (0, m)
    end
  else Some (0, m).

(** The addresses of the headers that [locate] steps over, in order. *)
Fixpoint skipped (fuel : nat) (E : EEPROM.t) (m : EEPROManager) : list Z :=
  if _ADDRESS m <? EEPROM.length E then
    match fuel with
    | O => []
    | S fuel' =>
        let EEPROMKey := EEPROM.get_uint E (_ADDRESS m) 2 in
        let EEPROMCRC8 := EEPROM.read E (_ADDRESS m + off_CRC8) in
        if Byte.eqb (key_crc8 EEPROMKey) EEPROMCRC8 then
          let EEPROMCount := EEPROM.get_uint E (_ADDRESS m + off_WRITE_COUNT) 4 in
          let EEPROMLength := EEPROM.get_uint E (_ADDRESS m + off_LENGTH) 2 in
          if (EEPROMKey =? _ENTRY_KEY m) && (EEPROMCount <? EEPROM_MAX_WRITES) then
            []
          else
            _ADDRESS m ::
              skipped fuel' E
                (set_ADDRESS m (wrap 16 (_ADDRESS m + (EEPROMLength + overhead))))
        else []
    end
  else [].

(** [write]: the six [EEPROM.put] calls, in the order of the source. *)
Definition write (E : EEPROM.t) (m : EEPROManager) : EEPROM.t :=
  let E := EEPROM.put_uint E (_ADDRESS m) 2 (_ENTRY_KEY m) in
  let E := EEPROM.put E (_ADDRESS m + off_CRC8) [_ENTRY_CRC8 m] in
  let E := EEPROM.put_uint E (_ADDRESS m + off_WRITE_COUNT) 4 (_ENTRY_WRITE_COUNT m) in
  let E := EEPROM.put_uint E (_ADDRESS m + off_LENGTH) 2 (_ENTRY_LENGTH m) in
  let E := EEPROM.put E (_ADDRESS m + off_DATA) (_MEMORY m) in
  EEPROM.put_uint E (_ADDRESS m + off_CRC32 m) 4 (_ENTRY_CRC32 m).

(** [read]: write count, record bytes and payload check, from the device. *)
Definition read (E : EEPROM.t) (m : EEPROManager) : EEPROManager :=
  mkEEPROManager (_ADDRESS m)
    (EEPROM.get E (_ADDRESS m + off_DATA) (sizeof_T m))
    (_ENTRY_KEY m) (_ENTRY_CRC8 m)
    (EEPROM.get_uint E (_ADDRESS m + off_WRITE_COUNT) 4)
    (_ENTRY_LENGTH m)
    (EEPROM.get_uint E (_ADDRESS m + off_CRC32 m) 4).

Definition begin (fuel : nat) (E : EEPROM.t) (m : EEPROManager)
  : option (EEPROM.t * EEPROManager) :=
  let m := initialise m in
  match locate fuel E m with
  | None => None
  | Some (validSpace, m) =>
      if validSpace =? 0 then Some (write E m, m) else Some (E, read E m)
  end.

(** The constructor [EEPROManager(MEMORY, KEY)].  The four entry fields are
    not initialised by the member initialisers; [begin] sets them before
    they are used, so their starting value is immaterial. *)
Definition unconstructed (MEMORY : list byte) (KEY : Z) : EEPROManager :=
  mkEEPROManager 0 MEMORY (wrap 16 KEY) Byte.x00 0 0 0.

Definition EEPROManager_new (fuel : nat) (E : EEPROM.t) (MEMORY : list byte) (KEY : Z)
  : option (EEPROM.t * EEPROManager) :=
  begin fuel E (unconstructed MEMORY KEY).

(** The in-place part of [update]: count, record and payload check. *)
Definition update_in_place (E : EEPROM.t) (m : EEPROManager) : EEPROM.t :=
  let E := EEPROM.put_uint E (_ADDRESS m + off_WRITE_COUNT) 4 (_ENTRY_WRITE_COUNT m) in
  let E := EEPROM.put E (_ADDRESS m + off_DATA) (_MEMORY m) in
  EEPROM.put_uint E (_ADDRESS m + off_CRC32 m) 4 (_ENTRY_CRC32 m).

(** The shadow entry once [update] has incremented the count and
    recomputed the payload check. *)
Definition counted (m : EEPROManager) : EEPROManager :=
  set_CRC32 (set_WRITE_COUNT m (wrap 32 (_ENTRY_WRITE_COUNT m + 1))) (memory_crc32 m).

(** The value [update] returns when no room is left. *)
Definition NO_SPACE : Z := 0xFFFFFFFF.

(** [EEPROM.length() - (sizeof(...) + ... + sizeof(T) + ...)] in [size_t]. *)
Definition space_limit (E : EEPROM.t) (m : EEPROManager) : Z :=
  wrap size_t_bits (EEPROM.length E - entry_size m).

Definition update (fuel : nat) (E : EEPROM.t) (m : EEPROManager)
  : option (Z * (EEPROM.t * EEPROManager)) :=
  if memory_crc32 m =? _ENTRY_CRC32 m then Some (0, (E, m))
  else
    let m := set_WRITE_COUNT m (wrap 32 (_ENTRY_WRITE_COUNT m + 1)) in
    let m := set_CRC32 m (memory_crc32 m) in
    let E := update_in_place E m in
    if EEPROM_MAX_WRITES <=? _ENTRY_WRITE_COUNT m then
      match locate fuel E m with
      | None => None
      | Some (_, m) =>
          if _ADDRESS m <? space_limit E m then
            let m := set_WRITE_COUNT m 1 in
            Some (_ENTRY_WRITE_COUNT m, (write E m, m))
          else Some (NO_SPACE, (E, m))
      end
    else Some (_ENTRY_WRITE_COUNT m, (E, m)).

Definition force (E : EEPROM.t) (m : EEPROManager) : EEPROM.t * EEPROManager :=
  (write E m, m).

(** The loop of [wipe]: [n] cells from [i] on are set to [0xFF].  Its
    counter is a [uint16_t], as is the value of [length()] it runs up to. *)
Fixpoint wipe_loop (n : nat) (i : Z) (E : EEPROM.t) : EEPROM.t :=
  match n with
  | O => E
  | S n' => wipe_loop n' (i + 1) (EEPROM.update E i xFF)
  end.

Definition wipe (fuel : nat) (E : EEPROM.t) (m : EEPROManager)
  : option (EEPROM.t * EEPROManager) :=
  begin fuel (wipe_loop (List.length E) 0 E) m.

(** [n] calls of [update] in a row, with the values they return. *)
Fixpoint updates (n : nat) (fuel : nat) (E : EEPROM.t) (m : EEPROManager)
  : option (list Z * (EEPROM.t * EEPROManager)) :=
  match n with
  | O => Some ([], (E, m))
  | S n' =>
      match update fuel E m with
      | None => None
      | Some (v, (E', m')) =>
          match updates n' fuel E' m' with
          | None => None
          | Some (vs, s) => Some (v :: vs, s)
          end
      end
  end.

(** The bytes of the entry of [m], in device order. *)
Definition entry_bytes (m : EEPROManager) : list byte :=
  le_split 2 (_ENTRY_KEY m) ++ [_ENTRY_CRC8 m] ++ le_split 4 (_ENTRY_WRITE_COUNT m)
    ++ le_split 2 (_ENTRY_LENGTH m) ++ _MEMORY m ++ le_split 4 (_ENTRY_CRC32 m).

(** What the device holds at an entry that starts at [a]. *)
Definition stored_KEY (E : EEPROM.t) (a : Z) : Z := EEPROM.get_uint E a 2.
Definition stored_CRC8 (E : EEPROM.t) (a : Z) : byte := EEPROM.read E (a + off_CRC8).
Definition stored_WRITE_COUNT (E : EEPROM.t) (a : Z) : Z :=
  EEPROM.get_uint E (a + off_WRITE_COUNT) 4.
Definition stored_LENGTH (E : EEPROM.t) (a : Z) : Z :=
  EEPROM.get_uint E (a + off_LENGTH) 2.
Definition stored_DATA (E : EEPROM.t) (a : Z) (n : nat) : list byte :=
  EEPROM.get E (a + off_DATA) n.
Definition stored_CRC32 (E : EEPROM.t) (a : Z) (n : nat) : Z :=
  EEPROM.get_uint E (a + off_DATA + Z.of_nat n) 4.

(** The test of [locate] on the key check found at [a]. *)
Definition valid_header (E : EEPROM.t) (a : Z) : Prop :=
  key_crc8 (stored_KEY E a) = stored_CRC8 E a.

(** Where [locate] goes after stepping over the header at [a]. *)
Definition next_ADDRESS (E : EEPROM.t) (a : Z) : Z :=
  wrap 16 (a + (stored_LENGTH E a + overhead)).

(** The nine header cells at [a] read the same on both devices. *)
Definition same_header (E E' : EEPROM.t) (a : Z) : Prop :=
  forall x, a <= x < a + off_DATA -> EEPROM.read E' x = EEPROM.read E x.

(** Stepping over the header at [a] does not wrap the 16-bit address. *)
Definition no_wrap (E : EEPROM.t) (a : Z) : Prop :=
  a + (stored_LENGTH E a + overhead) < 2 ^ 16.

(** The entry fields fit their C types. *)
Definition well_typed (m : EEPROManager) : Prop :=
  0 <= _ADDRESS m < 2 ^ 16 /\ 0 <= _ENTRY_KEY m < 2 ^ 16 /\
  0 <= _ENTRY_WRITE_COUNT m < 2 ^ 32 /\ 0 <= _ENTRY_LENGTH m < 2 ^ 16 /\
  0 <= _ENTRY_CRC32 m < 2 ^ 32.

(** The shadow key check is the one [initialise] computes. *)
Definition key_checked (m : EEPROManager) : Prop :=
  _ENTRY_CRC8 m = key_crc8 (_ENTRY_KEY m).

(** The whole entry of [m] lies within the device. *)
Definition entry_on_device (E : EEPROM.t) (m : EEPROManager) : Prop :=
  0 <= _ADDRESS m /\ _ADDRESS m + entry_size m <= EEPROM.length E.

(** The states a manager object goes through: it is constructed, then the
    client calls [update], [force] and [wipe] and assigns to the bound
    record, over whatever the device holds at that time. *)
Inductive managed : EEPROManager -> Prop :=
| managed_new fuel E MEMORY KEY E' m :
    EEPROManager_new fuel E MEMORY KEY = Some (E', m) -> managed m
| managed_update fuel E m v E' m' :
    managed m -> update fuel E m = Some (v, (E', m')) -> managed m'
| managed_force E m :
    managed m -> managed (snd (force E m))
| managed_wipe fuel E m E' m' :
    managed m -> wipe fuel E m = Some (E', m') -> managed m'
| managed_assign m r :
    managed m -> List.length r = sizeof_T m -> managed (set_MEMORY m r).

End Manager.

(** ** The dump *)

(** One hexadecimal digit as [printf] prints it under [%X]. *)
Definition hex_digit (d : Z) : ascii :=
  if d <? 10 then ascii_of_N (Z.to_N (48 + d)) else ascii_of_N (Z.to_N (55 + d)).

(** [printf("%02X ", b)] for a cell value [b]: at least two digits, padded
    with zeros, and a space; a cell value has no more than two. *)
Definition printf_02X (b : byte) : list ascii :=
  [hex_digit (byte.unsigned b / 16); hex_digit (byte.unsigned b mod 16); " "%char].

(** The loop of [print]: [n] cells from [i] on are printed. *)
Fixpoint print_loop (n : nat) (i : Z) (E : EEPROM.t) (stream : list ascii) : list ascii :=
  match n with
  | O => stream
  | S n' => print_loop n' (i + 1) E (stream ++ printf_02X (EEPROM.read E i))
  end.

Definition print (E : EEPROM.t) (stream : list ascii) : list ascii :=
  print_loop (List.length E) 0 E stream ++ ["010"%char].

(** ** A concrete build

    A bitwise CRC-8 (polynomial [0x07]) and CRC-32 (polynomial [0x04C11DB7]),
    most significant bit first and with a zero start value, on a target with
    a 16-bit [size_t].  They serve to run the model on concrete devices. *)

Module Reference.

Fixpoint crc_shift (width poly : Z) (n : nat) (c : Z) : Z :=
  match n with
  | O => c
  | S n' =>
      let c' := wrap width (Z.shiftl c 1) in
      crc_shift width poly n' (if Z.testbit c (width - 1) then Z.lxor c' poly else c')
  end.

Definition crc (width poly : Z) (bs : list byte) : Z :=
  fold_left
    (fun c b => crc_shift width poly 8 (Z.lxor c (Z.shiftl (byte.unsigned b) (width - 8))))
    bs 0.

Definition crc8_ref (bs : list byte) : byte := byte.of_Z (crc 8 0x07 bs).

Definition crc32_ref (bs : list byte) : Z := crc 32 0x04C11DB7 bs.

Definition build (max_writes : Z) : Build :=
  {| crc8 := crc8_ref; crc32 := crc32_ref;
     EEPROM_MAX_WRITES := max_writes; size_t_bits := 16 |}.

End Reference.

(** ** Concrete runs

    Key 1 and a record of four bytes on erased devices of 64 and of 20 cells,
    with a limit of two writes per place or with the default limit of 100000;
    and a 64-cell device that already holds an entry of key 2. *)

Module Scenario.
Import Reference.

Definition two_writes : Build := build 2.
Definition default_limit : Build := build 100000.

Definition record_a : list byte := [Byte.x00; Byte.x00; Byte.x00; Byte.x00].
Definition record_b : list byte := [Byte.x01; Byte.x00; Byte.x00; Byte.x00].

(** The state after a construction, or the starting state had it run out
    of fuel. *)
Definition constructed (B : Build) (E : EEPROM.t) (MEMORY : list byte) (KEY : Z)
  : EEPROM.t * EEPROManager :=
  match EEPROManager_new 4 E MEMORY KEY with
  | Some s => s
  | None => (E, unconstructed MEMORY KEY)
  end.

(** The state after an [update], likewise. *)
Definition updated (B : Build) (s : EEPROM.t * EEPROManager) : EEPROM.t * EEPROManager :=
  match update 4 (fst s) (snd s) with
  | Some (_, s') => s'
  | None => s
  end.

(** The state after a [wipe], likewise. *)
Definition wiped (B : Build) (s : EEPROM.t * EEPROManager) : EEPROM.t * EEPROManager :=
  match wipe 4 (fst s) (snd s) with
  | Some s' => s'
  | None => s
  end.

(** The client assigns to the bound record. *)
Definition assigned (s : EEPROM.t * EEPROManager) (r : list byte)
  : EEPROM.t * EEPROManager :=
  (fst s, set_MEMORY (snd s) r).

(** A 64-cell device, freshly constructed over; then the record changes. *)
Definition fresh64 : EEPROM.t * EEPROManager :=
  constructed two_writes (EEPROM.erased 64) record_a 1.
Definition changed64 : EEPROM.t * EEPROManager := assigned fresh64 record_b.

(** The same under the default limit. *)
Definition fresh64_default : EEPROM.t * EEPROManager :=
  constructed default_limit (EEPROM.erased 64) record_a 1.
Definition changed64_default : EEPROM.t * EEPROManager :=
  assigned fresh64_default record_b.

(** A 20-cell device: room for one entry of 17 bytes, not for two. *)
Definition fresh20 : EEPROM.t * EEPROManager :=
  constructed two_writes (EEPROM.erased 20) record_a 1.
Definition changed20 : EEPROM.t * EEPROManager := assigned fresh20 record_b.

(** Where the scan for a new place leaves the manager of [changed20] and
    of [changed64]: at address 17. *)
Definition scanned20 : EEPROManager :=
  set_ADDRESS (@counted two_writes (snd changed20)) 17.
Definition scanned64 : EEPROManager :=
  set_ADDRESS (@counted two_writes (snd changed64)) 17.

(** The manager has moved its entry to address 17; then [wipe] is called. *)
Definition relocated64 : EEPROM.t * EEPROManager := updated two_writes changed64.
Definition wiped64 : EEPROM.t * EEPROManager := wiped two_writes relocated64.

(** A device on which a manager of key 2 has put its entry first, and a
    manager of key 1 about to scan it. *)
Definition shared64 : EEPROM.t :=
  fst (constructed two_writes (EEPROM.erased 64) record_b 2).
Definition newcomer : EEPROManager :=
  @initialise two_writes (unconstructed record_a 1).

(** The manager of key 2 that put its entry on [shared64], and the state
    once the manager of key 1 has joined it. *)
Definition owner64 : EEPROManager :=
  snd (constructed two_writes (EEPROM.erased 64) record_b 2).
Definition joined64 : EEPROM.t * EEPROManager :=
  constructed two_writes shared64 record_a 1.

(** A 34-cell device: a second entry of 17 bytes would end exactly at the
    last cell. *)
Definition fresh34 : EEPROM.t * EEPROManager :=
  constructed two_writes (EEPROM.erased 34) record_a 1.
Definition changed34 : EEPROM.t * EEPROManager := assigned fresh34 record_b.
Definition scanned34 : EEPROManager :=
  set_ADDRESS (@counted two_writes (snd changed34)) 17.

(** A 16-cell device: one cell short of a single entry. *)
Definition fresh16 : EEPROM.t * EEPROManager :=
  constructed two_writes (EEPROM.erased 16) record_a 1.
Definition changed16 : EEPROM.t * EEPROManager := assigned fresh16 record_b.
Definition scanned16 : EEPROManager :=
  set_ADDRESS (@counted two_writes (snd changed16)) 17.

(** The manager of [changed20] after the [update] that found no room; then
    the record changes again. *)
Definition stuck20 : EEPROM.t * EEPROManager :=
  assigned (updated two_writes changed20) record_a.

(** [shared64] with the length field of its entry set to 65523, which with
    the 13 bytes of overhead makes 65536. *)
Definition cyclic64 : EEPROM.t :=
  EEPROM.put_uint shared64 (0 + off_LENGTH) 2 65523.

(** A record of two bytes. *)
Definition record_c : list byte := [Byte.x07; Byte.x07].

(** The device of [fresh64] with the high byte of the stored key changed
    from 0 to 1: the key cells now hold 257. *)
Definition altered64 : EEPROM.t := EEPROM.update (fst fresh64) 1 Byte.x01.

End Scenario.

(** * Facts about the storage device *)

Module EEPROMFacts.
Import EEPROM.

Lemma length_set_nth n v l : List.length (set_nth n v l) = List.length l.
Proof.
  revert n; induction l as [|x l IH]; intros [|n]; simpl; auto.
Qed.

Lemma nth_set_nth k n v l d :
  nth k (set_nth n v l) d =
  if (Nat.eqb k n && Nat.ltb n (List.length l))%bool then v else nth k l d.
Proof.
  revert k n; induction l as [|x l IH]; intros k n.
  - simpl. rewrite andb_false_r. destruct k; reflexivity.
  - destruct n as [|n]; destruct k as [|k]; simpl; try reflexivity.
    rewrite IH. reflexivity.
Qed.

Lemma length_update E idx v : length (update E idx v) = length E.
Proof.
  unfold update, length. destruct (in_range E idx); auto.
  now rewrite length_set_nth.
Qed.

Lemma length_put bs : forall E idx, length (put E idx bs) = length E.
Proof.
  induction bs as [|b bs IH]; intros E idx; simpl; auto.
  now rewrite IH, length_update.
Qed.

Lemma in_range_iff E a : in_range E a = true <-> 0 <= a < length E.
Proof. unfold in_range. rewrite andb_true_iff, Z.leb_le, Z.ltb_lt. tauto. Qed.

Lemma in_range_update E idx v a : in_range (update E idx v) a = in_range E a.
Proof. unfold in_range. now rewrite length_update. Qed.


Lemma read_update_same E idx v :
  0 <= idx < length E -> read (update E idx v) idx = v.
Proof.
  intros H. unfold read. rewrite in_range_update.
  unfold update. apply in_range_iff in H as Hr. rewrite Hr.
  rewrite nth_set_nth, Nat.eqb_refl. simpl.
  replace (Nat.ltb _ _) with true; auto.
  symmetry. apply Nat.ltb_lt. unfold length in H. lia.
Qed.

Lemma read_update_other E idx v a :
  a <> idx -> read (update E idx v) a = read E a.
Proof.
  intros H. unfold read. rewrite in_range_update.
  destruct (in_range E a) eqn:Ha; auto.
  unfold update. destruct (in_range E idx) eqn:Hi; auto.
  apply in_range_iff in Ha, Hi.
  rewrite nth_set_nth.
  replace (Nat.eqb _ _) with false; auto.
  symmetry. apply Nat.eqb_neq. lia.
Qed.

Lemma read_outside E a : ~ (0 <= a < length E) -> read E a = xFF.
Proof.
  intros H. unfold read. destruct (in_range E a) eqn:Ha; auto.
  apply in_range_iff in Ha. contradiction.
Qed.

(** A cell outside the written range keeps its value. *)
Lemma read_put_outside bs : forall E idx a,
  a < idx \/ idx + Z.of_nat (List.length bs) <= a ->
  read (put E idx bs) a = read E a.
Proof.
  induction bs as [|b bs IH]; intros E idx a H; simpl in *; auto.
  rewrite IH by lia. apply read_update_other. lia.
Qed.

(** A cell inside the written range, on the device, holds the byte put. *)
Lemma read_put_inside bs : forall E idx a,
  idx <= a < idx + Z.of_nat (List.length bs) ->
  0 <= a < length E ->
  read (put E idx bs) a = nth (Z.to_nat (a - idx)) bs xFF.
Proof.
  induction bs as [|b bs IH]; intros E idx a H Hr; simpl in *; [lia|].
  destruct (Z.eq_dec a idx) as [->|Hne].
  - rewrite read_put_outside by lia.
    rewrite read_update_same by lia.
    now rewrite Z.sub_diag.
  - rewrite IH by (rewrite ?length_update; lia).
    replace (Z.to_nat (a - idx)) with (S (Z.to_nat (a - (idx + 1)))) by lia.
    reflexivity.
Qed.

Lemma length_get E : forall n idx, List.length (get E idx n) = n.
Proof. induction n; intros; simpl; auto. Qed.

Lemma get_ext E E' : forall n idx,
  (forall a, idx <= a < idx + Z.of_nat n -> read E a = read E' a) ->
  get E idx n = get E' idx n.
Proof.
  induction n as [|n IH]; intros idx H; simpl; auto.
  f_equal.
  - apply H. lia.
  - apply IH. intros a Ha. apply H. lia.
Qed.


Lemma nth_get E : forall n idx k,
  (k < n)%nat -> nth k (get E idx n) xFF = read E (idx + Z.of_nat k).
Proof.
  induction n as [|n IH]; intros idx k Hk; [lia|].
  destruct k as [|k]; simpl get; cbn [nth].
  - now rewrite Z.add_0_r.
  - rewrite IH by lia. f_equal. lia.
Qed.

(** Reading back what was just put, when it lies on the device. *)
Lemma get_put_same E idx bs :
  0 <= idx -> idx + Z.of_nat (List.length bs) <= length E ->
  get (put E idx bs) idx (List.length bs) = bs.
Proof.
  intros H0 H1.
  apply nth_ext with (d := xFF) (d' := xFF).
  - apply length_get.
  - intros k Hk. rewrite length_get in Hk.
    rewrite nth_get by assumption.
    rewrite read_put_inside by lia.
    f_equal. lia.
Qed.

(** A range disjoint from the written one reads as before. *)
Lemma get_put_disjoint E idx bs a n :
  a + Z.of_nat n <= idx \/ idx + Z.of_nat (List.length bs) <= a ->
  get (put E idx bs) a n = get E a n.
Proof.
  intros H. apply get_ext. intros x Hx.
  apply read_put_outside. lia.
Qed.

Lemma put_app bs1 : forall E idx bs2,
  put E idx (bs1 ++ bs2) = put (put E idx bs1) (idx + Z.of_nat (List.length bs1)) bs2.
Proof.
  induction bs1 as [|b bs1 IH]; intros E idx bs2.
  - simpl. now rewrite Z.add_0_r.
  - cbn [put app List.length]. rewrite IH. f_equal. lia.
Qed.

(** Two devices of the same size that read alike are the same device. *)
Lemma device_ext (E E' : t) :
  List.length E = List.length E' ->
  (forall a, 0 <= a < length E -> read E a = read E' a) ->
  E = E'.
Proof.
  intros Hl H. apply nth_ext with (d := xFF) (d' := xFF); [exact Hl|].
  intros k Hk.
  specialize (H (Z.of_nat k)).
  unfold read, in_range, length in H. rewrite <- Hl in H.
  assert (Hb : ((0 <=? Z.of_nat k) && (Z.of_nat k <? Z.of_nat (List.length E)))%bool = true).
  { apply andb_true_iff. rewrite Z.leb_le, Z.ltb_lt. lia. }
  rewrite Hb, Nat2Z.id in H. apply H. lia.
Qed.


Lemma get_uint_range E idx n : 0 <= get_uint E idx n < 2 ^ (8 * Z.of_nat n).
Proof.
  unfold get_uint.
  pose proof (le_combine_bound (get E idx n)) as H.
  now rewrite length_get in H.
Qed.

End EEPROMFacts.

(** * Facts about the manager *)

Section ManagerFacts.
Context {B : Build}.
Import EEPROMFacts.

Lemma byte_eqb_true_iff (x y : byte) : Byte.eqb x y = true <-> x = y.
Proof. split; [apply Byte.byte_dec_bl | apply Byte.byte_dec_lb]. Qed.

Lemma byte_eqb_false_iff (x y : byte) : Byte.eqb x y = false <-> x <> y.
Proof.
  split; [apply Byte.eqb_false|].
  intros H. destruct (Byte.eqb x y) eqn:E; auto.
  apply byte_eqb_true_iff in E. contradiction.
Qed.

Lemma wrap_range bits z : 0 <= bits -> 0 <= wrap bits z < 2 ^ bits.
Proof. intros H. unfold wrap. apply Z.mod_pos_bound. now apply Z.pow_pos_nonneg. Qed.

Lemma wrap_small bits z : 0 <= z < 2 ^ bits -> wrap bits z = z.
Proof. intros H. unfold wrap. now apply Z.mod_small. Qed.

(** ** Size of an entry *)

Lemma length_entry_bytes m :
  Z.of_nat (List.length (entry_bytes m)) = entry_size m.
Proof.
  unfold entry_bytes, entry_size, overhead, sizeof_T.
  rewrite !length_app, !length_le_split. cbn [List.length]. lia.
Qed.

Lemma get_put_same_len E idx bs n :
  n = List.length bs -> 0 <= idx -> idx + Z.of_nat n <= EEPROM.length E ->
  EEPROM.get (EEPROM.put E idx bs) idx n = bs.
Proof. intros -> H0 H1. now apply get_put_same. Qed.

(** ** [write] *)

(** The six [put] calls lay down the entry bytes in one run. *)
Lemma write_entry_bytes E m : write E m = EEPROM.put E (_ADDRESS m) (entry_bytes m).
Proof.
  unfold write, entry_bytes, EEPROM.put_uint.
  rewrite !put_app. rewrite !length_le_split. cbn [List.length].
  unfold off_CRC8, off_WRITE_COUNT, off_LENGTH, off_DATA, off_CRC32, sizeof_T.
  repeat match goal with
         | |- EEPROM.put _ ?a ?bs = EEPROM.put _ ?b ?bs => replace b with a by lia; f_equal
         end.
Qed.

Lemma length_write E m : EEPROM.length (write E m) = EEPROM.length E.
Proof. rewrite write_entry_bytes. apply length_put. Qed.

Lemma get_write E m :
  entry_on_device E m ->
  EEPROM.get (write E m) (_ADDRESS m) (List.length (entry_bytes m)) = entry_bytes m.
Proof.
  intros [H0 H1]. rewrite write_entry_bytes.
  apply get_put_same; auto. rewrite length_entry_bytes. lia.
Qed.

Lemma read_write_outside E m a :
  a < _ADDRESS m \/ _ADDRESS m + entry_size m <= a ->
  EEPROM.read (write E m) a = EEPROM.read E a.
Proof.
  intros H. rewrite write_entry_bytes.
  apply read_put_outside. rewrite length_entry_bytes. lia.
Qed.

Lemma get_write_outside E m a n :
  a + Z.of_nat n <= _ADDRESS m \/ _ADDRESS m + entry_size m <= a ->
  EEPROM.get (write E m) a n = EEPROM.get E a n.
Proof.
  intros H. rewrite write_entry_bytes.
  apply get_put_disjoint. rewrite length_entry_bytes. lia.
Qed.

End ManagerFacts.

(** Side conditions on ranges of cells. *)
Ltac cells :=
  rewrite ?EEPROMFacts.length_put, ?length_le_split; cbn [List.length];
  unfold entry_on_device, entry_size, overhead, off_CRC8, off_WRITE_COUNT,
    off_LENGTH, off_DATA, off_CRC32, sizeof_T in *;
  try reflexivity; lia.

(** Project the fields of a manager built by the setters. *)
Ltac fields :=
  cbn [_ADDRESS _MEMORY _ENTRY_KEY _ENTRY_CRC8 _ENTRY_WRITE_COUNT _ENTRY_LENGTH
       _ENTRY_CRC32 set_ADDRESS set_MEMORY set_WRITE_COUNT set_CRC32 initialise
       unconstructed counted sizeof_T] in *.

(** Look through the later [put]s that do not touch the range read, then
    read back the one that wrote it. *)
Ltac through_puts :=
  unfold EEPROM.get_uint, EEPROM.put_uint;
  repeat (rewrite EEPROMFacts.get_put_disjoint by cells).

Ltac read_back :=
  through_puts; rewrite get_put_same_len by cells.

Section FieldFacts.
Context {B : Build}.
Import EEPROMFacts.

(** ** Fields read back after [write] *)

Lemma write_KEY E m :
  entry_on_device E m ->
  EEPROM.get (write E m) (_ADDRESS m) 2 = le_split 2 (_ENTRY_KEY m).
Proof. intros H. unfold write. now read_back. Qed.

Lemma write_CRC8 E m :
  entry_on_device E m ->
  EEPROM.read (write E m) (_ADDRESS m + off_CRC8) = _ENTRY_CRC8 m.
Proof.
  intros H.
  assert (G : EEPROM.get (write E m) (_ADDRESS m + off_CRC8) 1 = [_ENTRY_CRC8 m]).
  { unfold write. now read_back. }
  simpl in G. congruence.
Qed.

Lemma write_WRITE_COUNT E m :
  entry_on_device E m ->
  EEPROM.get (write E m) (_ADDRESS m + off_WRITE_COUNT) 4 = le_split 4 (_ENTRY_WRITE_COUNT m).
Proof. intros H. unfold write. now read_back. Qed.

Lemma write_LENGTH E m :
  entry_on_device E m ->
  EEPROM.get (write E m) (_ADDRESS m + off_LENGTH) 2 = le_split 2 (_ENTRY_LENGTH m).
Proof. intros H. unfold write. now read_back. Qed.

Lemma write_DATA E m :
  entry_on_device E m ->
  EEPROM.get (write E m) (_ADDRESS m + off_DATA) (sizeof_T m) = _MEMORY m.
Proof. intros H. unfold write. now read_back. Qed.

Lemma write_CRC32 E m :
  entry_on_device E m ->
  EEPROM.get (write E m) (_ADDRESS m + off_CRC32 m) 4 = le_split 4 (_ENTRY_CRC32 m).
Proof. intros H. unfold write. now read_back. Qed.

End FieldFacts.

Section LocateFacts.
Context {B : Build}.
Import EEPROMFacts.

(** ** One turn of the loop of [locate] *)

Lemma locate_end fuel E m :
  EEPROM.length E <= _ADDRESS m -> locate fuel E m = Some (0, m).
Proof.
  intros H. destruct fuel; simpl;
    (replace (_ADDRESS m <? EEPROM.length E) with false by (symmetry; apply Z.ltb_ge; lia));
    reflexivity.
Qed.

Lemma locate_free fuel E m :
  _ADDRESS m < EEPROM.length E -> ~ valid_header E (_ADDRESS m) ->
  locate (S fuel) E m = Some (0, m).
Proof.
  intros Hlt Hv. simpl.
  apply Z.ltb_lt in Hlt. rewrite Hlt.
  apply byte_eqb_false_iff in Hv. unfold stored_KEY, stored_CRC8 in Hv.
  now rewrite Hv.
Qed.

Lemma locate_found fuel E m :
  _ADDRESS m < EEPROM.length E -> valid_header E (_ADDRESS m) ->
  stored_KEY E (_ADDRESS m) = _ENTRY_KEY m ->
  stored_WRITE_COUNT E (_ADDRESS m) < EEPROM_MAX_WRITES ->
  locate (S fuel) E m = Some (1, m).
Proof.
  intros Hlt Hv Hk Hc. simpl.
  apply Z.ltb_lt in Hlt. rewrite Hlt.
  apply byte_eqb_true_iff in Hv. unfold stored_KEY, stored_CRC8 in Hv. rewrite Hv.
  apply Z.eqb_eq in Hk. unfold stored_KEY in Hk. rewrite Hk.
  apply Z.ltb_lt in Hc. unfold stored_WRITE_COUNT in Hc. now rewrite Hc.
Qed.

Lemma locate_skip fuel E m :
  _ADDRESS m < EEPROM.length E -> valid_header E (_ADDRESS m) ->
  stored_KEY E (_ADDRESS m) <> _ENTRY_KEY m \/
    EEPROM_MAX_WRITES <= stored_WRITE_COUNT E (_ADDRESS m) ->
  locate (S fuel) E m = locate fuel E (set_ADDRESS m (next_ADDRESS E (_ADDRESS m))).
Proof.
  intros Hlt Hv Hs. cbn [locate].
  apply Z.ltb_lt in Hlt. rewrite Hlt.
  apply byte_eqb_true_iff in Hv. unfold stored_KEY, stored_CRC8 in Hv. rewrite Hv.
  unfold stored_KEY, stored_WRITE_COUNT in Hs.
  replace (_ && _)%bool with false; [reflexivity|].
  symmetry. apply andb_false_iff.
  destruct Hs as [Hs|Hs]; [left; now apply Z.eqb_neq | right; now apply Z.ltb_ge].
Qed.

(** The three ways a turn of the loop can go, at an address on the device. *)
Lemma locate_cases fuel E m :
  _ADDRESS m < EEPROM.length E ->
  (~ valid_header E (_ADDRESS m) /\ locate (S fuel) E m = Some (0, m)) \/
  (valid_header E (_ADDRESS m) /\ stored_KEY E (_ADDRESS m) = _ENTRY_KEY m /\
     stored_WRITE_COUNT E (_ADDRESS m) < EEPROM_MAX_WRITES /\
     locate (S fuel) E m = Some (1, m)) \/
  (valid_header E (_ADDRESS m) /\
     (stored_KEY E (_ADDRESS m) <> _ENTRY_KEY m \/
        EEPROM_MAX_WRITES <= stored_WRITE_COUNT E (_ADDRESS m)) /\
     locate (S fuel) E m = locate fuel E (set_ADDRESS m (next_ADDRESS E (_ADDRESS m)))).
Proof.
  intros Hlt.
  destruct (Byte.byte_eq_dec (key_crc8 (stored_KEY E (_ADDRESS m))) (stored_CRC8 E (_ADDRESS m)))
    as [Hv|Hv].
  - destruct (Z.eq_dec (stored_KEY E (_ADDRESS m)) (_ENTRY_KEY m)) as [Hk|Hk].
    + destruct (Z_lt_le_dec (stored_WRITE_COUNT E (_ADDRESS m)) EEPROM_MAX_WRITES) as [Hc|Hc].
      * right; left. repeat split; auto. now apply locate_found.
      * right; right. repeat split; auto. apply locate_skip; auto.
    + right; right. repeat split; auto. apply locate_skip; auto.
  - left. split; auto. now apply locate_free.
Qed.

(** ** What [locate] returns *)

(** [locate] changes nothing but [_ADDRESS]. *)
Lemma locate_frame fuel : forall E m r m',
  locate fuel E m = Some (r, m') -> m' = set_ADDRESS m (_ADDRESS m').
Proof.
  induction fuel as [|fuel IH]; intros E m r m' H.
  - destruct (Z_lt_le_dec (_ADDRESS m) (EEPROM.length E)) as [Hlt|Hge].
    + simpl in H. apply Z.ltb_lt in Hlt. rewrite Hlt in H. discriminate.
    + rewrite locate_end in H by assumption.
      inversion H; subst. now destruct m'.
  - destruct (Z_lt_le_dec (_ADDRESS m) (EEPROM.length E)) as [Hlt|Hge].
    + destruct (locate_cases fuel E m Hlt) as [[_ Hl]|[(_ & _ & _ & Hl)|(_ & _ & Hl)]];
        rewrite Hl in H.
      * inversion H; subst. now destruct m'.
      * inversion H; subst. now destruct m'.
      * apply IH in H. rewrite H. reflexivity.
    + rewrite locate_end in H by assumption.
      inversion H; subst. now destruct m'.
Qed.

(** "Found" is reported only at a valid header of the bound key whose
    write count is below the limit; "not found" only at the end of the
    device or at a header that fails the key check. *)
Lemma locate_result fuel : forall E m r m',
  locate fuel E m = Some (r, m') ->
  (r = 1 /\ _ADDRESS m' < EEPROM.length E /\ valid_header E (_ADDRESS m') /\
     stored_KEY E (_ADDRESS m') = _ENTRY_KEY m /\
     stored_WRITE_COUNT E (_ADDRESS m') < EEPROM_MAX_WRITES) \/
  (r = 0 /\ (EEPROM.length E <= _ADDRESS m' \/ ~ valid_header E (_ADDRESS m'))).
Proof.
  induction fuel as [|fuel IH]; intros E m r m' H.
  - destruct (Z_lt_le_dec (_ADDRESS m) (EEPROM.length E)) as [Hlt|Hge].
    + simpl in H. apply Z.ltb_lt in Hlt. rewrite Hlt in H. discriminate.
    + rewrite locate_end in H by assumption. inversion H; subst. right; auto.
  - destruct (Z_lt_le_dec (_ADDRESS m) (EEPROM.length E)) as [Hlt|Hge].
    + destruct (locate_cases fuel E m Hlt) as [[Hv Hl]|[(Hv & Hk & Hc & Hl)|(_ & _ & Hl)]];
        rewrite Hl in H.
      * inversion H; subst. right; auto.
      * inversion H; subst. left; auto.
      * apply IH in H. exact H.
    + rewrite locate_end in H by assumption. inversion H; subst. right; auto.
Qed.

(** More fuel does not change a result. *)
Lemma locate_more_fuel fuel : forall E m x k,
  locate fuel E m = Some x -> locate (fuel + k) E m = Some x.
Proof.
  induction fuel as [|fuel IH]; intros E m x k H.
  - destruct (Z_lt_le_dec (_ADDRESS m) (EEPROM.length E)) as [Hlt|Hge].
    + simpl in H. apply Z.ltb_lt in Hlt. rewrite Hlt in H. discriminate.
    + rewrite locate_end in * by assumption. assumption.
  - destruct (Z_lt_le_dec (_ADDRESS m) (EEPROM.length E)) as [Hlt|Hge].
    + cbn [Nat.add].
      destruct (locate_cases fuel E m Hlt) as [[Hv Hl]|[(Hv & Hk & Hc & Hl)|(Hv & Hs & Hl)]];
        rewrite Hl in H.
      * now rewrite locate_free.
      * now rewrite locate_found.
      * rewrite locate_skip by assumption. now apply IH.
    + rewrite locate_end in * by assumption. assumption.
Qed.

Lemma locate_ADDRESS_range fuel : forall E m r m',
  locate fuel E m = Some (r, m') ->
  0 <= _ADDRESS m < 2 ^ 16 -> 0 <= _ADDRESS m' < 2 ^ 16.
Proof.
  induction fuel as [|fuel IH]; intros E m r m' H Hr.
  - destruct (Z_lt_le_dec (_ADDRESS m) (EEPROM.length E)) as [Hlt|Hge].
    + simpl in H. apply Z.ltb_lt in Hlt. rewrite Hlt in H. discriminate.
    + rewrite locate_end in H by assumption. now inversion H; subst.
  - destruct (Z_lt_le_dec (_ADDRESS m) (EEPROM.length E)) as [Hlt|Hge].
    + destruct (locate_cases fuel E m Hlt) as [[Hv Hl]|[(Hv & Hk & Hc & Hl)|(_ & _ & Hl)]];
        rewrite Hl in H.
      * now inversion H; subst.
      * now inversion H; subst.
      * apply IH in H; auto. simpl. apply wrap_range. lia.
    + rewrite locate_end in H by assumption. now inversion H; subst.
Qed.

End LocateFacts.

Section UpdateFacts.
Context {B : Build}.
Import EEPROMFacts.

(** ** The branches of [update] *)

Lemma update_same fuel E m :
  memory_crc32 m = _ENTRY_CRC32 m -> update fuel E m = Some (0, (E, m)).
Proof. intros H. unfold update. apply Z.eqb_eq in H. now rewrite H. Qed.

Lemma update_counted fuel E m :
  memory_crc32 m <> _ENTRY_CRC32 m ->
  _ENTRY_WRITE_COUNT (counted m) < EEPROM_MAX_WRITES ->
  update fuel E m =
    Some (_ENTRY_WRITE_COUNT (counted m), (update_in_place E (counted m), counted m)).
Proof.
  intros Hd Hc. unfold update.
  apply Z.eqb_neq in Hd. rewrite Hd.
  change (set_CRC32 _ _) with (counted m).
  apply Z.leb_gt in Hc. now rewrite Hc.
Qed.

Lemma update_relocated fuel E m r m' :
  memory_crc32 m <> _ENTRY_CRC32 m ->
  EEPROM_MAX_WRITES <= _ENTRY_WRITE_COUNT (counted m) ->
  locate fuel (update_in_place E (counted m)) (counted m) = Some (r, m') ->
  _ADDRESS m' < space_limit (update_in_place E (counted m)) m' ->
  update fuel E m =
    Some (1, (write (update_in_place E (counted m)) (set_WRITE_COUNT m' 1),
              set_WRITE_COUNT m' 1)).
Proof.
  intros Hd Hc Hl Hs. unfold update.
  apply Z.eqb_neq in Hd. rewrite Hd.
  change (set_CRC32 _ _) with (counted m).
  apply Z.leb_le in Hc. rewrite Hc. rewrite Hl.
  apply Z.ltb_lt in Hs. now rewrite Hs.
Qed.

Lemma update_exhausted fuel E m r m' :
  memory_crc32 m <> _ENTRY_CRC32 m ->
  EEPROM_MAX_WRITES <= _ENTRY_WRITE_COUNT (counted m) ->
  locate fuel (update_in_place E (counted m)) (counted m) = Some (r, m') ->
  space_limit (update_in_place E (counted m)) m' <= _ADDRESS m' ->
  update fuel E m = Some (NO_SPACE, (update_in_place E (counted m), m')).
Proof.
  intros Hd Hc Hl Hs. unfold update.
  apply Z.eqb_neq in Hd. rewrite Hd.
  change (set_CRC32 _ _) with (counted m).
  apply Z.leb_le in Hc. rewrite Hc. rewrite Hl.
  apply Z.ltb_ge in Hs. now rewrite Hs.
Qed.

(** ** The in-place write *)

Lemma length_update_in_place E m : EEPROM.length (update_in_place E m) = EEPROM.length E.
Proof. unfold update_in_place, EEPROM.put_uint. now rewrite !length_put. Qed.

Lemma update_in_place_WRITE_COUNT E m :
  entry_on_device E m ->
  EEPROM.get (update_in_place E m) (_ADDRESS m + off_WRITE_COUNT) 4
    = le_split 4 (_ENTRY_WRITE_COUNT m).
Proof. intros H. unfold update_in_place. now read_back. Qed.

Lemma update_in_place_DATA E m :
  entry_on_device E m ->
  EEPROM.get (update_in_place E m) (_ADDRESS m + off_DATA) (sizeof_T m) = _MEMORY m.
Proof. intros H. unfold update_in_place. now read_back. Qed.

Lemma update_in_place_CRC32 E m :
  entry_on_device E m ->
  EEPROM.get (update_in_place E m) (_ADDRESS m + off_CRC32 m) 4 = le_split 4 (_ENTRY_CRC32 m).
Proof. intros H. unfold update_in_place. now read_back. Qed.

(** Cells other than the count, the record and the payload check keep
    their value: the key, the key check and the length among them. *)
Lemma update_in_place_elsewhere E m a :
  a < _ADDRESS m + off_WRITE_COUNT \/
  (_ADDRESS m + off_LENGTH <= a < _ADDRESS m + off_DATA) \/
  _ADDRESS m + entry_size m <= a ->
  EEPROM.read (update_in_place E m) a = EEPROM.read E a.
Proof.
  intros H. unfold update_in_place, EEPROM.put_uint.
  rewrite !read_put_outside; auto; cells.
Qed.

(** ** The space test *)

Lemma wrap_le bits z : 0 <= z -> wrap bits z <= z.
Proof.
  intros H. unfold wrap.
  destruct (Z.eq_dec (2 ^ bits) 0) as [E0|Hn].
  - rewrite E0, Z.mod_0_r. lia.
  - assert (0 <= 2 ^ bits) by (apply Z.pow_nonneg; lia).
    apply Z.mod_le; lia.
Qed.

(** With no room for a whole entry at the address, the test fails, on a
    device that can hold one entry at all. *)
Lemma space_limit_no_room E m :
  entry_size m <= EEPROM.length E ->
  EEPROM.length E < _ADDRESS m + entry_size m ->
  space_limit E m <= _ADDRESS m.
Proof.
  intros H1 H2. unfold space_limit.
  pose proof (wrap_le size_t_bits (EEPROM.length E - entry_size m)). lia.
Qed.

Lemma space_limit_room E m :
  EEPROM.length E < 2 ^ size_t_bits ->
  0 <= _ADDRESS m ->
  _ADDRESS m + entry_size m < EEPROM.length E ->
  _ADDRESS m < space_limit E m.
Proof.
  intros H1 H0 H2. unfold space_limit.
  rewrite wrap_small; unfold entry_size, overhead in *; lia.
Qed.

(** ** The loop of [wipe] *)

Lemma length_wipe_loop n : forall i E,
  List.length (wipe_loop n i E) = List.length E.
Proof.
  induction n as [|n IH]; intros i E; simpl; auto.
  rewrite IH. pose proof (length_update E i xFF) as H. unfold EEPROM.length in H. lia.
Qed.

Lemma read_wipe_loop n : forall i E a,
  EEPROM.read (wipe_loop n i E) a =
  if ((i <=? a) && (a <? i + Z.of_nat n))%bool then xFF else EEPROM.read E a.
Proof.
  induction n as [|n IH]; intros i E a.
  - simpl. replace (_ && _)%bool with false; auto.
    symmetry. apply andb_false_iff. rewrite Z.leb_gt, Z.ltb_ge. lia.
  - cbn [wipe_loop]. rewrite IH.
    destruct (Z.eq_dec a i) as [->|Hne].
    + replace ((i + 1 <=? i) && _)%bool with false
        by (symmetry; apply andb_false_iff; rewrite Z.leb_gt; lia).
      replace ((i <=? i) && _)%bool with true
        by (symmetry; apply andb_true_iff; rewrite Z.leb_le, Z.ltb_lt; lia).
      destruct (Z_lt_le_dec i (EEPROM.length E)) as [Hlt|Hge].
      * destruct (Z_lt_le_dec i 0) as [Hn|Hp].
        -- rewrite read_outside; auto. rewrite length_update. lia.
        -- apply read_update_same. lia.
      * rewrite read_outside; auto. rewrite length_update. lia.
    + rewrite read_update_other by assumption.
      replace ((i + 1 <=? a) && (a <? i + 1 + Z.of_nat n))%bool
        with ((i <=? a) && (a <? i + Z.of_nat (S n)))%bool; auto.
      destruct (i <=? a) eqn:E1, (i + 1 <=? a) eqn:E2,
        (a <? i + Z.of_nat (S n)) eqn:E3, (a <? i + 1 + Z.of_nat n) eqn:E4;
        simpl; auto;
        rewrite ?Z.leb_le, ?Z.leb_gt, ?Z.ltb_lt, ?Z.ltb_ge in *; lia.
Qed.

(** The loop leaves every cell erased. *)
Lemma wipe_loop_erased E : wipe_loop (List.length E) 0 E = EEPROM.erased (List.length E).
Proof.
  apply device_ext.
  - rewrite length_wipe_loop. unfold EEPROM.erased. now rewrite repeat_length.
  - intros a Ha. rewrite read_wipe_loop.
    unfold EEPROM.length in Ha. rewrite length_wipe_loop in Ha.
    replace (_ && _)%bool with true
      by (symmetry; apply andb_true_iff; rewrite Z.leb_le, Z.ltb_lt; lia).
    unfold EEPROM.read, EEPROM.erased.
    destruct (EEPROM.in_range _ a); auto.
    symmetry. apply nth_repeat.
Qed.

Lemma read_erased n a : EEPROM.read (EEPROM.erased n) a = xFF.
Proof.
  unfold EEPROM.read, EEPROM.erased. destruct (EEPROM.in_range _ a); auto. apply nth_repeat.
Qed.


End UpdateFacts.

Section BeginFacts.
Context {B : Build}.
Import EEPROMFacts.

Lemma locate_ADDRESS_nonneg fuel : forall E m r m',
  locate fuel E m = Some (r, m') -> 0 <= _ADDRESS m -> 0 <= _ADDRESS m'.
Proof.
  induction fuel as [|fuel IH]; intros E m r m' H Hr.
  - destruct (Z_lt_le_dec (_ADDRESS m) (EEPROM.length E)) as [Hlt|Hge].
    + simpl in H. apply Z.ltb_lt in Hlt. rewrite Hlt in H. discriminate.
    + rewrite locate_end in H by assumption. now inversion H; subst.
  - destruct (Z_lt_le_dec (_ADDRESS m) (EEPROM.length E)) as [Hlt|Hge].
    + destruct (locate_cases fuel E m Hlt) as [[Hv Hl]|[(Hv & Hk & Hc & Hl)|(_ & _ & Hl)]];
        rewrite Hl in H.
      * now inversion H; subst.
      * now inversion H; subst.
      * apply IH in H; auto. simpl. apply wrap_range. lia.
    + rewrite locate_end in H by assumption. now inversion H; subst.
Qed.

(** [begin] either reads the entry found or writes at the free address. *)
Lemma begin_cases fuel E m E' m' :
  begin fuel E m = Some (E', m') ->
  exists r ml, locate fuel E (initialise m) = Some (r, ml) /\
    ((r = 0 /\ E' = write E ml /\ m' = ml) \/ (r = 1 /\ E' = E /\ m' = read E ml)).
Proof.
  unfold begin. intros H.
  destruct (locate fuel E (initialise m)) as [[r ml]|] eqn:Hl; [|discriminate].
  exists r, ml. split; auto.
  destruct (locate_result _ _ _ _ _ Hl) as [(-> & _)|(-> & _)]; simpl in H;
    inversion H; subst; auto.
Qed.

Lemma begin_key_checked fuel E m E' m' :
  begin fuel E m = Some (E', m') -> key_checked m'.
Proof.
  intros H. apply begin_cases in H as (r & ml & Hl & Hc).
  apply locate_frame in Hl.
  assert (Hk : key_checked ml) by (rewrite Hl; reflexivity).
  destruct Hc as [(_ & _ & ->)|(_ & _ & ->)]; auto.
Qed.

Lemma update_key_checked fuel E m v E' m' :
  update fuel E m = Some (v, (E', m')) -> key_checked m -> key_checked m'.
Proof.
  unfold update. intros H Hk.
  destruct (memory_crc32 m =? _ENTRY_CRC32 m); [now inversion H; subst|].
  change (set_CRC32 _ _) with (counted m) in H.
  destruct (EEPROM_MAX_WRITES <=? _ENTRY_WRITE_COUNT (counted m)).
  - destruct (locate fuel _ (counted m)) as [[r ml]|] eqn:Hl; [|discriminate].
    apply locate_frame in Hl.
    assert (Hk' : key_checked ml) by (rewrite Hl; exact Hk).
    destruct (_ADDRESS ml <? _); inversion H; subst; auto.
  - inversion H; subst. exact Hk.
Qed.

(** Every state of a manager carries the key check of its key. *)
Lemma managed_key_checked m : managed m -> key_checked m.
Proof.
  induction 1 as [fuel E MEMORY KEY E' m H | fuel E m v E' m' _ IH H
                 | E m _ IH | fuel E m E' m' _ IH H | m r _ IH Hr].
  - unfold EEPROManager_new in H. eapply begin_key_checked; eauto.
  - eapply update_key_checked; eauto.
  - exact IH.
  - unfold wipe in H. eapply begin_key_checked; eauto.
  - exact IH.
Qed.

(** The key check depends on the low sixteen bits of the key only. *)
Lemma key_crc8_wrap k : key_crc8 (k mod 2 ^ (Z.of_nat 2 * 8)) = key_crc8 k.
Proof. unfold key_crc8. now rewrite <- le_split_mod. Qed.

(** A header laid down by [write] passes the test of [locate]. *)
Lemma write_valid_header E m :
  key_checked m -> entry_on_device E m -> valid_header (write E m) (_ADDRESS m).
Proof.
  intros Hk Hd. unfold valid_header, stored_KEY, stored_CRC8, EEPROM.get_uint.
  rewrite write_KEY, write_CRC8 by assumption.
  rewrite le_combine_split, key_crc8_wrap. symmetry. exact Hk.
Qed.

Lemma write_stored_KEY E m :
  entry_on_device E m -> stored_KEY (write E m) (_ADDRESS m) = wrap 16 (_ENTRY_KEY m).
Proof.
  intros Hd. unfold stored_KEY, EEPROM.get_uint.
  rewrite write_KEY by assumption. now rewrite le_combine_split.
Qed.

Lemma write_stored_WRITE_COUNT E m :
  entry_on_device E m ->
  stored_WRITE_COUNT (write E m) (_ADDRESS m) = wrap 32 (_ENTRY_WRITE_COUNT m).
Proof.
  intros Hd. unfold stored_WRITE_COUNT, EEPROM.get_uint.
  rewrite write_WRITE_COUNT by assumption. now rewrite le_combine_split.
Qed.

Lemma write_stored_LENGTH E m :
  entry_on_device E m ->
  stored_LENGTH (write E m) (_ADDRESS m) = wrap 16 (_ENTRY_LENGTH m).
Proof.
  intros Hd. unfold stored_LENGTH, EEPROM.get_uint.
  rewrite write_LENGTH by assumption. now rewrite le_combine_split.
Qed.

Lemma write_stored_DATA E m :
  entry_on_device E m ->
  stored_DATA (write E m) (_ADDRESS m) (sizeof_T m) = _MEMORY m.
Proof. intros Hd. unfold stored_DATA. now apply write_DATA. Qed.

Lemma write_stored_CRC32 E m :
  entry_on_device E m ->
  stored_CRC32 (write E m) (_ADDRESS m) (sizeof_T m) = wrap 32 (_ENTRY_CRC32 m).
Proof.
  intros Hd. unfold stored_CRC32, EEPROM.get_uint.
  replace (_ADDRESS m + off_DATA + Z.of_nat (sizeof_T m)) with (_ADDRESS m + off_CRC32 m)
    by (unfold off_CRC32, off_DATA; lia).
  rewrite write_CRC32 by assumption. now rewrite le_combine_split.
Qed.

End BeginFacts.

Section TypingFacts.
Context {B : Build}.
Import EEPROMFacts.

(** ** The fields stay within their C types *)

Lemma get_uint32_range E idx : 0 <= EEPROM.get_uint E idx 4 < 2 ^ 32.
Proof. exact (get_uint_range E idx 4). Qed.

Lemma well_typed_initialise m :
  0 <= _ADDRESS m < 2 ^ 16 -> 0 <= _ENTRY_KEY m < 2 ^ 16 -> well_typed (initialise m).
Proof.
  intros Ha Hk. unfold well_typed, initialise, memory_crc32. fields.
  repeat split; try apply wrap_range; lia.
Qed.

Lemma well_typed_locate fuel E m r m' :
  locate fuel E m = Some (r, m') -> well_typed m -> well_typed m'.
Proof.
  intros H (Ha & Hrest).
  pose proof (locate_ADDRESS_range _ _ _ _ _ H Ha) as Ha'.
  apply locate_frame in H. rewrite H. unfold well_typed in *. fields. tauto.
Qed.

Lemma well_typed_read E m : well_typed m -> well_typed (read E m).
Proof.
  intros (Ha & Hk & _ & Hl & _). unfold well_typed, read. fields.
  pose proof (get_uint32_range E (_ADDRESS m + off_WRITE_COUNT)).
  pose proof (get_uint32_range E (_ADDRESS m + off_CRC32 m)).
  tauto.
Qed.

Lemma well_typed_begin fuel E m E' m' :
  begin fuel E m = Some (E', m') ->
  0 <= _ADDRESS m < 2 ^ 16 -> 0 <= _ENTRY_KEY m < 2 ^ 16 -> well_typed m'.
Proof.
  intros H Ha Hk. apply begin_cases in H as (r & ml & Hl & Hc).
  pose proof (well_typed_locate _ _ _ _ _ Hl (well_typed_initialise m Ha Hk)) as Hw.
  destruct Hc as [(_ & _ & ->)|(_ & _ & ->)]; auto using well_typed_read.
Qed.

Lemma well_typed_counted m : well_typed m -> well_typed (counted m).
Proof.
  intros (Ha & Hk & _ & Hl & _). unfold well_typed, counted, memory_crc32. fields.
  repeat split; try apply wrap_range; lia.
Qed.

Lemma well_typed_update fuel E m v E' m' :
  update fuel E m = Some (v, (E', m')) -> well_typed m -> well_typed m'.
Proof.
  unfold update. intros H Hw.
  destruct (memory_crc32 m =? _ENTRY_CRC32 m); [now inversion H; subst|].
  change (set_CRC32 _ _) with (counted m) in H.
  pose proof (well_typed_counted m Hw) as Hc.
  destruct (EEPROM_MAX_WRITES <=? _ENTRY_WRITE_COUNT (counted m)).
  - destruct (locate fuel _ (counted m)) as [[r ml]|] eqn:Hl; [|discriminate].
    pose proof (well_typed_locate _ _ _ _ _ Hl Hc) as Hwl.
    destruct (_ADDRESS ml <? _); inversion H; subst.
    + destruct Hwl as (Ha & Hk & _ & Hn & Hs).
      unfold well_typed. fields. repeat split; lia.
    + exact Hwl.
  - inversion H; subst. exact Hc.
Qed.

(** Every state of a manager has its fields within their C types. *)
Lemma managed_well_typed m : managed m -> well_typed m.
Proof.
  induction 1 as [fuel E MEMORY KEY E' m H | fuel E m v E' m' _ IH H
                 | E m _ IH | fuel E m E' m' _ IH H | m r _ IH Hr].
  - unfold EEPROManager_new in H. eapply well_typed_begin; eauto.
    + simpl. lia.
    + simpl. apply wrap_range. lia.
  - eapply well_typed_update; eauto.
  - exact IH.
  - unfold wipe in H. destruct IH as (Ha & Hk & _). eapply well_typed_begin; eauto.
  - exact IH.
Qed.

(** ** When the scan ends *)

(** On a device where no header that passes the key check wraps the
    address when stepped over, [locate] returns, having spent no more fuel
    than there are cells from its starting address to the end. *)
Lemma locate_returns n : forall fuel E m,
  (forall a, 0 <= a < EEPROM.length E -> valid_header E a -> no_wrap E a) ->
  0 <= _ADDRESS m ->
  EEPROM.length E - _ADDRESS m <= Z.of_nat n -> (n <= fuel)%nat ->
  exists r m', locate fuel E m = Some (r, m').
Proof.
  induction n as [|n IH]; intros fuel E m Hnw H0 Hm Hf.
  - exists 0, m. apply locate_end. lia.
  - destruct (Z_lt_le_dec (_ADDRESS m) (EEPROM.length E)) as [Hlt|Hge].
    + destruct fuel as [|fuel]; [lia|].
      destruct (locate_cases fuel E m Hlt) as [[_ Hl]|[(_ & _ & _ & Hl)|(Hv & _ & Hl)]].
      * eauto.
      * eauto.
      * rewrite Hl. apply IH; auto.
        -- fields. apply wrap_range. lia.
        -- fields. specialize (Hnw (_ADDRESS m) (conj H0 Hlt) Hv).
           unfold no_wrap in Hnw. unfold next_ADDRESS.
           pose proof (get_uint_range E (_ADDRESS m + off_LENGTH) 2) as Hr.
           unfold stored_LENGTH, overhead in *.
           rewrite wrap_small by lia. lia.
        -- lia.
    + exists 0, m. apply locate_end. lia.
Qed.

End TypingFacts.

(** * Properties of the entry manager *)

Section Claims.
Context {B : Build}.
Import EEPROMFacts.

(** ** [update] on an unchanged record *)

Lemma updates_same n : forall fuel E m,
  memory_crc32 m = _ENTRY_CRC32 m ->
  updates n fuel E m = Some (repeat 0 n, (E, m)).
Proof.
  induction n as [|n IH]; intros fuel E m H; simpl; auto.
  rewrite update_same by assumption. now rewrite IH.
Qed.

(** C6.  When the checksum of the bound record equals the shadow payload
    check, [update] returns 0 and hands back the device and the manager as
    they were: nothing is written.  Any number of calls in a row, with no
    change of the record in between, return 0 each and leave the device and
    the shadow state unchanged. *)
Theorem update_unchanged_is_idempotent (n fuel : nat) (E : EEPROM.t) (m : EEPROManager) :
  memory_crc32 m = _ENTRY_CRC32 m ->
  update fuel E m = Some (0, (E, m)) /\
  updates n fuel E m = Some (repeat 0 n, (E, m)).
Proof.
  intros H. split; [now apply update_same | now apply updates_same].
Qed.

(** ** [force] *)

(** C10.  [force] lays down the whole entry at the current address with the
    payload check held in the shadow, which it does not recompute, and
    leaves the manager (write count and payload check included) as it was.
    Hence, in any state a manager goes through, with the entry within the
    device: when the record has changed since the shadow was taken (its
    checksum differs from the shadow payload check), the payload check on
    the device after [force] is not the checksum of the payload bytes just
    written. *)
Theorem force_writes_cached_payload_check (E : EEPROM.t) (m : EEPROManager) :
  snd (force E m) = m /\
  fst (force E m) = EEPROM.put E (_ADDRESS m) (entry_bytes m) /\
  (managed m -> entry_on_device E m ->
     stored_DATA (fst (force E m)) (_ADDRESS m) (sizeof_T m) = _MEMORY m /\
     stored_CRC32 (fst (force E m)) (_ADDRESS m) (sizeof_T m) = _ENTRY_CRC32 m /\
     (memory_crc32 m <> _ENTRY_CRC32 m ->
      stored_CRC32 (fst (force E m)) (_ADDRESS m) (sizeof_T m) <>
        wrap 32 (crc32 (stored_DATA (fst (force E m)) (_ADDRESS m) (sizeof_T m))))).
Proof.
  unfold force. cbn [fst snd].
  split; [reflexivity|]. split; [apply write_entry_bytes|].
  intros Hm Hd.
  destruct (managed_well_typed m Hm) as (_ & _ & _ & _ & Hr).
  rewrite write_stored_DATA, write_stored_CRC32 by assumption.
  rewrite wrap_small by assumption.
  split; [reflexivity|]. split; [reflexivity|].
  intros Hne Heq. apply Hne. symmetry. exact Heq.
Qed.

(** ** The scan *)

(** C9.  [locate] never reports "found" at an address where the stored key
    differs from the bound key; a header there that passes the key check
    is stepped over, the scan going on at the next address. *)
Theorem locate_never_matches_other_key (fuel : nat) (E : EEPROM.t) (m : EEPROManager) :
  (forall r m', locate fuel E m = Some (r, m') ->
     stored_KEY E (_ADDRESS m') <> _ENTRY_KEY m -> r = 0) /\
  (_ADDRESS m < EEPROM.length E ->
   valid_header E (_ADDRESS m) ->
   stored_KEY E (_ADDRESS m) <> _ENTRY_KEY m ->
   locate (S fuel) E m <> Some (1, m) /\
   locate (S fuel) E m = locate fuel E (set_ADDRESS m (next_ADDRESS E (_ADDRESS m)))).
Proof.
  split.
  - intros r m' H Hk.
    destruct (locate_result _ _ _ _ _ H) as [(_ & _ & _ & Hk' & _)|(-> & _)]; auto.
    contradiction.
  - intros Hlt Hv Hk.
    assert (Hs : locate (S fuel) E m
                 = locate fuel E (set_ADDRESS m (next_ADDRESS E (_ADDRESS m))))
      by (apply locate_skip; auto).
    split; auto.
    intros Hf.
    destruct (locate_result _ _ _ _ _ Hf) as [(_ & _ & _ & Hk' & _)|(Hr & _)];
      [contradiction | discriminate].
Qed.

End Claims.

Section ScanFacts.
Context {B : Build}.
Import EEPROMFacts.

(** ** Erased cells *)

(** Three erased cells in a row fail the key check, provided the checksum
    of the byte [0xFF] is not [0xFF] itself. *)
Lemma erased_cells_free E a :
  crc8 [xFF] <> xFF ->
  EEPROM.read E a = xFF -> EEPROM.read E (a + 1) = xFF -> EEPROM.read E (a + 2) = xFF ->
  ~ valid_header E a.
Proof.
  intros Hc H0 H1 H2. unfold valid_header, stored_KEY, stored_CRC8, EEPROM.get_uint.
  cbn [EEPROM.get]. unfold off_CRC8. rewrite H0, H1, H2.
  exact Hc.
Qed.

(** ** Headers left alone by a write elsewhere *)

Lemma same_header_fields E E' a :
  same_header E E' a ->
  stored_KEY E' a = stored_KEY E a /\ stored_CRC8 E' a = stored_CRC8 E a /\
  stored_WRITE_COUNT E' a = stored_WRITE_COUNT E a /\
  stored_LENGTH E' a = stored_LENGTH E a.
Proof.
  intros H. unfold same_header, off_DATA in H.
  unfold stored_KEY, stored_CRC8, stored_WRITE_COUNT, stored_LENGTH, EEPROM.get_uint,
    off_CRC8, off_WRITE_COUNT, off_LENGTH.
  repeat split.
  - f_equal. apply get_ext. intros x Hx. apply H. simpl in Hx. lia.
  - apply H. lia.
  - f_equal. apply get_ext. intros x Hx. apply H. simpl in Hx. lia.
  - f_equal. apply get_ext. intros x Hx. apply H. simpl in Hx. lia.
Qed.

Lemma same_header_valid E E' a :
  same_header E E' a -> valid_header E a -> valid_header E' a.
Proof.
  intros H Hv. apply same_header_fields in H as (Hk & Hc & _).
  unfold valid_header. now rewrite Hk, Hc.
Qed.

(** A scan that was stopped at a free or live address stops, on a device
    that differs only away from the headers stepped over, at the same
    address when the header there is live. *)
Lemma locate_reaches fuel : forall E E' m r m',
  locate fuel E m = Some (r, m') ->
  EEPROM.length E' = EEPROM.length E ->
  Forall (same_header E E') (skipped fuel E m) ->
  _ADDRESS m' < EEPROM.length E ->
  valid_header E' (_ADDRESS m') ->
  stored_KEY E' (_ADDRESS m') = _ENTRY_KEY m ->
  stored_WRITE_COUNT E' (_ADDRESS m') < EEPROM_MAX_WRITES ->
  locate fuel E' m = Some (1, m').
Proof.
  induction fuel as [|fuel IH]; intros E E' m r m' H Hlen Hs Hlt Hv Hk Hc.
  - destruct (Z_lt_le_dec (_ADDRESS m) (EEPROM.length E)) as [Hl|Hge].
    + simpl in H. apply Z.ltb_lt in Hl. rewrite Hl in H. discriminate.
    + rewrite locate_end in H by assumption. inversion H; subst. lia.
  - destruct (Z_lt_le_dec (_ADDRESS m) (EEPROM.length E)) as [Hl|Hge].
    + destruct (locate_cases fuel E m Hl) as [[Hn Hloc]|[(Hv0 & Hk0 & Hc0 & Hloc)|(Hv0 & Hs0 & Hloc)]];
        rewrite Hloc in H.
      * inversion H; subst. apply locate_found; auto. lia.
      * inversion H; subst. apply locate_found; auto. lia.
      * assert (Hsk : skipped (S fuel) E m
                      = _ADDRESS m :: skipped fuel E (set_ADDRESS m (next_ADDRESS E (_ADDRESS m)))).
        { cbn [skipped].
          apply Z.ltb_lt in Hl. rewrite Hl.
          apply byte_eqb_true_iff in Hv0. unfold stored_KEY, stored_CRC8 in Hv0. rewrite Hv0.
          replace (_ && _)%bool with false; [reflexivity|].
          symmetry. apply andb_false_iff. unfold stored_KEY, stored_WRITE_COUNT in Hs0.
          destruct Hs0 as [Hs0|Hs0]; [left; now apply Z.eqb_neq | right; now apply Z.ltb_ge]. }
        rewrite Hsk in Hs. inversion Hs as [|? ? Hh Ht]; subst.
        pose proof (same_header_fields _ _ _ Hh) as (Ek & Ec & Ew & El).
        rewrite locate_skip.
        -- replace (next_ADDRESS E' (_ADDRESS m)) with (next_ADDRESS E (_ADDRESS m))
             by (unfold next_ADDRESS; now rewrite El).
           eapply IH; eauto.
        -- lia.
        -- eapply same_header_valid; eauto.
        -- now rewrite Ek, Ew.
    + rewrite locate_end in H by assumption. inversion H; subst. lia.
Qed.

(** In a scan that never wraps around the 16-bit address, every header
    stepped over lies wholly below the address where the scan stops. *)
Lemma skipped_below fuel : forall E m r m',
  locate fuel E m = Some (r, m') ->
  0 <= _ADDRESS m ->
  Forall (no_wrap E) (skipped fuel E m) ->
  _ADDRESS m <= _ADDRESS m' /\
  Forall (fun a => a + overhead <= _ADDRESS m') (skipped fuel E m).
Proof.
  induction fuel as [|fuel IH]; intros E m r m' H H0 Hn.
  - destruct (Z_lt_le_dec (_ADDRESS m) (EEPROM.length E)) as [Hl|Hge].
    + simpl in H. apply Z.ltb_lt in Hl. rewrite Hl in H. discriminate.
    + rewrite locate_end in H by assumption. inversion H; subst.
      split; [lia|]. simpl. apply Z.ltb_ge in Hge. rewrite Hge. constructor.
  - destruct (Z_lt_le_dec (_ADDRESS m) (EEPROM.length E)) as [Hl|Hge].
    + revert Hn. cbn [skipped]. cbn [locate] in H.
      apply Z.ltb_lt in Hl. rewrite Hl in *.
      destruct (Byte.eqb _ _).
      * destruct (_ && _)%bool.
        -- inversion H; subst. intros _. split; [lia | constructor].
        -- intros Hn. inversion Hn as [|? ? Hw Ht]; subst. unfold no_wrap in Hw.
           apply IH in H; auto.
           ++ cbn [_ADDRESS set_ADDRESS] in H. destruct H as [Hle Hf].
              rewrite wrap_small in Hle.
              ** pose proof (get_uint_range E (_ADDRESS m + off_LENGTH) 2).
                 unfold overhead in *. split; [lia|].
                 constructor; [lia | exact Hf].
              ** pose proof (get_uint_range E (_ADDRESS m + off_LENGTH) 2).
                 unfold stored_LENGTH, overhead in *. lia.
           ++ simpl. apply wrap_range. lia.
      * inversion H; subst. intros _. split; [lia | constructor].
    + rewrite locate_end in H by assumption. inversion H; subst.
      split; [lia|]. simpl. apply Z.ltb_ge in Hge. rewrite Hge. constructor.
Qed.

(** The scan looks at the address and the key of the manager only. *)
Lemma locate_other fuel : forall E m n r m',
  _ADDRESS n = _ADDRESS m -> _ENTRY_KEY n = _ENTRY_KEY m ->
  locate fuel E m = Some (r, m') ->
  locate fuel E n = Some (r, set_ADDRESS n (_ADDRESS m')) /\
  skipped fuel E n = skipped fuel E m.
Proof.
  induction fuel as [|fuel IH]; intros E m n r m' Ha Hk H.
  - simpl in *. rewrite Ha.
    destruct (_ADDRESS m <? EEPROM.length E); [discriminate|].
    inversion H; subst. split; auto. rewrite <- Ha. now destruct n.
  - cbn [locate skipped] in *. rewrite Ha, Hk.
    destruct (_ADDRESS m <? EEPROM.length E).
    + destruct (Byte.eqb _ _).
      * destruct (_ && _)%bool.
        -- inversion H; subst. split; auto. rewrite <- Ha. now destruct n.
        -- apply (IH E _ (set_ADDRESS n (wrap 16 (_ADDRESS m +
                    (EEPROM.get_uint E (_ADDRESS m + off_LENGTH) 2 + overhead))))) in H;
             [|reflexivity|exact Hk].
           destruct H as [H1 H2]. split; [exact H1 | now rewrite H2].
      * inversion H; subst. split; auto. rewrite <- Ha. now destruct n.
    + inversion H; subst. split; auto. rewrite <- Ha. now destruct n.
Qed.

Lemma wrap_wrap bits z : wrap bits (wrap bits z) = wrap bits z.
Proof.
  unfold wrap. destruct (Z.eq_dec (2 ^ bits) 0) as [E0|Hn].
  - now rewrite E0, !Z.mod_0_r.
  - now apply Z.mod_mod.
Qed.

End ScanFacts.

Section Recovery.
Context {B : Build}.
Import EEPROMFacts.

Lemma entry_on_device_write E m n :
  _ADDRESS n = _ADDRESS m -> sizeof_T n = sizeof_T m ->
  entry_on_device (write E m) n -> entry_on_device E n.
Proof.
  unfold entry_on_device. rewrite length_write. auto.
Qed.

(** What [read] takes from the manager: address, record size, key, key
    check and length. *)
Lemma read_other E m n :
  _ADDRESS n = _ADDRESS m -> sizeof_T n = sizeof_T m ->
  _ENTRY_KEY n = _ENTRY_KEY m -> _ENTRY_CRC8 n = _ENTRY_CRC8 m ->
  _ENTRY_LENGTH n = _ENTRY_LENGTH m ->
  read E n = read E m.
Proof.
  intros Ha Hs Hk Hc Hl. unfold read, off_CRC32. now rewrite Ha, Hs, Hk, Hc, Hl.
Qed.

(** Reading back an entry just written gives the manager that wrote it. *)
Lemma read_write E m :
  entry_on_device E m ->
  0 <= _ENTRY_WRITE_COUNT m < 2 ^ 32 -> 0 <= _ENTRY_CRC32 m < 2 ^ 32 ->
  read (write E m) m = m.
Proof.
  intros Hd Hc Hr. unfold read.
  pose proof (write_stored_DATA E m Hd) as H1.
  pose proof (write_stored_WRITE_COUNT E m Hd) as H2.
  pose proof (write_stored_CRC32 E m Hd) as H3.
  unfold stored_DATA, stored_WRITE_COUNT, stored_CRC32 in *.
  replace (_ADDRESS m + off_DATA + Z.of_nat (sizeof_T m)) with (_ADDRESS m + off_CRC32 m) in H3
    by (unfold off_CRC32, off_DATA; lia).
  rewrite H1, H2, H3, !wrap_small by assumption.
  now destruct m.
Qed.

(** C2.  Once a manager bound to key [K] has been constructed over a
    device, leaving its entry within the device, a fresh manager bound to
    [K] over the same device, whatever its record [r2] of the same size
    holds at that time, finds that entry and ends in the very state of the
    first one: the same address, and as record the payload bytes stored on
    the device; those are the bytes [r1] of the first record when the first
    manager wrote the entry.  The device is not changed by the second
    construction.  The scan of the first construction is taken not to wrap
    around the 16-bit address, and a count of 1 to be below the limit. *)
Theorem fresh_manager_recovers_entry
    (fuel : nat) (E : EEPROM.t) (K : Z) (r1 r2 : list byte)
    (E1 : EEPROM.t) (m1 : EEPROManager) :
  EEPROManager_new fuel E r1 K = Some (E1, m1) ->
  List.length r2 = List.length r1 ->
  entry_on_device E1 m1 ->
  1 < EEPROM_MAX_WRITES ->
  Forall (no_wrap E) (skipped fuel E (initialise (unconstructed r1 K))) ->
  EEPROManager_new fuel E1 r2 K = Some (E1, m1) /\
  stored_DATA E1 (_ADDRESS m1) (List.length r1) = _MEMORY m1 /\
  (E1 = E \/ _MEMORY m1 = r1).
Proof.
  intros Hnew Hlen Hd Hmax Hnw.
  unfold EEPROManager_new in *.
  apply begin_cases in Hnew as (r & ml & Hl & Hc).
  pose proof (locate_frame _ _ _ _ _ Hl) as Hfr.
  set (n := initialise (unconstructed r2 K)).
  assert (Hn : locate fuel E n = Some (r, set_ADDRESS n (_ADDRESS ml)) /\
               skipped fuel E n = skipped fuel E (initialise (unconstructed r1 K))).
  { apply locate_other; auto. }
  destruct Hn as [Hn Hsk].
  assert (Hsz : sizeof_T (set_ADDRESS n (_ADDRESS ml)) = sizeof_T ml).
  { rewrite Hfr. unfold sizeof_T. simpl. exact Hlen. }
  assert (Hlenf : _ENTRY_LENGTH (set_ADDRESS n (_ADDRESS ml)) = _ENTRY_LENGTH ml).
  { rewrite Hfr. unfold n, initialise, sizeof_T. simpl. now rewrite Hlen. }
  assert (Hrd : forall D, read D (set_ADDRESS n (_ADDRESS ml)) = read D ml).
  { intros D. apply read_other; auto; rewrite Hfr; reflexivity. }
  destruct Hc as [(-> & -> & ->)|(-> & -> & ->)].
  - (* the first manager wrote its entry *)
    assert (Hd0 : entry_on_device E ml) by (eapply entry_on_device_write; eauto).
    assert (Hcnt : _ENTRY_WRITE_COUNT ml = 1) by (rewrite Hfr; reflexivity).
    assert (Hmem : _MEMORY ml = r1) by (rewrite Hfr; reflexivity).
    assert (Hkey : key_checked ml) by (rewrite Hfr; reflexivity).
    assert (Hreach : locate fuel (write E ml) n = Some (1, set_ADDRESS n (_ADDRESS ml))).
    { eapply locate_reaches; eauto.
      - apply length_write.
      - rewrite Hsk.
        destruct (skipped_below _ _ _ _ _ Hl) as [_ Hb]; [simpl; lia|exact Hnw|].
        eapply Forall_impl; [|exact Hb].
        intros a Ha x Hx. apply read_write_outside.
        unfold overhead, off_DATA in *. lia.
      - simpl. unfold entry_on_device, entry_size, overhead in Hd0. lia.
      - simpl. now apply write_valid_header.
      - simpl. rewrite write_stored_KEY by assumption.
        rewrite Hfr. simpl. apply wrap_wrap.
      - simpl. rewrite write_stored_WRITE_COUNT by assumption.
        rewrite Hcnt. now rewrite wrap_small by lia. }
    split; [|split].
    + unfold begin. fold n. rewrite Hreach. simpl.
      rewrite Hrd. rewrite read_write; auto.
      * rewrite Hcnt. lia.
      * rewrite Hfr. simpl. apply wrap_range. lia.
    + rewrite <- Hmem at 1. now apply write_stored_DATA.
    + now right.
  - (* the first manager found an entry and read it *)
    split; [|split].
    + unfold begin. fold n. rewrite Hn. simpl. now rewrite Hrd.
    + unfold read, stored_DATA. simpl. rewrite Hfr. reflexivity.
    + now left.
Qed.

End Recovery.

Section Relocation.
Context {B : Build}.
Import EEPROMFacts.

(** The in-place write keeps the key, the key check and the length of the
    entry it updates. *)
Lemma update_in_place_header E m :
  stored_KEY (update_in_place E m) (_ADDRESS m) = stored_KEY E (_ADDRESS m) /\
  stored_CRC8 (update_in_place E m) (_ADDRESS m) = stored_CRC8 E (_ADDRESS m) /\
  stored_LENGTH (update_in_place E m) (_ADDRESS m) = stored_LENGTH E (_ADDRESS m).
Proof.
  unfold stored_KEY, stored_CRC8, stored_LENGTH, EEPROM.get_uint.
  repeat split.
  - f_equal. apply get_ext. intros x Hx. apply update_in_place_elsewhere.
    unfold off_WRITE_COUNT. simpl in Hx. lia.
  - apply update_in_place_elsewhere. unfold off_WRITE_COUNT, off_CRC8. lia.
  - f_equal. apply get_ext. intros x Hx. apply update_in_place_elsewhere.
    unfold off_LENGTH, off_DATA in *. simpl in Hx. lia.
Qed.

Lemma update_in_place_stored_WRITE_COUNT E m :
  entry_on_device E m ->
  stored_WRITE_COUNT (update_in_place E m) (_ADDRESS m) = wrap 32 (_ENTRY_WRITE_COUNT m).
Proof.
  intros Hd. unfold stored_WRITE_COUNT, EEPROM.get_uint.
  rewrite update_in_place_WRITE_COUNT by assumption. now rewrite le_combine_split.
Qed.

Lemma update_in_place_stored_DATA E m :
  entry_on_device E m ->
  stored_DATA (update_in_place E m) (_ADDRESS m) (sizeof_T m) = _MEMORY m.
Proof. intros Hd. unfold stored_DATA. now apply update_in_place_DATA. Qed.

Lemma update_in_place_stored_CRC32 E m :
  entry_on_device E m ->
  stored_CRC32 (update_in_place E m) (_ADDRESS m) (sizeof_T m) = wrap 32 (_ENTRY_CRC32 m).
Proof.
  intros Hd. unfold stored_CRC32, EEPROM.get_uint.
  replace (_ADDRESS m + off_DATA + Z.of_nat (sizeof_T m)) with (_ADDRESS m + off_CRC32 m)
    by (unfold off_CRC32, off_DATA; lia).
  rewrite update_in_place_CRC32 by assumption. now rewrite le_combine_split.
Qed.

Lemma length_erased n : EEPROM.length (EEPROM.erased n) = Z.of_nat n.
Proof. unfold EEPROM.length, EEPROM.erased. now rewrite repeat_length. Qed.

(** The first [update] after a change, with a limit of two writes, on a
    device that was erased when the manager was constructed: the entry
    moves to the address right after the old one. *)
Lemma relocation_on_erased_device
    (fuel cap : nat) (r r' : list byte) (KEY : Z) :
  crc8 [xFF] <> xFF ->
  EEPROM_MAX_WRITES = 2 ->
  List.length r' = List.length r ->
  2 * (overhead + Z.of_nat (List.length r)) < Z.of_nat cap ->
  Z.of_nat cap < 2 ^ 16 -> Z.of_nat cap < 2 ^ size_t_bits ->
  wrap 32 (crc32 r') <> wrap 32 (crc32 r) ->
  exists E1 m1 E2 m2,
    EEPROManager_new (S fuel) (EEPROM.erased cap) r KEY = Some (E1, m1) /\
    _ADDRESS m1 = 0 /\ _ENTRY_WRITE_COUNT m1 = 1 /\
    update (S (S fuel)) E1 (set_MEMORY m1 r') = Some (1, (E2, m2)) /\
    _ADDRESS m2 = overhead + Z.of_nat (List.length r) /\
    _ENTRY_WRITE_COUNT m2 = 1 /\ _MEMORY m2 = r' /\
    EEPROM.get E2 (_ADDRESS m2) (List.length (entry_bytes m2)) = entry_bytes m2 /\
    stored_WRITE_COUNT E2 0 = 2.
Proof.
  intros Hff Hmax Hlen Hcap H16 Hsz Hne.
  set (E0 := EEPROM.erased cap).
  set (m0 := initialise (unconstructed r KEY)).
  set (s := Z.of_nat (List.length r)) in *.
  assert (Hs0 : 0 <= s) by (unfold s; lia).
  assert (Hfree : forall (D : EEPROM.t) a,
             (forall x, a <= x -> EEPROM.read D x = xFF) -> ~ valid_header D a).
  { intros D a H. apply erased_cells_free; auto; apply H; lia. }
  (* construction *)
  assert (Hloc0 : locate (S fuel) E0 m0 = Some (0, m0)).
  { apply locate_free.
    - unfold E0. rewrite length_erased. change (_ADDRESS m0) with 0.
      unfold overhead in Hcap. lia.
    - apply Hfree. intros x _. apply read_erased. }
  assert (Hd0 : entry_on_device E0 m0).
  { unfold entry_on_device, entry_size, E0. rewrite length_erased.
    change (_ADDRESS m0) with 0. change (Z.of_nat (sizeof_T m0)) with s.
    unfold overhead in *. lia. }
  set (E1 := write E0 m0).
  assert (HlenE1 : EEPROM.length E1 = Z.of_nat cap).
  { unfold E1. rewrite length_write. apply length_erased. }
  (* the changed record *)
  set (ma := set_MEMORY m0 r').
  set (mc := counted ma).
  assert (Hchg : memory_crc32 ma <> _ENTRY_CRC32 ma) by exact Hne.
  assert (Hcnt : _ENTRY_WRITE_COUNT mc = 2) by reflexivity.
  assert (Hd1 : entry_on_device E1 mc).
  { unfold entry_on_device, entry_size. rewrite HlenE1.
    change (_ADDRESS mc) with 0. change (sizeof_T mc) with (List.length r').
    rewrite Hlen. fold s. unfold overhead in *. lia. }
  set (E1' := update_in_place E1 mc).
  assert (HlenE1' : EEPROM.length E1' = Z.of_nat cap).
  { unfold E1'. now rewrite length_update_in_place. }
  assert (Hes : entry_size mc = overhead + s).
  { unfold entry_size. change (sizeof_T mc) with (List.length r'). now rewrite Hlen. }
  (* the scan from the old address *)
  destruct (update_in_place_header E1 mc) as (Hk & Hc & Hl).
  change (_ADDRESS mc) with 0 in Hk, Hc, Hl. fold E1' in Hk, Hc, Hl.
  assert (Hv : valid_header E1' 0).
  { unfold valid_header. rewrite Hk, Hc.
    apply (write_valid_header E0 m0); [reflexivity | exact Hd0]. }
  assert (Hw : stored_WRITE_COUNT E1' 0 = 2).
  { pose proof (update_in_place_stored_WRITE_COUNT E1 mc Hd1) as H.
    rewrite Hcnt in H. exact H. }
  assert (Hnext : next_ADDRESS E1' 0 = overhead + s).
  { unfold next_ADDRESS. rewrite Hl.
    pose proof (write_stored_LENGTH E0 m0 Hd0) as H.
    change (_ADDRESS m0) with 0 in H. fold E1 in H. rewrite H.
    change (_ENTRY_LENGTH m0) with (wrap 16 s).
    rewrite wrap_wrap.
    rewrite (wrap_small 16 s) by (unfold overhead in *; lia).
    rewrite wrap_small by (unfold overhead in *; lia). lia. }
  set (m' := set_ADDRESS mc (overhead + s)).
  assert (Hloc1 : locate (S (S fuel)) E1' mc = Some (0, m')).
  { rewrite locate_skip; [| change (_ADDRESS mc) with 0; rewrite ?HlenE1'; auto ..].
    - change (_ADDRESS mc) with 0. rewrite Hnext. fold m'.
      apply locate_free.
      + rewrite HlenE1'. change (_ADDRESS m') with (overhead + s).
        unfold overhead in *. lia.
      + apply Hfree. intros x Hx. change (_ADDRESS m') with (overhead + s) in Hx.
        unfold E1'. rewrite update_in_place_elsewhere
          by (right; right; change (_ADDRESS mc) with 0; rewrite Hes; lia).
        unfold E1. rewrite read_write_outside.
        * apply read_erased.
        * right. change (_ADDRESS m0) with 0.
          unfold entry_size. change (Z.of_nat (sizeof_T m0)) with s. lia.
    - unfold overhead in *. lia.
    - right. rewrite Hw, Hmax. lia. }
  assert (Hes' : entry_size m' = overhead + s) by exact Hes.
  assert (Hroom : _ADDRESS m' < space_limit E1' m').
  { apply space_limit_room.
    - now rewrite HlenE1'.
    - change (_ADDRESS m') with (overhead + s). unfold overhead. lia.
    - rewrite HlenE1', Hes'. change (_ADDRESS m') with (overhead + s). lia. }
  set (m3 := set_WRITE_COUNT m' 1).
  assert (Hd3 : entry_on_device E1' m3).
  { unfold entry_on_device. rewrite HlenE1'.
    change (entry_size m3) with (entry_size m'). rewrite Hes'.
    change (_ADDRESS m3) with (overhead + s). unfold overhead in *. lia. }
  exists E1, m0, (write E1' m3), m3.
  split; [|split; [|split; [|split; [|split; [|split; [|split; [|split]]]]]]].
  - unfold EEPROManager_new, begin. fold m0. now rewrite Hloc0.
  - reflexivity.
  - reflexivity.
  - fold ma.
    rewrite (update_relocated _ _ _ 0 m'); auto.
    fold mc. rewrite Hcnt, Hmax. lia.
  - reflexivity.
  - reflexivity.
  - reflexivity.
  - now apply get_write.
  - unfold stored_WRITE_COUNT, EEPROM.get_uint.
    rewrite get_write_outside.
    + exact Hw.
    + left. change (_ADDRESS m3) with (overhead + s).
      unfold off_WRITE_COUNT, overhead. lia.
Qed.

(** C8.  A turn of the loop of [locate] at a header that passes the key
    check, and whose key is not the bound key or whose write count has
    reached the limit, moves the address on by the header overhead of 13
    bytes (key 2, key check 1, write count 4, length 2, payload check 4)
    plus the length stored in that header, in the 16-bit arithmetic of
    [_ADDRESS]: exactly that much whenever the sum is below 65536.  On a
    64-byte erased device with a 4-byte record and a limit of two writes,
    the entry is written at address 0 on construction, and the [update]
    that relocates it writes the new entry at address 17. *)
Theorem locate_advances_by_overhead_plus_length
    (fuel : nat) (E : EEPROM.t) (m : EEPROManager) (r r' : list byte) (KEY : Z) :
  overhead = 13 /\
  (_ADDRESS m < EEPROM.length E ->
   valid_header E (_ADDRESS m) ->
   stored_KEY E (_ADDRESS m) <> _ENTRY_KEY m \/
     EEPROM_MAX_WRITES <= stored_WRITE_COUNT E (_ADDRESS m) ->
   locate (S fuel) E m =
     locate fuel E
       (set_ADDRESS m (wrap 16 (_ADDRESS m + (stored_LENGTH E (_ADDRESS m) + 13)))) /\
   (0 <= _ADDRESS m ->
    _ADDRESS m + (stored_LENGTH E (_ADDRESS m) + 13) < 2 ^ 16 ->
    wrap 16 (_ADDRESS m + (stored_LENGTH E (_ADDRESS m) + 13))
      = _ADDRESS m + 13 + stored_LENGTH E (_ADDRESS m))) /\
  (crc8 [xFF] <> xFF ->
   EEPROM_MAX_WRITES = 2 ->
   List.length r = 4%nat -> List.length r' = 4%nat ->
   16 <= size_t_bits ->
   wrap 32 (crc32 r') <> wrap 32 (crc32 r) ->
   exists E1 m1 E2 m2,
     EEPROManager_new (S fuel) (EEPROM.erased 64) r KEY = Some (E1, m1) /\
     _ADDRESS m1 = 0 /\ _ENTRY_WRITE_COUNT m1 = 1 /\
     update (S (S fuel)) E1 (set_MEMORY m1 r') = Some (1, (E2, m2)) /\
     _ADDRESS m2 = 17 /\ _ENTRY_WRITE_COUNT m2 = 1 /\
     EEPROM.get E2 17 17 = entry_bytes m2).
Proof.
  split; [reflexivity|]. split.
  - intros Hlt Hv Hs. split.
    + now apply locate_skip.
    + intros H0 Hw.
      pose proof (get_uint_range E (_ADDRESS m + off_LENGTH) 2) as Hr.
      unfold stored_LENGTH in *. rewrite wrap_small; lia.
  - intros Hff Hmax Hr Hr' Hbits Hne.
    destruct (relocation_on_erased_device fuel 64 r r' KEY)
      as (E1 & m1 & E2 & m2 & H1 & H2 & H3 & H4 & H5 & H6 & H7 & H8 & H9); auto.
    + congruence.
    + rewrite Hr. unfold overhead. simpl. lia.
    + simpl. lia.
    + apply Z.lt_le_trans with (2 ^ 16); [simpl; lia|].
      apply Z.pow_le_mono_r; lia.
    + exists E1, m1, E2, m2.
      rewrite Hr in H5. change (overhead + Z.of_nat 4) with 17 in H5.
      repeat split; auto.
      rewrite <- H8. rewrite H5. f_equal.
      pose proof (length_entry_bytes m2) as Hl.
      unfold entry_size, sizeof_T, overhead in Hl. rewrite H7, Hr' in Hl.
      lia.
Qed.

End Relocation.

Section Exhaustion.
Context {B : Build}.
Import EEPROMFacts.

Lemma entry_on_device_counted E m : entry_on_device E m -> entry_on_device E (counted m).
Proof. auto. Qed.

Lemma locate_entry_size fuel E m r m' :
  locate fuel E m = Some (r, m') -> entry_size m' = entry_size m.
Proof. intros H. apply locate_frame in H. now rewrite H. Qed.

(** C7.  When the count incremented by [update] reaches
    [EEPROM_MAX_WRITES] and the scan for a new place ends at an address
    that leaves no room for a whole entry within the device, [update]
    returns [0xFFFFFFFF], and the write count stored at the old address is
    [EEPROM_MAX_WRITES].  The old entry lies within the device. *)
Theorem update_without_room_returns_sentinel
    (fuel : nat) (E : EEPROM.t) (m : EEPROManager) (r : Z) (m' : EEPROManager) :
  memory_crc32 m <> _ENTRY_CRC32 m ->
  entry_on_device E m ->
  wrap 32 (_ENTRY_WRITE_COUNT m + 1) = EEPROM_MAX_WRITES ->
  locate fuel (update_in_place E (counted m)) (counted m) = Some (r, m') ->
  EEPROM.length E < _ADDRESS m' + entry_size m' ->
  exists E',
    update fuel E m = Some (0xFFFFFFFF, (E', m')) /\
    stored_WRITE_COUNT E' (_ADDRESS m) = EEPROM_MAX_WRITES.
Proof.
  intros Hchg Hd Hmax Hloc Hroom.
  exists (update_in_place E (counted m)). split.
  - apply (update_exhausted fuel E m r m'); auto.
    + fields. lia.
    + apply space_limit_no_room.
      * rewrite length_update_in_place.
        rewrite (locate_entry_size _ _ _ _ _ Hloc).
        unfold entry_on_device in Hd. change (entry_size (counted m)) with (entry_size m). lia.
      * now rewrite length_update_in_place.
  - pose proof (update_in_place_stored_WRITE_COUNT E (counted m)
                  (entry_on_device_counted E m Hd)) as H.
    change (_ADDRESS (counted m)) with (_ADDRESS m) in H.
    rewrite H. fields. rewrite wrap_wrap. exact Hmax.
Qed.

(** C3, as the code has it.  When [update] tries to relocate and no room
    is left, the old entry has already been rewritten in place: on return
    the device holds, at the old address, the incremented write count, the
    current bytes of the record and their checksum.  The attempt to
    relocate writes nothing more: the key, the key check and the length of
    the old entry, and every cell outside the old entry, are as before the
    call. *)
Theorem failed_relocation_leaves_in_place_update
    (fuel : nat) (E : EEPROM.t) (m : EEPROManager) (r : Z) (m' : EEPROManager) :
  memory_crc32 m <> _ENTRY_CRC32 m ->
  entry_on_device E m ->
  EEPROM_MAX_WRITES <= wrap 32 (_ENTRY_WRITE_COUNT m + 1) ->
  locate fuel (update_in_place E (counted m)) (counted m) = Some (r, m') ->
  EEPROM.length E < _ADDRESS m' + entry_size m' ->
  exists E',
    update fuel E m = Some (0xFFFFFFFF, (E', m')) /\
    E' = update_in_place E (counted m) /\
    stored_KEY E' (_ADDRESS m) = stored_KEY E (_ADDRESS m) /\
    stored_CRC8 E' (_ADDRESS m) = stored_CRC8 E (_ADDRESS m) /\
    stored_LENGTH E' (_ADDRESS m) = stored_LENGTH E (_ADDRESS m) /\
    (forall a, a < _ADDRESS m \/ _ADDRESS m + entry_size m <= a ->
               EEPROM.read E' a = EEPROM.read E a) /\
    stored_WRITE_COUNT E' (_ADDRESS m) = wrap 32 (_ENTRY_WRITE_COUNT m + 1) /\
    stored_DATA E' (_ADDRESS m) (sizeof_T m) = _MEMORY m /\
    stored_CRC32 E' (_ADDRESS m) (sizeof_T m) = memory_crc32 m.
Proof.
  intros Hchg Hd Hmax Hloc Hroom.
  exists (update_in_place E (counted m)).
  pose proof (entry_on_device_counted E m Hd) as Hdc.
  destruct (update_in_place_header E (counted m)) as (Hk & Hc & Hl).
  split; [|split; [reflexivity|split; [exact Hk|split; [exact Hc|split; [exact Hl|]]]]].
  - apply (update_exhausted fuel E m r m'); auto.
    apply space_limit_no_room.
    + rewrite length_update_in_place.
      rewrite (locate_entry_size _ _ _ _ _ Hloc).
      unfold entry_on_device in Hd. change (entry_size (counted m)) with (entry_size m). lia.
    + now rewrite length_update_in_place.
  - split; [|split; [|split]].
    + intros a Ha. apply update_in_place_elsewhere.
      change (_ADDRESS (counted m)) with (_ADDRESS m).
      change (entry_size (counted m)) with (entry_size m).
      unfold off_WRITE_COUNT. lia.
    + pose proof (update_in_place_stored_WRITE_COUNT E (counted m) Hdc) as H.
      change (_ADDRESS (counted m)) with (_ADDRESS m) in H.
      rewrite H. fields. apply wrap_wrap.
    + apply (update_in_place_stored_DATA E (counted m) Hdc).
    + pose proof (update_in_place_stored_CRC32 E (counted m) Hdc) as H.
      change (_ADDRESS (counted m)) with (_ADDRESS m) in H.
      change (sizeof_T (counted m)) with (sizeof_T m) in H.
      rewrite H. fields. unfold memory_crc32. apply wrap_wrap.
Qed.

(** C1, as the code has it.  A call of [update] after the record has
    changed (its checksum differs from the shadow payload check), on an
    entry that lies within the device and whose stored write count is the
    shadow one: while the incremented count stays below
    [EEPROM_MAX_WRITES], the stored count goes up by exactly 1 and [update]
    returns it; when the incremented count reaches the limit and the scan
    for a new place ends at an address with more than a whole entry of
    cells before the end of the device, the entry is written there with a
    write count of 1, the manager moves to that address, and [update]
    returns 1. *)
Theorem update_counts_then_relocates
    (fuel : nat) (E : EEPROM.t) (m : EEPROManager) :
  memory_crc32 m <> _ENTRY_CRC32 m ->
  entry_on_device E m ->
  stored_WRITE_COUNT E (_ADDRESS m) = _ENTRY_WRITE_COUNT m ->
  (_ENTRY_WRITE_COUNT m + 1 < EEPROM_MAX_WRITES -> EEPROM_MAX_WRITES <= 2 ^ 32 ->
   exists E' m',
     update fuel E m = Some (_ENTRY_WRITE_COUNT m + 1, (E', m')) /\
     _ADDRESS m' = _ADDRESS m /\
     _ENTRY_WRITE_COUNT m' = _ENTRY_WRITE_COUNT m + 1 /\
     stored_WRITE_COUNT E' (_ADDRESS m) = stored_WRITE_COUNT E (_ADDRESS m) + 1) /\
  (EEPROM_MAX_WRITES <= wrap 32 (_ENTRY_WRITE_COUNT m + 1) ->
   forall r ml,
     locate fuel (update_in_place E (counted m)) (counted m) = Some (r, ml) ->
     _ADDRESS ml + entry_size ml < EEPROM.length E ->
     EEPROM.length E < 2 ^ size_t_bits ->
     exists E' m',
       update fuel E m = Some (1, (E', m')) /\
       _ADDRESS m' = _ADDRESS ml /\
       _ENTRY_WRITE_COUNT m' = 1 /\
       stored_WRITE_COUNT E' (_ADDRESS m') = 1 /\
       stored_DATA E' (_ADDRESS m') (sizeof_T m) = _MEMORY m).
Proof.
  intros Hchg Hd Hsync.
  pose proof (entry_on_device_counted E m Hd) as Hdc.
  split.
  - intros Hlt Hmax.
    assert (Hc0 : 0 <= _ENTRY_WRITE_COUNT m).
    { rewrite <- Hsync. apply get_uint_range. }
    assert (Hw : wrap 32 (_ENTRY_WRITE_COUNT m + 1) = _ENTRY_WRITE_COUNT m + 1)
      by (apply wrap_small; lia).
    exists (update_in_place E (counted m)), (counted m).
    split; [|split; [reflexivity|split]].
    + rewrite update_counted; auto.
      * fields. now rewrite Hw.
      * fields. rewrite Hw. lia.
    + fields. exact Hw.
    + pose proof (update_in_place_stored_WRITE_COUNT E (counted m) Hdc) as H.
      change (_ADDRESS (counted m)) with (_ADDRESS m) in H.
      rewrite H, Hsync. fields. rewrite wrap_wrap. exact Hw.
  - intros Hmax r ml Hloc Hroom Hsz.
    pose proof (locate_frame _ _ _ _ _ Hloc) as Hfr.
    assert (H0 : 0 <= _ADDRESS ml).
    { eapply locate_ADDRESS_nonneg; eauto. fields. apply Hd. }
    set (m3 := set_WRITE_COUNT ml 1).
    assert (Hd3 : entry_on_device (update_in_place E (counted m)) m3).
    { unfold entry_on_device. rewrite length_update_in_place.
      change (_ADDRESS m3) with (_ADDRESS ml).
      change (entry_size m3) with (entry_size ml). lia. }
    exists (write (update_in_place E (counted m)) m3), m3.
    split; [|split; [reflexivity|split; [reflexivity|split]]].
    + apply (update_relocated fuel E m r ml); auto.
      apply space_limit_room; rewrite ?length_update_in_place; auto.
    + rewrite write_stored_WRITE_COUNT by assumption.
      change (_ENTRY_WRITE_COUNT m3) with 1. now apply wrap_small.
    + pose proof (write_stored_DATA _ m3 Hd3) as H.
      assert (Hm : _MEMORY m3 = _MEMORY m) by (unfold m3; rewrite Hfr; reflexivity).
      unfold sizeof_T in *. rewrite Hm in H. exact H.
Qed.

End Exhaustion.

Section Wipe.
Context {B : Build}.
Import EEPROMFacts.

(** What [wipe] does: every cell is erased, then the entry of the current
    record is written at the address the manager is at. *)
Lemma wipe_writes_at_current_address (fuel : nat) (E : EEPROM.t) (m : EEPROManager) :
  crc8 [xFF] <> xFF ->
  wipe (S fuel) E m
    = Some (write (EEPROM.erased (List.length E)) (initialise m), initialise m).
Proof.
  intros Hff. unfold wipe, begin. rewrite wipe_loop_erased.
  destruct (Z_lt_le_dec (_ADDRESS (initialise m))
              (EEPROM.length (EEPROM.erased (List.length E)))) as [Hlt|Hge].
  - rewrite locate_free; auto.
    apply erased_cells_free; auto; apply read_erased.
  - rewrite locate_end; auto.
Qed.

Lemma wipe_leaves_rest_erased (fuel : nat) (E : EEPROM.t) (m : EEPROManager) :
  crc8 [xFF] <> xFF ->
  exists E' m',
    wipe (S fuel) E m = Some (E', m') /\
    _ADDRESS m' = _ADDRESS m /\
    EEPROM.length E' = EEPROM.length E /\
    (forall a, a < _ADDRESS m \/ _ADDRESS m + entry_size m <= a ->
               EEPROM.read E' a = xFF) /\
    (entry_on_device E m ->
     EEPROM.get E' (_ADDRESS m) (List.length (entry_bytes m')) = entry_bytes m').
Proof.
  intros Hff.
  exists (write (EEPROM.erased (List.length E)) (initialise m)), (initialise m).
  split; [now apply wipe_writes_at_current_address|].
  split; [reflexivity|]. split; [|split].
  - rewrite length_write. apply length_erased.
  - intros a Ha. rewrite read_write_outside by exact Ha. apply read_erased.
  - intros Hd. apply (get_write _ (initialise m)).
    unfold entry_on_device in *. rewrite length_erased. exact Hd.
Qed.

End Wipe.

(** * The properties on concrete runs *)

Import Scenario.

(** Decide a closed statement on integers and bytes by evaluation. *)
Ltac evaluate :=
  vm_compute; repeat split; try reflexivity; try (intro; discriminate).

(** C4.  After [wipe], the cells are erased except for one freshly written
    entry; the entry is at address 0 when the manager is there, but [wipe]
    does not bring [_ADDRESS] back to 0.  For the manager that has moved its
    entry to address 17 of a 64-cell device: [wipe] leaves the first 17 cells
    erased and writes the entry at address 17; a manager constructed next
    over that device stops at the erased address 0 and writes its own record
    there, so what [wipe] wrote is not found again. *)
Theorem wipe_after_relocation_writes_at_17 :
  _ADDRESS (snd relocated64) = 17 /\
  @wipe two_writes 4 (fst relocated64) (snd relocated64) = Some wiped64 /\
  _ADDRESS (snd wiped64) = 17 /\
  EEPROM.get (fst wiped64) 0 17 = repeat xFF 17 /\
  EEPROM.get (fst wiped64) 17 17 = @entry_bytes (snd wiped64) /\
  EEPROM.get (fst wiped64) 34 30 = repeat xFF 30 /\
  _MEMORY (snd wiped64) = record_b /\
  exists E m,
    @EEPROManager_new two_writes 4 (fst wiped64) record_a 1 = Some (E, m) /\
    _ADDRESS m = 0 /\ _MEMORY m = record_a.
Proof.
  repeat (split; [vm_compute; reflexivity|]).
  eexists. eexists. split; [vm_compute; reflexivity|].
  split; reflexivity.
Qed.

(** C5.  The key check in a header the manager writes is the checksum of
    the low byte of the key ([initialise] and [locate] pass a length of one
    byte to [crc8]), not the checksum of the stored 16-bit key.  For key 1
    on an erased 64-cell device the header holds the key bytes 01 00 and the
    check 07, the checksum of the byte 01 alone; the checksum of the two
    key bytes is 15.  So [locate] trusts a header whose check does not match
    the checksum of the key read there; and with the high key byte changed
    to 01 the header still passes: a manager of key 257 takes the entry of
    key 1 for its own and adopts its record. *)
Theorem key_check_covers_low_key_byte_only :
  EEPROM.get (fst fresh64) 0 3 = [Byte.x01; Byte.x00; Byte.x07] /\
  stored_KEY (fst fresh64) 0 = 1 /\
  stored_CRC8 (fst fresh64) 0 = crc8 (Build := two_writes) [Byte.x01] /\
  crc8 (Build := two_writes) (le_split 2 (stored_KEY (fst fresh64) 0)) = Byte.x15 /\
  stored_CRC8 (fst fresh64) 0
    <> crc8 (Build := two_writes) (le_split 2 (stored_KEY (fst fresh64) 0)) /\
  locate (B := two_writes) 4 (fst fresh64) newcomer = Some (1, newcomer) /\
  stored_KEY altered64 0 = 257 /\
  stored_CRC8 altered64 0
    <> crc8 (Build := two_writes) (le_split 2 (stored_KEY altered64 0)) /\
  exists m,
    EEPROManager_new (B := two_writes) 4 altered64 record_b 257 = Some (altered64, m) /\
    _ADDRESS m = 0 /\ _ENTRY_KEY m = 257 /\ _MEMORY m = record_a.
Proof.
  repeat (split; [vm_compute; try reflexivity; intro; discriminate|]).
  eexists. split; [vm_compute; reflexivity|].
  repeat split.
Qed.

(** ** Instances *)

Lemma update_unchanged_is_idempotent_on_fresh64 :
  @memory_crc32 two_writes (snd fresh64) = _ENTRY_CRC32 (snd fresh64) /\
  @update two_writes 4 (fst fresh64) (snd fresh64) = Some (0, (fst fresh64, snd fresh64)) /\
  @updates two_writes 3 4 (fst fresh64) (snd fresh64)
    = Some ([0; 0; 0], (fst fresh64, snd fresh64)).
Proof.
  split; [evaluate|].
  apply (@update_unchanged_is_idempotent two_writes 3 4 (fst fresh64) (snd fresh64)).
  evaluate.
Defined.

Lemma fresh64_is_managed : managed (B := two_writes) (snd fresh64).
Proof.
  apply (@managed_new two_writes 4 (EEPROM.erased 64) record_a 1 (fst fresh64)).
  evaluate.
Defined.

Lemma changed64_is_managed : managed (B := two_writes) (snd changed64).
Proof.
  exact (@managed_assign two_writes (snd fresh64) record_b fresh64_is_managed eq_refl).
Defined.

Lemma force_writes_cached_payload_check_on_changed64 :
  managed (B := two_writes) (snd changed64) /\
  entry_on_device (fst changed64) (snd changed64) /\
  memory_crc32 (B := two_writes) (snd changed64) <> _ENTRY_CRC32 (snd changed64) /\
  stored_CRC32 (fst (force (fst changed64) (snd changed64)))
      (_ADDRESS (snd changed64)) (sizeof_T (snd changed64))
    <> wrap 32 (crc32 (Build := two_writes)
         (stored_DATA (fst (force (fst changed64) (snd changed64)))
            (_ADDRESS (snd changed64)) (sizeof_T (snd changed64)))).
Proof.
  assert (Hd : entry_on_device (fst changed64) (snd changed64)) by evaluate.
  assert (Hn : memory_crc32 (B := two_writes) (snd changed64) <> _ENTRY_CRC32 (snd changed64))
    by evaluate.
  destruct (@force_writes_cached_payload_check two_writes (fst changed64) (snd changed64))
    as (_ & _ & H).
  destruct (H changed64_is_managed Hd) as (_ & _ & H3).
  exact (conj changed64_is_managed (conj Hd (conj Hn (H3 Hn)))).
Defined.

Lemma locate_never_matches_other_key_on_shared64 :
  @locate two_writes 4 shared64 newcomer = Some (0, set_ADDRESS newcomer 17) /\
  @stored_KEY shared64 17 <> _ENTRY_KEY newcomer /\
  _ADDRESS newcomer < EEPROM.length shared64 /\
  @valid_header two_writes shared64 (_ADDRESS newcomer) /\
  stored_KEY shared64 (_ADDRESS newcomer) <> _ENTRY_KEY newcomer /\
  @locate two_writes 4 shared64 newcomer <> Some (1, newcomer) /\
  @locate two_writes 4 shared64 newcomer
    = @locate two_writes 3 shared64
        (set_ADDRESS newcomer (@next_ADDRESS shared64 (_ADDRESS newcomer))).
Proof.
  assert (H1 : @locate two_writes 4 shared64 newcomer = Some (0, set_ADDRESS newcomer 17))
    by evaluate.
  assert (H2 : @stored_KEY shared64 17 <> _ENTRY_KEY newcomer) by evaluate.
  assert (H3 : _ADDRESS newcomer < EEPROM.length shared64) by evaluate.
  assert (H4 : @valid_header two_writes shared64 (_ADDRESS newcomer)) by evaluate.
  assert (H5 : stored_KEY shared64 (_ADDRESS newcomer) <> _ENTRY_KEY newcomer) by evaluate.
  destruct (@locate_never_matches_other_key two_writes 3 shared64 newcomer) as [_ Hb].
  destruct (Hb H3 H4 H5) as [H6 H7].
  exact (conj H1 (conj H2 (conj H3 (conj H4 (conj H5 (conj H6 H7)))))).
Defined.

Lemma locate_advances_by_overhead_plus_length_on_shared64 :
  _ADDRESS newcomer < EEPROM.length shared64 /\
  valid_header (B := two_writes) shared64 (_ADDRESS newcomer) /\
  stored_KEY shared64 (_ADDRESS newcomer) <> _ENTRY_KEY newcomer /\
  0 <= _ADDRESS newcomer /\
  _ADDRESS newcomer + (stored_LENGTH shared64 (_ADDRESS newcomer) + 13) < 2 ^ 16 /\
  locate (B := two_writes) 4 shared64 newcomer
    = locate (B := two_writes) 3 shared64 (set_ADDRESS newcomer 17) /\
  crc8 (Build := two_writes) [xFF] <> xFF /\
  wrap 32 (crc32 (Build := two_writes) record_b)
    <> wrap 32 (crc32 (Build := two_writes) record_a) /\
  exists E1 m1 E2 m2,
    EEPROManager_new (B := two_writes) 4 (EEPROM.erased 64) record_a 1 = Some (E1, m1) /\
    _ADDRESS m1 = 0 /\ _ENTRY_WRITE_COUNT m1 = 1 /\
    update (B := two_writes) 5 E1 (set_MEMORY m1 record_b) = Some (1, (E2, m2)) /\
    _ADDRESS m2 = 17 /\ _ENTRY_WRITE_COUNT m2 = 1 /\
    EEPROM.get E2 17 17 = entry_bytes m2.
Proof.
  assert (H1 : _ADDRESS newcomer < EEPROM.length shared64) by evaluate.
  assert (H2 : valid_header (B := two_writes) shared64 (_ADDRESS newcomer)) by evaluate.
  assert (H3 : stored_KEY shared64 (_ADDRESS newcomer) <> _ENTRY_KEY newcomer) by evaluate.
  assert (H4 : 0 <= _ADDRESS newcomer) by evaluate.
  assert (H5 : _ADDRESS newcomer + (stored_LENGTH shared64 (_ADDRESS newcomer) + 13) < 2 ^ 16)
    by evaluate.
  assert (H6 : crc8 (Build := two_writes) [xFF] <> xFF) by evaluate.
  assert (H7 : wrap 32 (crc32 (Build := two_writes) record_b)
               <> wrap 32 (crc32 (Build := two_writes) record_a)) by evaluate.
  destruct (@locate_advances_by_overhead_plus_length two_writes 3 shared64 newcomer
              record_a record_b 1) as (_ & Hstep & Hrun).
  destruct (Hstep H1 H2 (or_introl H3)) as [Ha Hb].
  pose proof (Hb H4 H5) as Hc.
  assert (Hd : @size_t_bits two_writes = 16) by reflexivity.
  assert (He : 16 <= @size_t_bits two_writes) by (rewrite Hd; apply Z.le_refl).
  pose proof (Hrun H6 eq_refl eq_refl eq_refl He H7) as Hf.
  assert (Hg : wrap 16 (_ADDRESS newcomer + (stored_LENGTH shared64 (_ADDRESS newcomer) + 13))
               = 17) by evaluate.
  rewrite Hg in Ha.
  exact (conj H1 (conj H2 (conj H3 (conj H4 (conj H5 (conj Ha (conj H6 (conj H7 Hf)))))))).
Defined.

Lemma update_without_room_returns_sentinel_on_changed20 :
  memory_crc32 (B := two_writes) (snd changed20) <> _ENTRY_CRC32 (snd changed20) /\
  entry_on_device (fst changed20) (snd changed20) /\
  wrap 32 (_ENTRY_WRITE_COUNT (snd changed20) + 1) = EEPROM_MAX_WRITES (Build := two_writes) /\
  locate (B := two_writes) 4
      (update_in_place (fst changed20) (counted (B := two_writes) (snd changed20)))
      (counted (B := two_writes) (snd changed20)) = Some (0, scanned20) /\
  EEPROM.length (fst changed20) < _ADDRESS scanned20 + entry_size scanned20 /\
  exists E',
    update (B := two_writes) 4 (fst changed20) (snd changed20)
      = Some (0xFFFFFFFF, (E', scanned20)) /\
    stored_WRITE_COUNT E' (_ADDRESS (snd changed20)) = EEPROM_MAX_WRITES (Build := two_writes).
Proof.
  assert (H1 : memory_crc32 (B := two_writes) (snd changed20) <> _ENTRY_CRC32 (snd changed20))
    by evaluate.
  assert (H2 : entry_on_device (fst changed20) (snd changed20)) by evaluate.
  assert (H3 : wrap 32 (_ENTRY_WRITE_COUNT (snd changed20) + 1)
               = EEPROM_MAX_WRITES (Build := two_writes)) by evaluate.
  assert (H4 : locate (B := two_writes) 4
                 (update_in_place (fst changed20) (counted (B := two_writes) (snd changed20)))
                 (counted (B := two_writes) (snd changed20)) = Some (0, scanned20))
    by evaluate.
  assert (H5 : EEPROM.length (fst changed20) < _ADDRESS scanned20 + entry_size scanned20)
    by evaluate.
  exact (conj H1 (conj H2 (conj H3 (conj H4 (conj H5
           (@update_without_room_returns_sentinel two_writes 4 (fst changed20) (snd changed20)
              0 scanned20 H1 H2 H3 H4 H5)))))).
Defined.

(** The claim C3 fails on the 20-cell device: the [update] that finds no
    room returns [0xFFFFFFFF], and the 17 bytes of the old entry at address 0
    are not what they were before the call. *)
Lemma failed_relocation_changes_old_entry :
  _ADDRESS (snd changed20) = 0 /\ entry_size (snd changed20) = 17 /\
  exists E' m',
    update (B := two_writes) 4 (fst changed20) (snd changed20) = Some (0xFFFFFFFF, (E', m')) /\
    EEPROM.get E' 0 17 <> EEPROM.get (fst changed20) 0 17.
Proof.
  split; [reflexivity|]. split; [reflexivity|].
  exists (update_in_place (fst changed20) (counted (B := two_writes) (snd changed20))), scanned20.
  split; [vm_compute; reflexivity | vm_compute; intro H; discriminate H].
Qed.

Lemma failed_relocation_leaves_in_place_update_on_changed20 :
  memory_crc32 (B := two_writes) (snd changed20) <> _ENTRY_CRC32 (snd changed20) /\
  entry_on_device (fst changed20) (snd changed20) /\
  EEPROM_MAX_WRITES (Build := two_writes) <= wrap 32 (_ENTRY_WRITE_COUNT (snd changed20) + 1) /\
  locate (B := two_writes) 4
      (update_in_place (fst changed20) (counted (B := two_writes) (snd changed20)))
      (counted (B := two_writes) (snd changed20)) = Some (0, scanned20) /\
  EEPROM.length (fst changed20) < _ADDRESS scanned20 + entry_size scanned20 /\
  exists E',
    update (B := two_writes) 4 (fst changed20) (snd changed20)
      = Some (0xFFFFFFFF, (E', scanned20)) /\
    stored_KEY E' 0 = stored_KEY (fst changed20) 0 /\
    stored_WRITE_COUNT E' 0 = 2 /\
    stored_DATA E' 0 4 = record_b.
Proof.
  assert (H1 : memory_crc32 (B := two_writes) (snd changed20) <> _ENTRY_CRC32 (snd changed20))
    by evaluate.
  assert (H2 : entry_on_device (fst changed20) (snd changed20)) by evaluate.
  assert (H3 : EEPROM_MAX_WRITES (Build := two_writes)
               <= wrap 32 (_ENTRY_WRITE_COUNT (snd changed20) + 1)) by evaluate.
  assert (H4 : locate (B := two_writes) 4
                 (update_in_place (fst changed20) (counted (B := two_writes) (snd changed20)))
                 (counted (B := two_writes) (snd changed20)) = Some (0, scanned20))
    by evaluate.
  assert (H5 : EEPROM.length (fst changed20) < _ADDRESS scanned20 + entry_size scanned20)
    by evaluate.
  destruct (@failed_relocation_leaves_in_place_update two_writes 4 (fst changed20)
              (snd changed20) 0 scanned20 H1 H2 H3 H4 H5)
    as (E' & Ha & Hb & Hc & _ & _ & _ & Hd & He & _).
  refine (conj H1 (conj H2 (conj H3 (conj H4 (conj H5 _))))).
  exists E'.
  exact (conj Ha (conj Hc (conj Hd He))).
Defined.

(** The claim C1 fails on the 20-cell device: the record has changed, the
    incremented count reaches the limit of two, and [update] returns
    [0xFFFFFFFF], not 1; the manager is left at address 17, where the cells
    of the device are still erased. *)
Lemma update_at_limit_returns_sentinel :
  memory_crc32 (B := two_writes) (snd changed20) <> _ENTRY_CRC32 (snd changed20) /\
  wrap 32 (_ENTRY_WRITE_COUNT (snd changed20) + 1) = EEPROM_MAX_WRITES (Build := two_writes) /\
  exists E' m',
    update (B := two_writes) 4 (fst changed20) (snd changed20) = Some (0xFFFFFFFF, (E', m')) /\
    0xFFFFFFFF <> 1 /\
    _ADDRESS m' = 17 /\
    EEPROM.get E' 17 3 = [xFF; xFF; xFF].
Proof.
  split; [vm_compute; intro H; discriminate H|]. split; [reflexivity|].
  exists (update_in_place (fst changed20) (counted (B := two_writes) (snd changed20))), scanned20.
  split; [vm_compute; reflexivity|].
  split; [vm_compute; intro H; discriminate H|].
  split; reflexivity.
Qed.

Lemma update_counts_then_relocates_on_64 :
  (memory_crc32 (B := default_limit) (snd changed64_default)
     <> _ENTRY_CRC32 (snd changed64_default) /\
   entry_on_device (fst changed64_default) (snd changed64_default) /\
   stored_WRITE_COUNT (fst changed64_default) (_ADDRESS (snd changed64_default))
     = _ENTRY_WRITE_COUNT (snd changed64_default) /\
   _ENTRY_WRITE_COUNT (snd changed64_default) + 1 < EEPROM_MAX_WRITES (Build := default_limit) /\
   EEPROM_MAX_WRITES (Build := default_limit) <= 2 ^ 32 /\
   exists E' m',
     update (B := default_limit) 4 (fst changed64_default) (snd changed64_default)
       = Some (2, (E', m')) /\
     stored_WRITE_COUNT E' 0 = 2) /\
  (memory_crc32 (B := two_writes) (snd changed64) <> _ENTRY_CRC32 (snd changed64) /\
   entry_on_device (fst changed64) (snd changed64) /\
   stored_WRITE_COUNT (fst changed64) (_ADDRESS (snd changed64))
     = _ENTRY_WRITE_COUNT (snd changed64) /\
   EEPROM_MAX_WRITES (Build := two_writes) <= wrap 32 (_ENTRY_WRITE_COUNT (snd changed64) + 1) /\
   locate (B := two_writes) 4
       (update_in_place (fst changed64) (counted (B := two_writes) (snd changed64)))
       (counted (B := two_writes) (snd changed64)) = Some (0, scanned64) /\
   _ADDRESS scanned64 + entry_size scanned64 < EEPROM.length (fst changed64) /\
   EEPROM.length (fst changed64) < 2 ^ size_t_bits (Build := two_writes) /\
   exists E' m',
     update (B := two_writes) 4 (fst changed64) (snd changed64) = Some (1, (E', m')) /\
     _ADDRESS m' = 17 /\
     stored_WRITE_COUNT E' (_ADDRESS m') = 1).
Proof.
  split.
  - assert (H1 : memory_crc32 (B := default_limit) (snd changed64_default)
                 <> _ENTRY_CRC32 (snd changed64_default)) by evaluate.
    assert (H2 : entry_on_device (fst changed64_default) (snd changed64_default)) by evaluate.
    assert (H3 : stored_WRITE_COUNT (fst changed64_default) (_ADDRESS (snd changed64_default))
                 = _ENTRY_WRITE_COUNT (snd changed64_default)) by evaluate.
    assert (H4 : _ENTRY_WRITE_COUNT (snd changed64_default) + 1
                 < EEPROM_MAX_WRITES (Build := default_limit)) by evaluate.
    assert (H5 : EEPROM_MAX_WRITES (Build := default_limit) <= 2 ^ 32) by evaluate.
    destruct (@update_counts_then_relocates default_limit 4 (fst changed64_default)
                (snd changed64_default) H1 H2 H3) as [Ha _].
    destruct (Ha H4 H5) as (E' & m' & Hu & _ & _ & Hs).
    refine (conj H1 (conj H2 (conj H3 (conj H4 (conj H5 _))))).
    exists E', m'. exact (conj Hu Hs).
  - assert (H1 : memory_crc32 (B := two_writes) (snd changed64) <> _ENTRY_CRC32 (snd changed64))
      by evaluate.
    assert (H2 : entry_on_device (fst changed64) (snd changed64)) by evaluate.
    assert (H3 : stored_WRITE_COUNT (fst changed64) (_ADDRESS (snd changed64))
                 = _ENTRY_WRITE_COUNT (snd changed64)) by evaluate.
    assert (H4 : EEPROM_MAX_WRITES (Build := two_writes)
                 <= wrap 32 (_ENTRY_WRITE_COUNT (snd changed64) + 1)) by evaluate.
    assert (H5 : locate (B := two_writes) 4
                   (update_in_place (fst changed64) (counted (B := two_writes) (snd changed64)))
                   (counted (B := two_writes) (snd changed64)) = Some (0, scanned64))
      by evaluate.
    assert (H6 : _ADDRESS scanned64 + entry_size scanned64 < EEPROM.length (fst changed64))
      by evaluate.
    assert (H7 : EEPROM.length (fst changed64) < 2 ^ size_t_bits (Build := two_writes))
      by evaluate.
    destruct (@update_counts_then_relocates two_writes 4 (fst changed64) (snd changed64)
                H1 H2 H3) as [_ Hb].
    destruct (Hb H4 0 scanned64 H5 H6 H7) as (E' & m' & Hu & Had & _ & Hs & _).
    refine (conj H1 (conj H2 (conj H3 (conj H4 (conj H5 (conj H6 (conj H7 _))))))).
    exists E', m'. exact (conj Hu (conj Had Hs)).
Defined.

Lemma fresh_manager_recovers_entry_on_shared64 :
  EEPROManager_new (B := two_writes) 4 shared64 record_a 1
    = Some (constructed two_writes shared64 record_a 1) /\
  List.length record_b = List.length record_a /\
  entry_on_device (fst (constructed two_writes shared64 record_a 1))
    (snd (constructed two_writes shared64 record_a 1)) /\
  1 < EEPROM_MAX_WRITES (Build := two_writes) /\
  Forall (no_wrap shared64) (skipped (B := two_writes) 4 shared64 newcomer) /\
  _ADDRESS (snd (constructed two_writes shared64 record_a 1)) = 17 /\
  EEPROManager_new (B := two_writes) 4 (fst (constructed two_writes shared64 record_a 1))
      record_b 1
    = Some (constructed two_writes shared64 record_a 1) /\
  _MEMORY (snd (constructed two_writes shared64 record_a 1)) = record_a.
Proof.
  assert (H1 : EEPROManager_new (B := two_writes) 4 shared64 record_a 1
               = Some (fst (constructed two_writes shared64 record_a 1),
                       snd (constructed two_writes shared64 record_a 1))) by evaluate.
  assert (H2 : List.length record_b = List.length record_a) by reflexivity.
  assert (H3 : entry_on_device (fst (constructed two_writes shared64 record_a 1))
                 (snd (constructed two_writes shared64 record_a 1))) by evaluate.
  assert (H4 : 1 < EEPROM_MAX_WRITES (Build := two_writes)) by evaluate.
  assert (Hs : skipped (B := two_writes) 4 shared64 newcomer = [0]) by evaluate.
  assert (H5 : Forall (no_wrap shared64) (skipped (B := two_writes) 4 shared64 newcomer)).
  { rewrite Hs. constructor; [evaluate | constructor]. }
  destruct (@fresh_manager_recovers_entry two_writes 4 shared64 1 record_a record_b
              _ _ H1 H2 H3 H4 H5) as (Ha & _ & _).
  refine (conj _ (conj H2 (conj H3 (conj H4 (conj H5 (conj eq_refl (conj _ eq_refl))))))).
  - evaluate.
  - rewrite Ha. evaluate.
Defined.

(** * Further properties *)

Section ScanComposition.
Context {B : Build}.
Import EEPROMFacts.

Lemma set_ADDRESS_same m : set_ADDRESS m (_ADDRESS m) = m.
Proof. now destruct m. Qed.

Lemma skipped_skip fuel E m :
  _ADDRESS m < EEPROM.length E -> valid_header E (_ADDRESS m) ->
  stored_KEY E (_ADDRESS m) <> _ENTRY_KEY m \/
    EEPROM_MAX_WRITES <= stored_WRITE_COUNT E (_ADDRESS m) ->
  skipped (S fuel) E m
    = _ADDRESS m :: skipped fuel E (set_ADDRESS m (next_ADDRESS E (_ADDRESS m))).
Proof.
  intros Hl Hv Hs. cbn [skipped].
  apply Z.ltb_lt in Hl. rewrite Hl.
  apply byte_eqb_true_iff in Hv. unfold stored_KEY, stored_CRC8 in Hv. rewrite Hv.
  replace (_ && _)%bool with false; [reflexivity|].
  symmetry. apply andb_false_iff. unfold stored_KEY, stored_WRITE_COUNT in Hs.
  destruct Hs as [Hs|Hs]; [left; now apply Z.eqb_neq | right; now apply Z.ltb_ge].
Qed.

Lemma skipped_free fuel E m :
  ~ valid_header E (_ADDRESS m) -> skipped fuel E m = [].
Proof.
  intros Hv. destruct fuel; cbn [skipped];
    destruct (_ADDRESS m <? EEPROM.length E); auto.
  apply byte_eqb_false_iff in Hv. unfold stored_KEY, stored_CRC8 in Hv.
  now rewrite Hv.
Qed.

Lemma skipped_found fuel E m :
  stored_KEY E (_ADDRESS m) = _ENTRY_KEY m ->
  stored_WRITE_COUNT E (_ADDRESS m) < EEPROM_MAX_WRITES ->
  skipped fuel E m = [].
Proof.
  intros Hk Hc. destruct fuel; cbn [skipped];
    destruct (_ADDRESS m <? EEPROM.length E); auto.
  destruct (Byte.eqb _ _); auto.
  apply Z.eqb_eq in Hk. unfold stored_KEY in Hk. rewrite Hk.
  apply Z.ltb_lt in Hc. unfold stored_WRITE_COUNT in Hc. now rewrite Hc.
Qed.

(** A scan that ends at [m'] on [E] goes the same way on a device that
    agrees with [E] on the headers stepped over; from there it goes on as
    the scan from [m'] does. *)
Lemma locate_resume f : forall E E' m r m' g x,
  locate f E m = Some (r, m') ->
  EEPROM.length E' = EEPROM.length E ->
  Forall (same_header E E') (skipped f E m) ->
  locate g E' m' = Some x ->
  locate (f + g) E' m = Some x.
Proof.
  induction f as [|f IH]; intros E E' m r m' g x H Hlen Hs Hx.
  - destruct (Z_lt_le_dec (_ADDRESS m) (EEPROM.length E)) as [Hl|Hge].
    + simpl in H. apply Z.ltb_lt in Hl. rewrite Hl in H. discriminate.
    + rewrite locate_end in H by assumption. inversion H; subst. exact Hx.
  - destruct (Z_lt_le_dec (_ADDRESS m) (EEPROM.length E)) as [Hl|Hge].
    + destruct (locate_cases f E m Hl) as [[Hn Hloc]|[(Hv & Hk & Hc & Hloc)|(Hv & Hsk & Hloc)]];
        rewrite Hloc in H.
      * inversion H; subst. rewrite Nat.add_comm. now apply locate_more_fuel.
      * inversion H; subst. rewrite Nat.add_comm. now apply locate_more_fuel.
      * rewrite skipped_skip in Hs by assumption.
        inversion Hs as [|? ? Hh Ht]; subst.
        pose proof (same_header_fields _ _ _ Hh) as (Ek & Ec & Ew & El).
        cbn [Nat.add]. rewrite locate_skip.
        -- replace (next_ADDRESS E' (_ADDRESS m)) with (next_ADDRESS E (_ADDRESS m))
             by (unfold next_ADDRESS; now rewrite El).
           eapply IH; eauto.
        -- lia.
        -- eapply same_header_valid; eauto.
        -- now rewrite Ek, Ew.
    + rewrite locate_end in H by assumption. inversion H; subst.
      rewrite Nat.add_comm. now apply locate_more_fuel.
Qed.

(** In a scan that never wraps, the scan lands behind every entry it steps
    over, as far as the stored length says. *)
Lemma skipped_behind fuel : forall E m r m',
  locate fuel E m = Some (r, m') ->
  0 <= _ADDRESS m ->
  Forall (no_wrap E) (skipped fuel E m) ->
  _ADDRESS m <= _ADDRESS m' /\
  Forall (fun a => a + (stored_LENGTH E a + overhead) <= _ADDRESS m') (skipped fuel E m).
Proof.
  induction fuel as [|fuel IH]; intros E m r m' H H0 Hn.
  - destruct (Z_lt_le_dec (_ADDRESS m) (EEPROM.length E)) as [Hl|Hge].
    + simpl in H. apply Z.ltb_lt in Hl. rewrite Hl in H. discriminate.
    + rewrite locate_end in H by assumption. inversion H; subst.
      split; [lia|]. simpl. apply Z.ltb_ge in Hge. rewrite Hge. constructor.
  - destruct (Z_lt_le_dec (_ADDRESS m) (EEPROM.length E)) as [Hl|Hge].
    + destruct (locate_cases fuel E m Hl) as [[Hv Hloc]|[(Hv & Hk & Hc & Hloc)|(Hv & Hsk & Hloc)]].
      * rewrite Hloc in H. inversion H; subst.
        rewrite skipped_free by assumption. split; [lia|constructor].
      * rewrite Hloc in H. inversion H; subst.
        rewrite skipped_found by assumption. split; [lia|constructor].
      * rewrite Hloc in H. rewrite skipped_skip in * by assumption.
        inversion Hn as [|? ? Hw Ht]; subst. unfold no_wrap in Hw.
        pose proof (get_uint_range E (_ADDRESS m + off_LENGTH) 2) as Hr.
        assert (Hnext : next_ADDRESS E (_ADDRESS m)
                        = _ADDRESS m + (stored_LENGTH E (_ADDRESS m) + overhead)).
        { unfold next_ADDRESS. apply wrap_small.
          unfold stored_LENGTH, overhead in *. lia. }
        apply IH in H; auto.
        -- cbn [_ADDRESS set_ADDRESS] in H. destruct H as [Hle Hf].
           rewrite Hnext in Hle.
           unfold stored_LENGTH, overhead in *.
           split; [lia|]. constructor; [lia | exact Hf].
        -- cbn [_ADDRESS set_ADDRESS]. rewrite Hnext.
           unfold stored_LENGTH, overhead in *. lia.
    + rewrite locate_end in H by assumption. inversion H; subst.
      split; [lia|]. simpl. apply Z.ltb_ge in Hge. rewrite Hge. constructor.
Qed.

End ScanComposition.

Section ConstructionFacts.
Context {B : Build}.
Import EEPROMFacts.

(** What a construction leaves behind, in either branch of [begin]: the scan
    ended at the address of the manager, the device changed within the
    entry at most, and the entry there is live and agrees with the shadow. *)
Lemma construction_facts fuel E K r1 E1 m1 :
  EEPROManager_new fuel E r1 K = Some (E1, m1) ->
  entry_on_device E1 m1 ->
  1 < EEPROM_MAX_WRITES ->
  Forall (no_wrap E) (skipped fuel E (initialise (unconstructed r1 K))) ->
  (exists r, locate fuel E (initialise (unconstructed r1 K))
             = Some (r, set_ADDRESS (initialise (unconstructed r1 K)) (_ADDRESS m1))) /\
  Forall (fun a => a + overhead <= _ADDRESS m1)
    (skipped fuel E (initialise (unconstructed r1 K))) /\
  EEPROM.length E1 = EEPROM.length E /\
  (forall x, x < _ADDRESS m1 \/ _ADDRESS m1 + entry_size m1 <= x ->
             EEPROM.read E1 x = EEPROM.read E x) /\
  valid_header E1 (_ADDRESS m1) /\
  stored_KEY E1 (_ADDRESS m1) = wrap 16 K /\
  stored_WRITE_COUNT E1 (_ADDRESS m1) = _ENTRY_WRITE_COUNT m1 /\
  _ENTRY_WRITE_COUNT m1 < EEPROM_MAX_WRITES /\
  stored_DATA E1 (_ADDRESS m1) (sizeof_T m1) = _MEMORY m1 /\
  stored_CRC32 E1 (_ADDRESS m1) (sizeof_T m1) = _ENTRY_CRC32 m1 /\
  _ENTRY_KEY m1 = wrap 16 K /\ _ENTRY_CRC8 m1 = key_crc8 (wrap 16 K) /\
  _ENTRY_LENGTH m1 = wrap 16 (Z.of_nat (List.length r1)) /\
  sizeof_T m1 = List.length r1.
Proof.
  intros Hnew Hd Hmax Hnw.
  unfold EEPROManager_new in Hnew.
  apply begin_cases in Hnew as (r & ml & Hl & Hc).
  pose proof (locate_frame _ _ _ _ _ Hl) as Hfr.
  destruct (skipped_below _ _ _ _ _ Hl) as [_ Hb]; [simpl; lia|exact Hnw|].
  destruct Hc as [(-> & -> & ->)|(-> & -> & ->)].
  - (* written *)
    assert (Hd0 : entry_on_device E ml) by (eapply entry_on_device_write; eauto).
    assert (Hcnt : _ENTRY_WRITE_COUNT ml = 1) by (rewrite Hfr; reflexivity).
    assert (Hkey : key_checked ml) by (rewrite Hfr; reflexivity).
    assert (Hk : _ENTRY_KEY ml = wrap 16 K) by (rewrite Hfr; reflexivity).
    assert (Hcrc : _ENTRY_CRC32 ml = wrap 32 (crc32 r1)) by (rewrite Hfr; reflexivity).
    split; [exists 0; now rewrite <- Hfr|].
    split; [exact Hb|]. split; [apply length_write|].
    split; [intros x Hx; now apply read_write_outside|].
    split; [now apply write_valid_header|].
    split; [rewrite write_stored_KEY by assumption; rewrite Hk; apply wrap_wrap|].
    split; [rewrite write_stored_WRITE_COUNT by assumption;
            rewrite Hcnt; apply wrap_small; lia|].
    split; [lia|].
    split; [now apply write_stored_DATA|].
    split; [rewrite write_stored_CRC32 by assumption; rewrite Hcrc; apply wrap_wrap|].
    split; [exact Hk|]. split; [rewrite Hfr; reflexivity|].
    split; rewrite Hfr; reflexivity.
  - (* found and read *)
    destruct (locate_result _ _ _ _ _ Hl) as [(_ & Hlt & Hv & Hk & Hc)|(Hr & _)];
      [|discriminate].
    change (_ADDRESS (read E ml)) with (_ADDRESS ml).
    assert (Hsz : sizeof_T (read E ml) = sizeof_T ml).
    { unfold sizeof_T, read. cbn [_MEMORY]. apply length_get. }
    rewrite Hsz.
    split; [exists 1; now rewrite <- Hfr|].
    split; [exact Hb|]. split; [reflexivity|].
    split; [reflexivity|]. split; [exact Hv|].
    split; [exact Hk|]. split; [reflexivity|].
    split; [exact Hc|].
    split; [reflexivity|].
    split; [unfold stored_CRC32, read, off_CRC32, off_DATA; cbn [_ENTRY_CRC32];
            f_equal; lia|].
    split; [rewrite Hfr; reflexivity|]. split; [rewrite Hfr; reflexivity|].
    split; rewrite Hfr; reflexivity.
Qed.

(** A fresh construction finds the entry at [A] when the device agrees, on
    the headers stepped over, with one on which a scan for the same key ended
    at [A], and holds a live header of the key there. *)
Lemma fresh_finds fuel E E' K r1 r2 r ml :
  locate fuel E (initialise (unconstructed r1 K)) = Some (r, ml) ->
  EEPROM.length E' = EEPROM.length E ->
  Forall (same_header E E') (skipped fuel E (initialise (unconstructed r1 K))) ->
  _ADDRESS ml < EEPROM.length E ->
  valid_header E' (_ADDRESS ml) ->
  stored_KEY E' (_ADDRESS ml) = wrap 16 K ->
  stored_WRITE_COUNT E' (_ADDRESS ml) < EEPROM_MAX_WRITES ->
  EEPROManager_new fuel E' r2 K
    = Some (E', read E' (set_ADDRESS (initialise (unconstructed r2 K)) (_ADDRESS ml))).
Proof.
  intros Hl Hlen Hs Hlt Hv Hk Hc.
  set (n := initialise (unconstructed r2 K)).
  destruct (locate_other fuel E (initialise (unconstructed r1 K)) n r ml) as [Hn Hsk]; auto.
  assert (Hreach : locate fuel E' n = Some (1, set_ADDRESS n (_ADDRESS ml))).
  { eapply locate_reaches; eauto.
    now rewrite Hsk. }
  unfold EEPROManager_new, begin. fold n. now rewrite Hreach.
Qed.

(** [read] gives the manager whose shadow the device holds. *)
Lemma read_as E n m :
  _ADDRESS n = _ADDRESS m -> sizeof_T n = sizeof_T m ->
  _ENTRY_KEY n = _ENTRY_KEY m -> _ENTRY_CRC8 n = _ENTRY_CRC8 m ->
  _ENTRY_LENGTH n = _ENTRY_LENGTH m ->
  stored_WRITE_COUNT E (_ADDRESS m) = _ENTRY_WRITE_COUNT m ->
  stored_DATA E (_ADDRESS m) (sizeof_T m) = _MEMORY m ->
  stored_CRC32 E (_ADDRESS m) (sizeof_T m) = _ENTRY_CRC32 m ->
  read E n = m.
Proof.
  intros Ha Hs Hk Hc Hl Hw Hd Hr.
  rewrite (read_other E m n) by assumption.
  unfold read. unfold stored_WRITE_COUNT, stored_DATA, stored_CRC32 in *.
  replace (_ADDRESS m + off_CRC32 m) with (_ADDRESS m + off_DATA + Z.of_nat (sizeof_T m))
    by (unfold off_CRC32, off_DATA; lia).
  rewrite Hw, Hd, Hr. now destruct m.
Qed.

End ConstructionFacts.

Section Durability.
Context {B : Build}.
Import EEPROMFacts.

(** X1.  An [update] below the limit is durable: a manager constructed afterwards
    for the same key, whatever record of that size it starts with, finds the
    entry at the same address and takes over the state the updating manager
    is in: the new record bytes, the incremented count, the new payload
    check.  The construction is as in [fresh_manager_recovers_entry]. *)
Theorem fresh_manager_recovers_update
    (fuel : nat) (E : EEPROM.t) (K : Z) (r1 r' r2 : list byte)
    (E1 : EEPROM.t) (m1 : EEPROManager) :
  EEPROManager_new fuel E r1 K = Some (E1, m1) ->
  entry_on_device E1 m1 ->
  1 < EEPROM_MAX_WRITES ->
  Forall (no_wrap E) (skipped fuel E (initialise (unconstructed r1 K))) ->
  List.length r' = List.length r1 -> List.length r2 = List.length r1 ->
  wrap 32 (crc32 r') <> _ENTRY_CRC32 m1 ->
  wrap 32 (_ENTRY_WRITE_COUNT m1 + 1) < EEPROM_MAX_WRITES ->
  exists E2 m2,
    update fuel E1 (set_MEMORY m1 r')
      = Some (wrap 32 (_ENTRY_WRITE_COUNT m1 + 1), (E2, m2)) /\
    EEPROManager_new fuel E2 r2 K = Some (E2, m2) /\
    _MEMORY m2 = r' /\ _ADDRESS m2 = _ADDRESS m1 /\
    _ENTRY_WRITE_COUNT m2 = wrap 32 (_ENTRY_WRITE_COUNT m1 + 1).
Proof.
  intros Hnew Hd Hmax Hnw Hr' Hr2 Hchg Hcnt.
  destruct (construction_facts _ _ _ _ _ _ Hnew Hd Hmax Hnw)
    as ((r & Hl) & Hb & Hlen & Hout & Hv & Hk & Hw & _ & _ & _ & Hkey & Hc8 & Hlf & Hsz).
  set (ma := set_MEMORY m1 r').
  set (mc := counted ma).
  set (E2 := update_in_place E1 mc).
  assert (Hdc : entry_on_device E1 mc).
  { unfold entry_on_device, entry_size in *.
    change (_ADDRESS mc) with (_ADDRESS m1).
    change (sizeof_T mc) with (List.length r').
    rewrite Hsz in Hd. rewrite Hr'. exact Hd. }
  destruct (update_in_place_header E1 mc) as (Hk2 & Hc2 & _).
  change (_ADDRESS mc) with (_ADDRESS m1) in Hk2, Hc2. fold E2 in Hk2, Hc2.
  pose proof (update_in_place_stored_WRITE_COUNT E1 mc Hdc) as Hw2.
  pose proof (update_in_place_stored_DATA E1 mc Hdc) as Hd2.
  pose proof (update_in_place_stored_CRC32 E1 mc Hdc) as Hs2.
  change (_ADDRESS mc) with (_ADDRESS m1) in Hw2, Hd2, Hs2. fold E2 in Hw2, Hd2, Hs2.
  change (_ENTRY_WRITE_COUNT mc) with (wrap 32 (_ENTRY_WRITE_COUNT m1 + 1)) in Hw2.
  rewrite wrap_wrap in Hw2.
  change (_ENTRY_CRC32 mc) with (wrap 32 (crc32 r')) in Hs2. rewrite wrap_wrap in Hs2.
  exists E2, mc.
  split; [|split; [|split; [reflexivity|split; reflexivity]]].
  - apply (update_counted fuel E1 ma); auto.
  - rewrite (fresh_finds fuel E E2 K r1 r2 r _ Hl).
    + do 2 f_equal. apply read_as.
      * reflexivity.
      * change (List.length r2 = List.length r'). congruence.
      * change (wrap 16 K = _ENTRY_KEY m1). now symmetry.
      * change (key_crc8 (wrap 16 K) = _ENTRY_CRC8 m1). now symmetry.
      * change (wrap 16 (Z.of_nat (List.length r2)) = _ENTRY_LENGTH m1).
        now rewrite Hlf, Hr2.
      * exact Hw2.
      * exact Hd2.
      * exact Hs2.
    + unfold E2. now rewrite length_update_in_place.
    + eapply Forall_impl; [|exact Hb].
      intros a Ha x Hx. unfold E2.
      rewrite update_in_place_elsewhere.
      * apply Hout. unfold overhead, off_DATA in *. lia.
      * left. change (_ADDRESS mc) with (_ADDRESS m1).
        unfold overhead, off_DATA, off_WRITE_COUNT in *. lia.
    + cbn [_ADDRESS set_ADDRESS]. rewrite <- Hlen.
      unfold entry_on_device, entry_size, overhead in Hd. lia.
    + cbn [_ADDRESS set_ADDRESS]. unfold valid_header. rewrite Hk2, Hc2. exact Hv.
    + cbn [_ADDRESS set_ADDRESS]. now rewrite Hk2.
    + cbn [_ADDRESS set_ADDRESS]. now rewrite Hw2.
Qed.

(** X2.  A relocation is durable as well: once [update] has moved the entry,
    a manager constructed afterwards for the same key steps over the old,
    exhausted entry, finds the new one and takes over the state of the
    manager that relocated.  The scan of the relocation, like that of the
    construction, is taken not to wrap; the fresh scan has fuel for both. *)
Theorem fresh_manager_recovers_relocation
    (fuel : nat) (E : EEPROM.t) (K : Z) (r1 r' r2 : list byte)
    (E1 : EEPROM.t) (m1 : EEPROManager) (r : Z) (ml : EEPROManager) :
  EEPROManager_new fuel E r1 K = Some (E1, m1) ->
  entry_on_device E1 m1 ->
  1 < EEPROM_MAX_WRITES ->
  Forall (no_wrap E) (skipped fuel E (initialise (unconstructed r1 K))) ->
  List.length r' = List.length r1 -> List.length r2 = List.length r1 ->
  wrap 32 (crc32 r') <> _ENTRY_CRC32 m1 ->
  EEPROM_MAX_WRITES <= wrap 32 (_ENTRY_WRITE_COUNT m1 + 1) ->
  locate fuel (update_in_place E1 (counted (set_MEMORY m1 r'))) (counted (set_MEMORY m1 r'))
    = Some (r, ml) ->
  Forall (no_wrap (update_in_place E1 (counted (set_MEMORY m1 r'))))
    (skipped fuel (update_in_place E1 (counted (set_MEMORY m1 r')))
       (counted (set_MEMORY m1 r'))) ->
  _ADDRESS ml + entry_size ml < EEPROM.length E1 ->
  EEPROM.length E1 < 2 ^ size_t_bits ->
  exists E3 m3,
    update fuel E1 (set_MEMORY m1 r') = Some (1, (E3, m3)) /\
    (forall g, (fuel + (fuel + 1) <= g)%nat ->
               EEPROManager_new g E3 r2 K = Some (E3, m3)) /\
    _MEMORY m3 = r' /\ _ENTRY_WRITE_COUNT m3 = 1 /\
    _ADDRESS m3 = _ADDRESS ml /\ _ADDRESS m1 <= _ADDRESS m3.
Proof.
  intros Hnew Hd Hmax Hnw Hr' Hr2 Hchg Hcnt Hloc Hnw2 Hroom Hbits.
  destruct (construction_facts _ _ _ _ _ _ Hnew Hd Hmax Hnw)
    as ((r0 & Hl) & Hb & Hlen & Hout & Hv & Hk & Hw & _ & _ & _ & Hkey & Hc8 & Hlf & Hsz).
  set (ma := set_MEMORY m1 r') in *.
  set (mc := counted ma) in *.
  set (E2 := update_in_place E1 mc) in *.
  assert (HlenE2 : EEPROM.length E2 = EEPROM.length E1)
    by (unfold E2; apply length_update_in_place).
  pose proof (locate_frame _ _ _ _ _ Hloc) as Hfr.
  assert (H0 : 0 <= _ADDRESS m1) by apply Hd.
  destruct (skipped_below _ _ _ _ _ Hloc H0 Hnw2) as [Hle Hb2].
  change (_ADDRESS mc) with (_ADDRESS m1) in Hle.
  set (m3 := set_WRITE_COUNT ml 1).
  assert (Hes3 : entry_size m3 = entry_size ml) by reflexivity.
  assert (Hd3 : entry_on_device E2 m3).
  { unfold entry_on_device. rewrite HlenE2, Hes3.
    change (_ADDRESS m3) with (_ADDRESS ml). lia. }
  assert (Hm3 : m3 = set_WRITE_COUNT (set_ADDRESS mc (_ADDRESS ml)) 1)
    by (unfold m3; now rewrite <- Hfr).
  assert (Hmem3 : _MEMORY m3 = r') by (rewrite Hm3; reflexivity).
  assert (Hkey3 : _ENTRY_KEY m3 = wrap 16 K) by (rewrite Hm3; exact Hkey).
  assert (Hc83 : _ENTRY_CRC8 m3 = key_crc8 (wrap 16 K)) by (rewrite Hm3; exact Hc8).
  assert (Hlf3 : _ENTRY_LENGTH m3 = wrap 16 (Z.of_nat (List.length r1)))
    by (rewrite Hm3; exact Hlf).
  assert (Hcrc3 : _ENTRY_CRC32 m3 = wrap 32 (crc32 r')) by (rewrite Hm3; reflexivity).
  assert (Hsz3 : sizeof_T m3 = List.length r') by (unfold sizeof_T; now rewrite Hmem3).
  assert (Hkc3 : key_checked m3) by (unfold key_checked; now rewrite Hc83, Hkey3).
  set (E3 := write E2 m3).
  set (n := initialise (unconstructed r2 K)).
  exists E3, m3.
  split; [|split; [|split; [exact Hmem3|split; [reflexivity|split; [reflexivity|exact Hle]]]]].
  - apply (update_relocated fuel E1 ma r ml); auto.
    apply space_limit_room; fold mc E2; rewrite ?HlenE2; auto.
    eapply locate_ADDRESS_nonneg; eauto.
  - intros g Hg.
    (* from the old address to the new one, on the final device *)
    assert (HA : locate (fuel + 1) E3 (set_ADDRESS n (_ADDRESS m1))
                 = Some (1, set_ADDRESS n (_ADDRESS ml))).
    { destruct (locate_other fuel E2 mc (set_ADDRESS n (_ADDRESS m1)) r ml) as [Hn Hsk];
        [reflexivity | exact (eq_sym Hkey) | exact Hloc |].
      eapply (locate_resume fuel E2 E3); [exact Hn | apply length_write | | ].
      - rewrite Hsk. eapply Forall_impl; [|exact Hb2].
        intros a Ha x Hx. unfold E3. apply read_write_outside.
        change (_ADDRESS m3) with (_ADDRESS ml).
        unfold overhead, off_DATA in *. lia.
      - apply locate_found; cbn [_ADDRESS set_ADDRESS].
        + unfold E3. rewrite length_write, HlenE2.
          unfold entry_size, overhead in Hroom. lia.
        + apply (write_valid_header E2 m3 Hkc3 Hd3).
        + pose proof (write_stored_KEY E2 m3 Hd3) as H.
          change (_ADDRESS m3) with (_ADDRESS ml) in H. fold E3 in H.
          rewrite H, Hkey3. apply wrap_wrap.
        + pose proof (write_stored_WRITE_COUNT E2 m3 Hd3) as H.
          change (_ADDRESS m3) with (_ADDRESS ml) in H. fold E3 in H.
          rewrite H. change (_ENTRY_WRITE_COUNT m3) with 1.
          rewrite wrap_small; lia. }
    (* from the start of the device to the old address *)
    assert (HB : locate (fuel + (fuel + 1)) E3 n = Some (1, set_ADDRESS n (_ADDRESS ml))).
    { destruct (locate_other fuel E (initialise (unconstructed r1 K)) n r0
                  (set_ADDRESS (initialise (unconstructed r1 K)) (_ADDRESS m1))) as [Hn Hsk];
        [reflexivity | reflexivity | exact Hl |].
      eapply (locate_resume fuel E E3); [exact Hn | | | exact HA].
      - unfold E3. now rewrite length_write, HlenE2.
      - rewrite Hsk. eapply Forall_impl; [|exact Hb].
        intros a Ha x Hx. unfold E3.
        rewrite read_write_outside
          by (change (_ADDRESS m3) with (_ADDRESS ml); unfold overhead, off_DATA in *; lia).
        unfold E2. rewrite update_in_place_elsewhere
          by (change (_ADDRESS mc) with (_ADDRESS m1);
              unfold overhead, off_DATA, off_WRITE_COUNT in *; lia).
        apply Hout. unfold overhead, off_DATA in *. lia. }
    assert (HC : locate g E3 n = Some (1, set_ADDRESS n (_ADDRESS ml))).
    { replace g with (fuel + (fuel + 1) + (g - (fuel + (fuel + 1))))%nat by lia.
      now apply locate_more_fuel. }
    unfold EEPROManager_new, begin. fold n. rewrite HC. simpl.
    do 2 f_equal. apply read_as.
    + reflexivity.
    + rewrite Hsz3. change (List.length r2 = List.length r'). congruence.
    + change (wrap 16 K = _ENTRY_KEY m3). now symmetry.
    + change (key_crc8 (wrap 16 K) = _ENTRY_CRC8 m3). now symmetry.
    + change (wrap 16 (Z.of_nat (List.length r2)) = _ENTRY_LENGTH m3).
      now rewrite Hlf3, Hr2.
    + unfold E3. rewrite write_stored_WRITE_COUNT by assumption.
      change (_ENTRY_WRITE_COUNT m3) with 1. apply wrap_small. lia.
    + unfold E3. now apply write_stored_DATA.
    + unfold E3. rewrite write_stored_CRC32 by assumption.
      rewrite Hcrc3. apply wrap_wrap.
Qed.

End Durability.

Section Coexistence.
Context {B : Build}.
Import EEPROMFacts.

(** Two scans from the same address, for different keys: when the first
    finds its entry and the second finds none, the second has stepped over
    every header the first stepped over, and over the entry of the first. *)
Lemma scan_of_other_key fuel : forall E m n m' n',
  _ADDRESS n = _ADDRESS m -> _ENTRY_KEY n <> _ENTRY_KEY m ->
  locate fuel E m = Some (1, m') ->
  locate fuel E n = Some (0, n') ->
  In (_ADDRESS m') (skipped fuel E n) /\
  incl (skipped fuel E m) (skipped fuel E n).
Proof.
  induction fuel as [|fuel IH]; intros E m n m' n' Ha Hk Hm Hn.
  - destruct (Z_lt_le_dec (_ADDRESS m) (EEPROM.length E)) as [Hl|Hge].
    + simpl in Hm. apply Z.ltb_lt in Hl. rewrite Hl in Hm. discriminate.
    + rewrite locate_end in Hm by assumption. discriminate.
  - destruct (Z_lt_le_dec (_ADDRESS m) (EEPROM.length E)) as [Hl|Hge].
    + assert (Hl' : _ADDRESS n < EEPROM.length E) by (rewrite Ha; exact Hl).
      destruct (locate_cases fuel E m Hl) as [[Hv Hloc]|[(Hv & Hkm & Hc & Hloc)|(Hv & Hs & Hloc)]];
        rewrite Hloc in Hm.
      * discriminate.
      * inversion Hm; subst m'.
        rewrite (skipped_found (S fuel) E m) by assumption.
        rewrite (skipped_skip fuel E n);
          [| exact Hl' | rewrite Ha; exact Hv | left; rewrite Ha; congruence].
        split; [left; now symmetry | intros x []].
      * destruct (locate_cases fuel E n Hl') as [[Hvn Hlocn]|[(_ & _ & _ & Hlocn)|(Hvn & Hsn & Hlocn)]];
          rewrite Hlocn in Hn.
        -- rewrite Ha in Hvn. contradiction.
        -- discriminate.
        -- rewrite (skipped_skip fuel E m) by assumption.
           rewrite (skipped_skip fuel E n) by assumption.
           rewrite Ha in *.
           destruct (IH E (set_ADDRESS m (next_ADDRESS E (_ADDRESS m)))
                       (set_ADDRESS n (next_ADDRESS E (_ADDRESS m))) m' n'
                       eq_refl Hk Hm Hn) as [Hin Hincl].
           split; [right; exact Hin|].
           intros x [<-|Hx]; [left; reflexivity | right; now apply Hincl].
    + rewrite locate_end in Hm by assumption. discriminate.
Qed.

(** The scan of a fresh manager, as in [fresh_finds]. *)
Lemma fresh_locates fuel E E' K r1 r2 r ml :
  locate fuel E (initialise (unconstructed r1 K)) = Some (r, ml) ->
  EEPROM.length E' = EEPROM.length E ->
  Forall (same_header E E') (skipped fuel E (initialise (unconstructed r1 K))) ->
  _ADDRESS ml < EEPROM.length E ->
  valid_header E' (_ADDRESS ml) ->
  stored_KEY E' (_ADDRESS ml) = wrap 16 K ->
  stored_WRITE_COUNT E' (_ADDRESS ml) < EEPROM_MAX_WRITES ->
  locate fuel E' (initialise (unconstructed r2 K))
    = Some (1, set_ADDRESS (initialise (unconstructed r2 K)) (_ADDRESS ml)).
Proof.
  intros Hl Hlen Hs Hlt Hv Hk Hc.
  set (n := initialise (unconstructed r2 K)).
  destruct (locate_other fuel E (initialise (unconstructed r1 K)) n r ml) as [Hn Hsk]; auto.
  eapply locate_reaches; eauto.
  now rewrite Hsk.
Qed.

Lemma same_header_refl E a : same_header E E a.
Proof. intros x _. reflexivity. Qed.

(** X3.  Managers bound to different keys share a device without disturbing
    each other: after a second manager, of another key, has been
    constructed over the device the first one left, a fresh manager of the
    first key still finds the first entry and recovers the first manager's
    state.  When the second manager wrote its entry, it lies behind the
    first one.  This is for a first entry whose stored length is not
    smaller than the size of the first manager's record, as it is when that
    manager wrote the entry itself; a manager that has adopted a shorter
    entry of its key is not covered. *)
Theorem managers_of_other_keys_coexist
    (fuel : nat) (E : EEPROM.t) (K1 K2 : Z) (r1 rb r2 : list byte)
    (E1 E2 : EEPROM.t) (m1 m2 : EEPROManager) :
  EEPROManager_new fuel E r1 K1 = Some (E1, m1) ->
  entry_on_device E1 m1 ->
  1 < EEPROM_MAX_WRITES ->
  Forall (no_wrap E) (skipped fuel E (initialise (unconstructed r1 K1))) ->
  Z.of_nat (List.length r1) <= stored_LENGTH E1 (_ADDRESS m1) ->
  wrap 16 K2 <> wrap 16 K1 ->
  EEPROManager_new fuel E1 rb K2 = Some (E2, m2) ->
  Forall (no_wrap E1) (skipped fuel E1 (initialise (unconstructed rb K2))) ->
  List.length r2 = List.length r1 ->
  EEPROManager_new fuel E2 r2 K1 = Some (E2, m1) /\
  (E2 = E1 \/ _ADDRESS m1 + entry_size m1 <= _ADDRESS m2).
Proof.
  intros Hnew Hd Hmax Hnw Hlen1 Hkeys Hnew2 Hnw2 Hr2.
  destruct (construction_facts _ _ _ _ _ _ Hnew Hd Hmax Hnw)
    as ((r & Hl) & Hb & Hlen & Hout & Hv & Hk & Hw & Hcm & Hdat & Hcrc & Hkey & Hc8 & Hlf & Hsz).
  set (n0 := initialise (unconstructed r1 K1)) in *.
  set (n1 := initialise (unconstructed r2 K1)).
  assert (HA1 : _ADDRESS m1 < EEPROM.length E).
  { rewrite <- Hlen. unfold entry_on_device, entry_size, overhead in Hd. lia. }
  (* the fresh scan of the first key on the device the first manager left *)
  assert (Hloc1 : locate fuel E1 n1 = Some (1, set_ADDRESS n1 (_ADDRESS m1))).
  { apply (fresh_locates fuel E E1 K1 r1 r2 r _ Hl); cbn [_ADDRESS set_ADDRESS].
    - exact Hlen.
    - eapply Forall_impl; [|exact Hb].
      intros a Ha x Hx. apply Hout. unfold overhead, off_DATA in *. lia.
    - exact HA1.
    - exact Hv.
    - exact Hk.
    - now rewrite Hw. }
  assert (Hread1 : read E1 (set_ADDRESS n1 (_ADDRESS m1)) = m1).
  { apply read_as; try assumption.
    - reflexivity.
    - rewrite Hsz. exact Hr2.
    - change (wrap 16 K1 = _ENTRY_KEY m1). now symmetry.
    - change (key_crc8 (wrap 16 K1) = _ENTRY_CRC8 m1). now symmetry.
    - change (wrap 16 (Z.of_nat (List.length r2)) = _ENTRY_LENGTH m1).
      now rewrite Hlf, Hr2. }
  unfold EEPROManager_new in Hnew2.
  apply begin_cases in Hnew2 as (rr & ml2 & Hl2 & Hc2).
  destruct Hc2 as [(-> & -> & ->)|(-> & -> & ->)].
  - (* the second manager wrote its entry *)
    destruct (scan_of_other_key fuel E1 n1 (initialise (unconstructed rb K2))
                (set_ADDRESS n1 (_ADDRESS m1)) ml2) as [Hin Hincl]; auto.
    destruct (skipped_behind _ _ _ _ _ Hl2) as [_ Hbeh]; [simpl; lia | exact Hnw2 |].
    rewrite Forall_forall in Hbeh.
    pose proof (Hbeh _ Hin) as Hbehind. cbn [_ADDRESS set_ADDRESS] in Hbehind.
    assert (Hafter : _ADDRESS m1 + entry_size m1 <= _ADDRESS ml2).
    { unfold entry_size. rewrite Hsz. lia. }
    assert (Hhdr : same_header E1 (write E1 ml2) (_ADDRESS m1)).
    { intros x Hx. apply read_write_outside.
      unfold entry_size, overhead, off_DATA in *. lia. }
    pose proof (same_header_fields _ _ _ Hhdr) as (Ek & Ec & Ew & El).
    split; [|right; exact Hafter].
    rewrite (fresh_finds fuel E1 (write E1 ml2) K1 r2 r2 1 _ Hloc1).
    + do 2 f_equal. cbn [_ADDRESS set_ADDRESS]. fold n1.
      apply read_as.
      * reflexivity.
      * rewrite Hsz. exact Hr2.
      * change (wrap 16 K1 = _ENTRY_KEY m1). now symmetry.
      * change (key_crc8 (wrap 16 K1) = _ENTRY_CRC8 m1). now symmetry.
      * change (wrap 16 (Z.of_nat (List.length r2)) = _ENTRY_LENGTH m1).
        now rewrite Hlf, Hr2.
      * now rewrite Ew.
      * rewrite <- Hdat. unfold stored_DATA. apply get_write_outside.
        unfold entry_size, overhead, off_DATA in *. lia.
      * rewrite <- Hcrc. unfold stored_CRC32, EEPROM.get_uint. f_equal.
        apply get_write_outside.
        unfold entry_size, overhead, off_DATA in *. simpl Z.of_nat. lia.
    + apply length_write.
    + rewrite Forall_forall. intros a Ha x Hx.
      apply read_write_outside.
      pose proof (Hbeh a (Hincl a Ha)) as Hba.
      pose proof (get_uint_range E1 (a + off_LENGTH) 2) as Hr.
      unfold stored_LENGTH, overhead, off_DATA in *. lia.
    + cbn [_ADDRESS set_ADDRESS]. now rewrite Hlen.
    + cbn [_ADDRESS set_ADDRESS]. eapply same_header_valid; eauto.
    + cbn [_ADDRESS set_ADDRESS]. now rewrite Ek.
    + cbn [_ADDRESS set_ADDRESS]. rewrite Ew, Hw. exact Hcm.
  - (* the second manager found an entry of its own: nothing was written *)
    split; [|now left].
    unfold EEPROManager_new, begin. fold n1. rewrite Hloc1. simpl. now rewrite Hread1.
Qed.

End Coexistence.

Section Edges.
Context {B : Build}.
Import EEPROMFacts.

(** ** The payload check is never compared *)


(** ** The space test of [update] *)

Lemma space_limit_full E m :
  entry_size m <= EEPROM.length E ->
  EEPROM.length E <= _ADDRESS m + entry_size m ->
  space_limit E m <= _ADDRESS m.
Proof.
  intros H1 H2. unfold space_limit.
  pose proof (wrap_le size_t_bits (EEPROM.length E - entry_size m)). lia.
Qed.

(** X5.  A place where the entry would fit exactly, up to the last cell of the
    device, is refused: the test is a strict comparison, and [update] returns
    [0xFFFFFFFF] having written nothing there. *)
Theorem update_refuses_exact_fit
    (fuel : nat) (E : EEPROM.t) (m : EEPROManager) (r : Z) (m' : EEPROManager) :
  memory_crc32 m <> _ENTRY_CRC32 m ->
  entry_on_device E m ->
  EEPROM_MAX_WRITES <= wrap 32 (_ENTRY_WRITE_COUNT m + 1) ->
  locate fuel (update_in_place E (counted m)) (counted m) = Some (r, m') ->
  _ADDRESS m' + entry_size m' = EEPROM.length E ->
  update fuel E m = Some (0xFFFFFFFF, (update_in_place E (counted m), m')) /\
  forall a, _ADDRESS m + entry_size m <= a ->
            EEPROM.read (update_in_place E (counted m)) a = EEPROM.read E a.
Proof.
  intros Hchg Hd Hmax Hloc Hfit. split.
  - apply (update_exhausted fuel E m r m'); auto.
    apply space_limit_full; rewrite length_update_in_place.
    + rewrite (locate_entry_size _ _ _ _ _ Hloc).
      unfold entry_on_device in Hd. change (entry_size (counted m)) with (entry_size m). lia.
    + lia.
  - intros a Ha. apply update_in_place_elsewhere. right; right. exact Ha.
Qed.

(** X6.  On a device too small for one entry the subtraction of the test wraps
    around in [size_t], the test passes, and [update] reports a relocation
    (it returns 1) although no entry fits the device. *)
Theorem update_on_undersized_device_reports_success
    (fuel : nat) (E : EEPROM.t) (m : EEPROManager) (r : Z) (m' : EEPROManager) :
  memory_crc32 m <> _ENTRY_CRC32 m ->
  EEPROM_MAX_WRITES <= wrap 32 (_ENTRY_WRITE_COUNT m + 1) ->
  locate fuel (update_in_place E (counted m)) (counted m) = Some (r, m') ->
  EEPROM.length E < entry_size m' ->
  0 <= _ADDRESS m' ->
  _ADDRESS m' + (entry_size m' - EEPROM.length E) < 2 ^ size_t_bits ->
  exists E',
    update fuel E m = Some (1, (E', set_WRITE_COUNT m' 1)) /\
    EEPROM.length E' = EEPROM.length E.
Proof.
  intros Hchg Hmax Hloc Hsmall H0 Hbits.
  exists (write (update_in_place E (counted m)) (set_WRITE_COUNT m' 1)).
  split.
  - apply (update_relocated fuel E m r m'); auto.
    unfold space_limit. rewrite length_update_in_place.
    unfold wrap.
    replace (EEPROM.length E - entry_size m')
      with (EEPROM.length E - entry_size m' + 2 ^ size_t_bits + (-1) * 2 ^ size_t_bits) by lia.
    rewrite Z_mod_plus_full.
    assert (0 <= EEPROM.length E) by (unfold EEPROM.length; lia).
    rewrite Z.mod_small; lia.
  - now rewrite length_write, length_update_in_place.
Qed.

(** X7.  A manager left without room stays without room: at an address that is
    free or beyond the device and leaves no room for an entry, the next
    [update] of a changed record that is at or over the limit returns
    [0xFFFFFFFF] again and leaves the manager where it is. *)
Theorem update_stays_exhausted
    (fuel : nat) (E : EEPROM.t) (m : EEPROManager) :
  memory_crc32 m <> _ENTRY_CRC32 m ->
  EEPROM_MAX_WRITES <= wrap 32 (_ENTRY_WRITE_COUNT m + 1) ->
  EEPROM.length E <= _ADDRESS m \/ ~ valid_header E (_ADDRESS m) ->
  entry_size m <= EEPROM.length E ->
  EEPROM.length E <= _ADDRESS m + entry_size m ->
  exists E',
    update (S fuel) E m = Some (0xFFFFFFFF, (E', counted m)) /\
    _ADDRESS (counted m) = _ADDRESS m /\
    (EEPROM.length E' <= _ADDRESS m \/ ~ valid_header E' (_ADDRESS m)).
Proof.
  intros Hchg Hmax Hfree Hsz Hroom.
  set (E' := update_in_place E (counted m)).
  assert (Hlen : EEPROM.length E' = EEPROM.length E) by apply length_update_in_place.
  destruct (update_in_place_header E (counted m)) as (Hk & Hc & _).
  change (_ADDRESS (counted m)) with (_ADDRESS m) in Hk, Hc. fold E' in Hk, Hc.
  assert (Hfree' : EEPROM.length E' <= _ADDRESS m \/ ~ valid_header E' (_ADDRESS m)).
  { destruct Hfree as [Hf|Hf]; [left; lia|right].
    unfold valid_header. now rewrite Hk, Hc. }
  assert (Hloc : locate (S fuel) E' (counted m) = Some (0, counted m)).
  { destruct (Z_lt_le_dec (_ADDRESS m) (EEPROM.length E')) as [Hlt|Hge].
    - destruct Hfree' as [Hf|Hf]; [lia|]. now apply locate_free.
    - now apply locate_end. }
  exists E'. split; [|split; [reflexivity|exact Hfree']].
  apply (update_exhausted (S fuel) E m 0 (counted m)); auto.
  apply space_limit_full; fold E'; rewrite Hlen; auto.
Qed.

End Edges.

Section WipeAndScan.
Context {B : Build}.
Import EEPROMFacts.

(** ** [wipe] and the next construction *)

(** X8.  [wipe] of a manager at address 0 keeps the record across a restart: the
    device is erased, the entry is laid down again with a write count of 1,
    and a manager constructed afterwards with the same key takes over that
    very state. *)
Theorem wipe_at_origin_survives_restart
    (fuel g : nat) (E : EEPROM.t) (m : EEPROManager) (K : Z) (r2 : list byte) :
  crc8 [xFF] <> xFF ->
  _ADDRESS m = 0 -> entry_on_device E m ->
  _ENTRY_KEY m = wrap 16 K ->
  1 < EEPROM_MAX_WRITES ->
  List.length r2 = sizeof_T m ->
  exists E',
    wipe (S fuel) E m = Some (E', initialise m) /\
    EEPROManager_new (S g) E' r2 K = Some (E', initialise m).
Proof.
  intros Hff Ha Hd Hk Hmax Hr2.
  set (E0 := EEPROM.erased (List.length E)).
  exists (write E0 (initialise m)).
  split; [now apply wipe_writes_at_current_address|].
  assert (Hd' : entry_on_device E0 (initialise m)).
  { unfold entry_on_device in *. unfold E0. rewrite length_erased. exact Hd. }
  set (n := initialise (unconstructed r2 K)).
  assert (Hn : _ADDRESS n = _ADDRESS (initialise m)) by (cbn; now rewrite Ha).
  assert (Hloc : locate (S g) (write E0 (initialise m)) n = Some (1, n)).
  { apply locate_found; rewrite Hn.
    - rewrite length_write. unfold entry_on_device, entry_size, overhead in Hd'. lia.
    - apply write_valid_header; [reflexivity|exact Hd'].
    - rewrite write_stored_KEY by exact Hd'.
      change (wrap 16 (_ENTRY_KEY m) = wrap 16 K). rewrite Hk. apply wrap_wrap.
    - rewrite write_stored_WRITE_COUNT by exact Hd'.
      change (wrap 32 1 < EEPROM_MAX_WRITES). rewrite wrap_small; lia. }
  unfold EEPROManager_new, begin. fold n. rewrite Hloc.
  change (1 =? 0) with false. cbv iota. do 2 f_equal.
  apply read_as.
  - exact Hn.
  - exact Hr2.
  - change (wrap 16 K = _ENTRY_KEY m). now symmetry.
  - change (key_crc8 (wrap 16 K) = key_crc8 (_ENTRY_KEY m)). now rewrite Hk.
  - change (wrap 16 (Z.of_nat (List.length r2)) = wrap 16 (Z.of_nat (sizeof_T m))).
    now rewrite Hr2.
  - rewrite write_stored_WRITE_COUNT by exact Hd'.
    change (wrap 32 1 = 1). now apply wrap_small.
  - exact (write_stored_DATA E0 (initialise m) Hd').
  - rewrite (write_stored_CRC32 E0 (initialise m) Hd').
    change (wrap 32 (memory_crc32 m) = memory_crc32 m). apply wrap_wrap.
Qed.


(** ** When the scan returns *)

(** X10.  A header that passes the key check, is not the one looked for, and whose
    stored length wraps the 16-bit address back onto the header itself:
    [locate] started there never returns, and neither does [begin]. *)
Theorem locate_never_returns_on_cycle (E : EEPROM.t) (m : EEPROManager) :
  _ADDRESS m < EEPROM.length E ->
  valid_header E (_ADDRESS m) ->
  stored_KEY E (_ADDRESS m) <> _ENTRY_KEY m \/
    EEPROM_MAX_WRITES <= stored_WRITE_COUNT E (_ADDRESS m) ->
  next_ADDRESS E (_ADDRESS m) = _ADDRESS m ->
  forall fuel, locate fuel E m = None /\ begin fuel E m = None.
Proof.
  intros Hlt Hv Hs Hn.
  assert (Hgen : forall n fuel,
            _ADDRESS n = _ADDRESS m -> _ENTRY_KEY n = _ENTRY_KEY m ->
            locate fuel E n = None).
  { intros n fuel Ha Hk. induction fuel as [|fuel IH].
    - simpl. rewrite Ha. apply Z.ltb_lt in Hlt. now rewrite Hlt.
    - rewrite locate_skip.
      + rewrite Ha, Hn, <- Ha, set_ADDRESS_same. exact IH.
      + now rewrite Ha.
      + now rewrite Ha.
      + now rewrite Ha, Hk. }
  intros fuel. split.
  - now apply Hgen.
  - unfold begin. now rewrite (Hgen (initialise m) fuel).
Qed.

Lemma locate_returns_stepwise fuel : forall E m,
  0 <= _ADDRESS m ->
  EEPROM.length E - _ADDRESS m <= Z.of_nat fuel ->
  Forall (no_wrap E) (skipped fuel E m) ->
  exists r m', locate fuel E m = Some (r, m').
Proof.
  induction fuel as [|fuel IH]; intros E m H0 Hm Hnw.
  - exists 0, m. apply locate_end. lia.
  - destruct (Z_lt_le_dec (_ADDRESS m) (EEPROM.length E)) as [Hlt|Hge];
      [|exists 0, m; apply locate_end; lia].
    destruct (locate_cases fuel E m Hlt) as [[_ Hl]|[(_ & _ & _ & Hl)|(Hv & Hs & Hl)]];
      [eauto|eauto|].
    rewrite Hl. rewrite skipped_skip in Hnw by assumption.
    inversion Hnw as [|? ? Hw Hrest]; subst.
    assert (Hnext : next_ADDRESS E (_ADDRESS m)
                    = _ADDRESS m + (stored_LENGTH E (_ADDRESS m) + overhead)).
    { unfold next_ADDRESS. apply wrap_small.
      pose proof (get_uint_range E (_ADDRESS m + off_LENGTH) 2).
      unfold no_wrap, stored_LENGTH, overhead in *. lia. }
    pose proof (get_uint_range E (_ADDRESS m + off_LENGTH) 2) as Hr.
    apply IH; auto; cbn [_ADDRESS set_ADDRESS]; rewrite Hnext;
      unfold stored_LENGTH, overhead; lia.
Qed.

(** X11.  [begin] returns, with one unit of fuel for each cell from the manager's
    address to the end of the device, when none of the headers the scan
    steps over wraps the 16-bit address; the device keeps its length. *)
Theorem begin_returns_without_wrap (fuel : nat) (E : EEPROM.t) (m : EEPROManager) :
  0 <= _ADDRESS m ->
  EEPROM.length E - _ADDRESS m <= Z.of_nat fuel ->
  Forall (no_wrap E) (skipped fuel E (initialise m)) ->
  exists E' m', begin fuel E m = Some (E', m') /\ EEPROM.length E' = EEPROM.length E.
Proof.
  intros H0 Hm Hnw.
  destruct (locate_returns_stepwise fuel E (initialise m)) as (r & ml & Hl); auto.
  unfold begin. rewrite Hl.
  destruct (r =? 0); eexists; eexists; (split; [reflexivity|]); auto.
  apply length_write.
Qed.

End WipeAndScan.

Section Invariants.
Context {B : Build}.
Import EEPROMFacts.

(** ** The key check covers one byte of the key *)

(** X12.  The check in the header is computed over the low byte of the key only:
    whatever byte [b] takes the place of the high byte of a stored key, the
    header still passes the test of [locate], now as the header of the key
    with [b] as its high byte. *)
Theorem key_check_ignores_high_byte (E : EEPROM.t) (m : EEPROManager) (b : byte) :
  key_checked m -> entry_on_device E m ->
  valid_header (EEPROM.update (write E m) (_ADDRESS m + 1) b) (_ADDRESS m) /\
  stored_KEY (EEPROM.update (write E m) (_ADDRESS m + 1) b) (_ADDRESS m)
    = le_combine [byte.of_Z (_ENTRY_KEY m); b].
Proof.
  intros Hk Hd.
  set (E' := EEPROM.update (write E m) (_ADDRESS m + 1) b).
  assert (Hlen : 0 <= _ADDRESS m + 1 < EEPROM.length (write E m)).
  { rewrite length_write. unfold entry_on_device, entry_size, overhead in Hd. lia. }
  pose proof (write_KEY E m Hd) as Hkey.
  cbn [EEPROM.get le_split] in Hkey. injection Hkey as Hlo _.
  assert (Hget : EEPROM.get E' (_ADDRESS m) 2 = [byte.of_Z (_ENTRY_KEY m); b]).
  { cbn [EEPROM.get]. unfold E'.
    rewrite read_update_other by lia. rewrite Hlo.
    now rewrite read_update_same by exact Hlen. }
  assert (Hst : stored_KEY E' (_ADDRESS m) = le_combine [byte.of_Z (_ENTRY_KEY m); b]).
  { unfold stored_KEY, EEPROM.get_uint. now rewrite Hget. }
  split; [|exact Hst].
  unfold valid_header. rewrite Hst. unfold key_crc8 at 1.
  rewrite (split_le_combine' [byte.of_Z (_ENTRY_KEY m); b] 2 eq_refl).
  unfold stored_CRC8, E'. rewrite read_update_other by (unfold off_CRC8; lia).
  rewrite write_CRC8 by exact Hd. rewrite Hk. reflexivity.
Qed.

(** ** What every state of a manager satisfies *)

Lemma begin_LENGTH fuel E m E' m' :
  begin fuel E m = Some (E', m') ->
  sizeof_T m' = sizeof_T m /\ _ENTRY_LENGTH m' = wrap 16 (Z.of_nat (sizeof_T m)).
Proof.
  intros H. apply begin_cases in H as (r & ml & Hl & Hc).
  apply locate_frame in Hl.
  assert (Hml : sizeof_T ml = sizeof_T m /\ _ENTRY_LENGTH ml = wrap 16 (Z.of_nat (sizeof_T m)))
    by (rewrite Hl; split; reflexivity).
  destruct Hc as [(_ & _ & ->)|(_ & _ & ->)]; auto.
  destruct Hml as [H1 H2]. split; [|exact H2].
  unfold read, sizeof_T at 1. cbn [_MEMORY]. now rewrite length_get.
Qed.

Lemma update_LENGTH fuel E m v E' m' :
  update fuel E m = Some (v, (E', m')) ->
  sizeof_T m' = sizeof_T m /\ _ENTRY_LENGTH m' = _ENTRY_LENGTH m.
Proof.
  unfold update. intros H.
  destruct (memory_crc32 m =? _ENTRY_CRC32 m); [now inversion H; subst|].
  change (set_CRC32 _ _) with (counted m) in H.
  destruct (EEPROM_MAX_WRITES <=? _ENTRY_WRITE_COUNT (counted m)).
  - destruct (locate fuel _ (counted m)) as [[r ml]|] eqn:Hl; [|discriminate].
    apply locate_frame in Hl.
    assert (Hml : sizeof_T ml = sizeof_T m /\ _ENTRY_LENGTH ml = _ENTRY_LENGTH m)
      by (rewrite Hl; split; reflexivity).
    destruct (_ADDRESS ml <? _); inversion H; subst; auto.
  - inversion H; subst. split; reflexivity.
Qed.

(** X13.  In every state a manager goes through, the shadow header describes the
    key and the record: all fields are within their widths, the key check is
    the check of the key, and the length field is the size of the record. *)
Theorem managed_shadow_describes_record (m : EEPROManager) :
  managed m ->
  well_typed m /\ key_checked m /\ _ENTRY_LENGTH m = wrap 16 (Z.of_nat (sizeof_T m)).
Proof.
  intros Hm. split; [now apply managed_well_typed|].
  split; [now apply managed_key_checked|].
  induction Hm as [fuel E MEMORY KEY E' m H | fuel E m v E' m' _ IH H
                  | E m _ IH | fuel E m E' m' _ IH H | m r _ IH Hr].
  - unfold EEPROManager_new in H. apply begin_LENGTH in H as [H1 H2].
    now rewrite H1, H2.
  - apply update_LENGTH in H as [H1 H2]. now rewrite H1, H2.
  - exact IH.
  - unfold wipe in H. apply begin_LENGTH in H as [H1 H2]. now rewrite H1, H2.
  - change (_ENTRY_LENGTH m = wrap 16 (Z.of_nat (List.length r))). now rewrite Hr.
Qed.

(** ** Cells an operation leaves alone *)

(** X14.  For a manager whose entry lies within the device, [update] keeps
    the length of the device and, whichever way it goes, changes no cell
    outside the entry it started at and the entry it ends at; the record
    keeps its size, and unless [update] reports that no room is left, the
    entry it ends at lies within the device as well. *)
Theorem update_touches_own_entries_only
    (fuel : nat) (E : EEPROM.t) (m : EEPROManager) (v : Z)
    (E' : EEPROM.t) (m' : EEPROManager) :
  entry_on_device E m ->
  update fuel E m = Some (v, (E', m')) ->
  EEPROM.length E' = EEPROM.length E /\
  sizeof_T m' = sizeof_T m /\
  (v <> 0xFFFFFFFF -> entry_on_device E' m') /\
  forall a, a < _ADDRESS m \/ _ADDRESS m + entry_size m <= a ->
            a < _ADDRESS m' \/ _ADDRESS m' + entry_size m' <= a ->
            EEPROM.read E' a = EEPROM.read E a.
Proof.
  intros Hd H. pose proof (update_LENGTH _ _ _ _ _ _ H) as [Hs _].
  unfold update in H.
  destruct (memory_crc32 m =? _ENTRY_CRC32 m); [now inversion H; subst|].
  change (set_CRC32 _ _) with (counted m) in H.
  assert (Hin : forall a, a < _ADDRESS m \/ _ADDRESS m + entry_size m <= a ->
                  EEPROM.read (update_in_place E (counted m)) a = EEPROM.read E a).
  { intros a Ha. apply update_in_place_elsewhere.
    change (_ADDRESS (counted m)) with (_ADDRESS m).
    change (entry_size (counted m)) with (entry_size m).
    unfold off_WRITE_COUNT. lia. }
  assert (Hdc : entry_on_device (update_in_place E (counted m)) (counted m)).
  { unfold entry_on_device. rewrite length_update_in_place. exact Hd. }
  destruct (EEPROM_MAX_WRITES <=? _ENTRY_WRITE_COUNT (counted m)).
  - destruct (locate fuel _ (counted m)) as [[r ml]|] eqn:Hl; [|discriminate].
    pose proof (locate_entry_size _ _ _ _ _ Hl) as Hes.
    assert (H0 : 0 <= _ADDRESS ml).
    { eapply locate_ADDRESS_nonneg; [exact Hl|]. apply Hd. }
    destruct (_ADDRESS ml <? _) eqn:Hroom; inversion H; subst.
    + split; [now rewrite length_write, length_update_in_place|].
      split; [exact Hs|]. split.
      * intros _. apply Z.ltb_lt in Hroom. unfold space_limit in Hroom.
        unfold entry_on_device in *. rewrite length_write.
        change (_ADDRESS (set_WRITE_COUNT ml 1)) with (_ADDRESS ml).
        change (entry_size (set_WRITE_COUNT ml 1)) with (entry_size ml).
        rewrite Hes in *.
        pose proof (wrap_le size_t_bits
                      (EEPROM.length (update_in_place E (counted m))
                       - entry_size (counted m))) as Hw.
        change (_ADDRESS (counted m)) with (_ADDRESS m) in Hdc. lia.
      * intros a Ha Ha'.
        rewrite read_write_outside by exact Ha'. now apply Hin.
    + split; [apply length_update_in_place|]. split; [exact Hs|].
      split; [intros Hv; now contradiction Hv|]. auto.
  - inversion H; subst.
    split; [apply length_update_in_place|]. split; [exact Hs|].
    split; [intros _; exact Hdc|]. auto.
Qed.

(** X15.  When [begin], and with it the constructor, returns a manager
    whose entry lies within the device, the device has kept its length and
    no cell outside that entry has changed; the record keeps its size. *)
Theorem begin_touches_own_entry_only
    (fuel : nat) (E : EEPROM.t) (m : EEPROManager) (E' : EEPROM.t) (m' : EEPROManager) :
  begin fuel E m = Some (E', m') ->
  entry_on_device E m' ->
  EEPROM.length E' = EEPROM.length E /\
  sizeof_T m' = sizeof_T m /\
  entry_on_device E' m' /\
  forall a, a < _ADDRESS m' \/ _ADDRESS m' + entry_size m' <= a ->
            EEPROM.read E' a = EEPROM.read E a.
Proof.
  intros H Hd. pose proof (begin_LENGTH _ _ _ _ _ H) as [Hs _].
  apply begin_cases in H as (r & ml & Hl & Hc).
  destruct Hc as [(_ & -> & ->)|(_ & -> & ->)].
  - split; [apply length_write|]. split; [exact Hs|].
    split; [unfold entry_on_device in *; now rewrite length_write|].
    intros a Ha. now apply read_write_outside.
  - auto.
Qed.

End Invariants.

Section RecordSize.
Context {B : Build}.
Import EEPROMFacts.

(** ** The stored length is never compared with the record size *)

Lemma get_firstn E : forall n k idx,
  (n <= k)%nat -> EEPROM.get E idx n = firstn n (EEPROM.get E idx k).
Proof.
  induction n as [|n IH]; intros k idx Hk; [reflexivity|].
  destruct k as [|k]; [lia|].
  cbn [EEPROM.get firstn]. f_equal. apply IH. lia.
Qed.

(** X16.  A manager constructed with the key of an entry takes the entry over
    whatever the size of its own record: with a shorter record it adopts the
    leading bytes of the stored one, and its length field is the size of its
    own record. *)
Theorem construction_ignores_record_size
    (fuel : nat) (E : EEPROM.t) (K : Z) (r1 r2 : list byte)
    (E1 : EEPROM.t) (m1 : EEPROManager) :
  EEPROManager_new fuel E r1 K = Some (E1, m1) ->
  entry_on_device E1 m1 ->
  1 < EEPROM_MAX_WRITES ->
  Forall (no_wrap E) (skipped fuel E (initialise (unconstructed r1 K))) ->
  (List.length r2 <= List.length r1)%nat ->
  exists m2,
    EEPROManager_new fuel E1 r2 K = Some (E1, m2) /\
    _ADDRESS m2 = _ADDRESS m1 /\
    _MEMORY m2 = firstn (List.length r2) (_MEMORY m1) /\
    _ENTRY_LENGTH m2 = wrap 16 (Z.of_nat (List.length r2)) /\
    _ENTRY_WRITE_COUNT m2 = _ENTRY_WRITE_COUNT m1.
Proof.
  intros Hnew Hd Hmax Hnw Hr2.
  destruct (construction_facts _ _ _ _ _ _ Hnew Hd Hmax Hnw)
    as ((r & Hl) & Hb & Hlen & Hout & Hv & Hk & Hw & Hcm & Hdat & Hcrc & Hkey & Hc8 & Hlf & Hsz).
  eexists. split.
  - apply (fresh_finds fuel E E1 K r1 r2 r _ Hl).
    + exact Hlen.
    + eapply Forall_impl; [|exact Hb].
      intros a Ha x Hx. apply Hout. unfold overhead, off_DATA in *. lia.
    + cbn [_ADDRESS set_ADDRESS]. rewrite <- Hlen.
      unfold entry_on_device, entry_size, overhead in Hd. lia.
    + exact Hv.
    + exact Hk.
    + cbn [_ADDRESS set_ADDRESS]. rewrite Hw. exact Hcm.
  - split; [reflexivity|]. split; [|split; [reflexivity|exact Hw]].
    change (EEPROM.get E1 (_ADDRESS m1 + off_DATA) (List.length r2)
            = firstn (List.length r2) (_MEMORY m1)).
    rewrite <- Hdat. unfold stored_DATA. apply get_firstn. now rewrite Hsz.
Qed.

End RecordSize.

Section Dump.
Import EEPROMFacts.

(** ** [print] *)

Lemma hex_digit_inj d d' :
  0 <= d < 16 -> 0 <= d' < 16 -> hex_digit d = hex_digit d' -> d = d'.
Proof.
  intros Hd Hd' H. apply (f_equal N_of_ascii) in H. unfold hex_digit in H.
  destruct (d <? 10) eqn:E1; destruct (d' <? 10) eqn:E2;
    rewrite ?Z.ltb_lt, ?Z.ltb_ge in E1, E2;
    rewrite !N_ascii_embedding in H by lia; lia.
Qed.

Lemma printf_02X_inj b b' : printf_02X b = printf_02X b' -> b = b'.
Proof.
  unfold printf_02X. intros H. injection H as H1 H2.
  pose proof (byte.unsigned_range b) as Rb.
  pose proof (byte.unsigned_range b') as Rb'.
  apply hex_digit_inj in H1;
    [|split; [apply Z.div_pos|apply Z.div_lt_upper_bound]; lia ..].
  apply hex_digit_inj in H2; [|apply Z.mod_pos_bound; lia ..].
  rewrite <- (byte.of_Z_unsigned b), <- (byte.of_Z_unsigned b'). f_equal.
  rewrite (Z.div_mod (byte.unsigned b) 16), (Z.div_mod (byte.unsigned b') 16) by lia.
  now rewrite H1, H2.
Qed.

Lemma print_loop_get n : forall i E stream,
  print_loop n i E stream = stream ++ flat_map printf_02X (EEPROM.get E i n).
Proof.
  induction n as [|n IH]; intros i E stream.
  - simpl. now rewrite app_nil_r.
  - cbn [print_loop EEPROM.get flat_map]. rewrite IH. now rewrite <- app_assoc.
Qed.

Lemma get_all (E : EEPROM.t) : EEPROM.get E 0 (List.length E) = E.
Proof.
  apply device_ext.
  - apply length_get.
  - intros a Ha. unfold EEPROM.length in Ha. rewrite length_get in Ha.
    unfold EEPROM.read at 1.
    replace (EEPROM.in_range _ a) with true
      by (symmetry; apply in_range_iff; unfold EEPROM.length; rewrite length_get; lia).
    rewrite nth_get by lia. f_equal. lia.
Qed.

Lemma print_cells E stream :
  print E stream = stream ++ flat_map printf_02X E ++ ["010"%char].
Proof.
  unfold print. rewrite print_loop_get, get_all. now rewrite <- app_assoc.
Qed.

Lemma dump_inj : forall E E' : list byte,
  flat_map printf_02X E = flat_map printf_02X E' -> E = E'.
Proof.
  induction E as [|x E IH]; intros [|x' E'] H; auto; try discriminate.
  cbn [flat_map] in H. unfold printf_02X at 1 3 in H. cbn [app] in H.
  injection H as H1 H2 H3.
  f_equal; [|now apply IH].
  apply printf_02X_inj. unfold printf_02X. now rewrite H1, H2.
Qed.

Lemma hex_digit_upper d :
  0 <= d < 16 ->
  hex_digit d
  = nth (Z.to_nat d)
      ["0"; "1"; "2"; "3"; "4"; "5"; "6"; "7"; "8"; "9"; "A"; "B"; "C"; "D"; "E"; "F"]%char
      " "%char.
Proof.
  intros H.
  assert (Hc : d = 0 \/ d = 1 \/ d = 2 \/ d = 3 \/ d = 4 \/ d = 5 \/ d = 6 \/ d = 7 \/
               d = 8 \/ d = 9 \/ d = 10 \/ d = 11 \/ d = 12 \/ d = 13 \/ d = 14 \/ d = 15)
    by lia.
  repeat (destruct Hc as [->|Hc]; [reflexivity|]). subst. reflexivity.
Qed.

Lemma printf_02X_upper b :
  printf_02X b
  = [nth (Z.to_nat (byte.unsigned b / 16))
       ["0"; "1"; "2"; "3"; "4"; "5"; "6"; "7"; "8"; "9"; "A"; "B"; "C"; "D"; "E"; "F"]%char
       " "%char;
     nth (Z.to_nat (byte.unsigned b mod 16))
       ["0"; "1"; "2"; "3"; "4"; "5"; "6"; "7"; "8"; "9"; "A"; "B"; "C"; "D"; "E"; "F"]%char
       " "%char;
     " "%char].
Proof.
  pose proof (byte.unsigned_range b) as Rb.
  unfold printf_02X. rewrite !hex_digit_upper; [reflexivity| |].
  - apply Z.mod_pos_bound. lia.
  - split; [apply Z.div_pos|apply Z.div_lt_upper_bound]; lia.
Qed.

(** X17.  [print] appends to the stream, for each cell in order, the two
    hexadecimal digits of its value, high digit first and in upper case,
    followed by a space, and after the last cell a new line: three
    characters for each cell and one more.  The dump loses nothing: two
    devices that print the same text after the same stream hold the same
    cells. *)
Theorem print_appends_hex_dump (E E' : EEPROM.t) (stream : list ascii) :
  print E stream = print E' stream ->
  print E stream
  = stream
    ++ flat_map
         (fun b : byte =>
            [nth (Z.to_nat (byte.unsigned b / 16))
               ["0"; "1"; "2"; "3"; "4"; "5"; "6"; "7";
                "8"; "9"; "A"; "B"; "C"; "D"; "E"; "F"]%char " "%char;
             nth (Z.to_nat (byte.unsigned b mod 16))
               ["0"; "1"; "2"; "3"; "4"; "5"; "6"; "7";
                "8"; "9"; "A"; "B"; "C"; "D"; "E"; "F"]%char " "%char;
             " "%char]) E
    ++ ["010"%char] /\
  List.length (print E stream) = (List.length stream + 3 * List.length E + 1)%nat /\
  E = E'.
Proof.
  intros H.
  split; [|split].
  - rewrite print_cells. f_equal. f_equal. clear H.
    induction E as [|x E IH]; [reflexivity|].
    cbn [flat_map]. now rewrite IH, printf_02X_upper.
  - rewrite print_cells, !length_app. cbn [List.length].
    assert (Hl : forall l : list byte,
              List.length (flat_map printf_02X l) = (3 * List.length l)%nat).
    { induction l as [|x l IHl]; [reflexivity|].
      cbn [flat_map]. rewrite length_app, IHl. cbn [printf_02X List.length]. lia. }
    rewrite Hl. lia.
  - rewrite !print_cells in H.
    apply app_inv_head in H. apply app_inv_tail in H.
    now apply dump_inj.
Qed.

End Dump.

Section ForceDurability.
Context {B : Build}.
Import EEPROMFacts.

(** ** [force] and the next construction *)

(** X18.  [force] makes an assigned record durable without counting a write: a
    manager constructed afterwards with the same key takes over the assigned
    record with the write count as it was, and with the payload check of the
    record that was there before the assignment. *)
Theorem force_survives_restart
    (fuel : nat) (E : EEPROM.t) (K : Z) (r1 r' r2 : list byte)
    (E1 : EEPROM.t) (m1 : EEPROManager) :
  EEPROManager_new fuel E r1 K = Some (E1, m1) ->
  entry_on_device E1 m1 ->
  1 < EEPROM_MAX_WRITES ->
  Forall (no_wrap E) (skipped fuel E (initialise (unconstructed r1 K))) ->
  List.length r' = List.length r1 -> List.length r2 = List.length r1 ->
  exists E2 m2,
    force E1 (set_MEMORY m1 r') = (E2, m2) /\
    EEPROManager_new fuel E2 r2 K = Some (E2, m2) /\
    _MEMORY m2 = r' /\
    _ENTRY_WRITE_COUNT m2 = _ENTRY_WRITE_COUNT m1 /\
    _ENTRY_CRC32 m2 = _ENTRY_CRC32 m1.
Proof.
  intros Hnew Hd Hmax Hnw Hr' Hr2.
  destruct (construction_facts _ _ _ _ _ _ Hnew Hd Hmax Hnw)
    as ((r & Hl) & Hb & Hlen & Hout & Hv & Hk & Hw & Hcm & Hdat & Hcrc & Hkey & Hc8 & Hlf & Hsz).
  set (n := set_MEMORY m1 r').
  assert (Hsn : sizeof_T n = sizeof_T m1).
  { change (List.length r' = sizeof_T m1). now rewrite Hsz. }
  assert (Hdn : entry_on_device E1 n).
  { unfold entry_on_device, entry_size in *. rewrite Hsn. exact Hd. }
  assert (Hkn : key_checked n).
  { unfold key_checked. change (_ENTRY_CRC8 m1 = key_crc8 (_ENTRY_KEY m1)).
    now rewrite Hc8, Hkey. }
  assert (Hcount : stored_WRITE_COUNT (write E1 n) (_ADDRESS m1) = _ENTRY_WRITE_COUNT m1).
  { change (_ADDRESS m1) with (_ADDRESS n).
    rewrite (write_stored_WRITE_COUNT E1 n Hdn).
    change (wrap 32 (_ENTRY_WRITE_COUNT m1) = _ENTRY_WRITE_COUNT m1).
    rewrite <- Hw. apply wrap_small. apply get_uint32_range. }
  exists (write E1 n), n. split; [reflexivity|].
  split; [|repeat split].
  rewrite (fresh_finds fuel E (write E1 n) K r1 r2 r _ Hl).
  - do 2 f_equal. cbn [_ADDRESS set_ADDRESS]. apply read_as.
    + reflexivity.
    + change (List.length r2 = List.length r'). congruence.
    + change (wrap 16 K = _ENTRY_KEY m1). now symmetry.
    + change (key_crc8 (wrap 16 K) = _ENTRY_CRC8 m1). now symmetry.
    + change (wrap 16 (Z.of_nat (List.length r2)) = _ENTRY_LENGTH m1).
      now rewrite Hlf, Hr2.
    + exact Hcount.
    + exact (write_stored_DATA E1 n Hdn).
    + change (stored_CRC32 (write E1 n) (_ADDRESS n) (sizeof_T n) = _ENTRY_CRC32 m1).
      rewrite (write_stored_CRC32 E1 n Hdn).
      change (wrap 32 (_ENTRY_CRC32 m1) = _ENTRY_CRC32 m1).
      rewrite <- Hcrc. apply wrap_small. apply get_uint32_range.
  - rewrite length_write. exact Hlen.
  - eapply Forall_impl; [|exact Hb].
    intros a Ha x Hx.
    rewrite read_write_outside
      by (left; change (_ADDRESS n) with (_ADDRESS m1); unfold overhead, off_DATA in *; lia).
    apply Hout. unfold overhead, off_DATA in *. lia.
  - cbn [_ADDRESS set_ADDRESS]. rewrite <- Hlen.
    unfold entry_on_device, entry_size, overhead in Hd. lia.
  - cbn [_ADDRESS set_ADDRESS]. exact (write_valid_header E1 n Hkn Hdn).
  - cbn [_ADDRESS set_ADDRESS].
    change (_ADDRESS m1) with (_ADDRESS n).
    rewrite (write_stored_KEY E1 n Hdn).
    change (wrap 16 (_ENTRY_KEY m1) = wrap 16 K). rewrite Hkey. apply wrap_wrap.
  - cbn [_ADDRESS set_ADDRESS]. rewrite Hcount. exact Hcm.
Qed.

End ForceDurability.

Section AfterUpdate.
Context {B : Build}.
Import EEPROMFacts.

(** ** After an [update] *)

(** X19.  Whatever an [update] did, the shadow payload check it leaves is the
    checksum of the record, so the calls that follow it, as long as the
    record is not assigned to, return 0 and write nothing.  In particular a
    failure for lack of room is reported once: the next call returns 0. *)
Theorem update_settles
    (fuel g n : nat) (E : EEPROM.t) (m : EEPROManager) (v : Z)
    (E' : EEPROM.t) (m' : EEPROManager) :
  update fuel E m = Some (v, (E', m')) ->
  memory_crc32 m' = _ENTRY_CRC32 m' /\
  updates n g E' m' = Some (repeat 0 n, (E', m')).
Proof.
  intros H.
  assert (Hs : memory_crc32 m' = _ENTRY_CRC32 m').
  { unfold update in H.
    destruct (memory_crc32 m =? _ENTRY_CRC32 m) eqn:Heq.
    - inversion H; subst. now apply Z.eqb_eq.
    - change (set_CRC32 _ _) with (counted m) in H.
      destruct (EEPROM_MAX_WRITES <=? _ENTRY_WRITE_COUNT (counted m)).
      + destruct (locate fuel _ (counted m)) as [[r ml]|] eqn:Hl; [|discriminate].
        apply locate_frame in Hl.
        assert (Hml : memory_crc32 ml = _ENTRY_CRC32 ml) by (rewrite Hl; reflexivity).
        destruct (_ADDRESS ml <? _); inversion H; subst; exact Hml.
      + inversion H; subst. reflexivity. }
  split; [exact Hs|]. now apply updates_same.
Qed.

(** X20.  A record that [update] could not move is lost on restart.  The old
    entry has been written in place with a count at the limit, so a manager
    constructed afterwards for the same key steps over it, ends at the same
    address without room as the relocation scan did, and starts a new entry
    there from its own record with a write count of 1. *)
Theorem exhausted_record_is_lost_on_restart
    (fuel : nat) (E : EEPROM.t) (K : Z) (r1 r' r2 : list byte)
    (E1 : EEPROM.t) (m1 : EEPROManager) (ml : EEPROManager) :
  EEPROManager_new fuel E r1 K = Some (E1, m1) ->
  entry_on_device E1 m1 ->
  1 < EEPROM_MAX_WRITES ->
  Forall (no_wrap E) (skipped fuel E (initialise (unconstructed r1 K))) ->
  List.length r' = List.length r1 ->
  wrap 32 (crc32 r') <> _ENTRY_CRC32 m1 ->
  EEPROM_MAX_WRITES <= wrap 32 (_ENTRY_WRITE_COUNT m1 + 1) ->
  locate fuel (update_in_place E1 (counted (set_MEMORY m1 r'))) (counted (set_MEMORY m1 r'))
    = Some (0, ml) ->
  EEPROM.length E1 <= _ADDRESS ml + entry_size ml ->
  exists E2 n,
    update fuel E1 (set_MEMORY m1 r') = Some (0xFFFFFFFF, (E2, ml)) /\
    stored_DATA E2 (_ADDRESS m1) (List.length r') = r' /\
    (forall g, (fuel + fuel <= g)%nat ->
               EEPROManager_new g E2 r2 K = Some (write E2 n, n)) /\
    _ADDRESS n = _ADDRESS ml /\ _MEMORY n = r2 /\ _ENTRY_WRITE_COUNT n = 1.
Proof.
  intros Hnew Hd Hmax Hnw Hr' Hchg Hcnt Hloc Hroom.
  destruct (construction_facts _ _ _ _ _ _ Hnew Hd Hmax Hnw)
    as ((r0 & Hl) & Hb & Hlen & Hout & Hv & Hk & Hw & _ & _ & _ & Hkey & Hc8 & Hlf & Hsz).
  set (ma := set_MEMORY m1 r') in *.
  set (mc := counted ma) in *.
  set (E2 := update_in_place E1 mc) in *.
  assert (HlenE2 : EEPROM.length E2 = EEPROM.length E1)
    by (unfold E2; apply length_update_in_place).
  assert (Hsa : sizeof_T mc = sizeof_T m1).
  { change (List.length r' = sizeof_T m1). now rewrite Hsz. }
  assert (Hdc : entry_on_device E1 mc).
  { unfold entry_on_device, entry_size in *. rewrite Hsa. exact Hd. }
  set (n := initialise (unconstructed r2 K)).
  exists E2, (set_ADDRESS n (_ADDRESS ml)).
  split; [|split; [|split; [|repeat split]]].
  - apply (update_exhausted fuel E1 ma 0 ml); auto.
    apply space_limit_full; fold mc E2; rewrite HlenE2.
    + rewrite (locate_entry_size _ _ _ _ _ Hloc).
      unfold entry_on_device in Hdc. change (_ADDRESS mc) with (_ADDRESS m1) in Hdc. lia.
    + exact Hroom.
  - change (_ADDRESS m1) with (_ADDRESS mc).
    change (List.length r') with (sizeof_T mc).
    unfold E2. rewrite (update_in_place_stored_DATA E1 mc Hdc). reflexivity.
  - intros g Hg.
    assert (HA : locate fuel E2 (set_ADDRESS n (_ADDRESS m1))
                 = Some (0, set_ADDRESS (set_ADDRESS n (_ADDRESS m1)) (_ADDRESS ml))).
    { destruct (locate_other fuel E2 mc (set_ADDRESS n (_ADDRESS m1)) 0 ml) as [Hn _];
        [reflexivity | exact (eq_sym Hkey) | exact Hloc | exact Hn]. }
    assert (HB : locate (fuel + fuel) E2 n = Some (0, set_ADDRESS n (_ADDRESS ml))).
    { destruct (locate_other fuel E (initialise (unconstructed r1 K)) n r0
                  (set_ADDRESS (initialise (unconstructed r1 K)) (_ADDRESS m1))) as [Hn Hsk];
        [reflexivity | reflexivity | exact Hl |].
      eapply (locate_resume fuel E E2); [exact Hn | | | exact HA].
      - now rewrite HlenE2.
      - rewrite Hsk. eapply Forall_impl; [|exact Hb].
        intros a Ha x Hx.
        unfold E2. rewrite update_in_place_elsewhere
          by (change (_ADDRESS mc) with (_ADDRESS m1);
              unfold overhead, off_DATA, off_WRITE_COUNT in *; lia).
        apply Hout. unfold overhead, off_DATA in *. lia. }
    assert (HC : locate g E2 n = Some (0, set_ADDRESS n (_ADDRESS ml))).
    { replace g with (fuel + fuel + (g - (fuel + fuel)))%nat by lia.
      now apply locate_more_fuel. }
    unfold EEPROManager_new, begin. fold n. rewrite HC. reflexivity.
Qed.

End AfterUpdate.

(** ** Instances of the further properties *)

Lemma fresh_manager_recovers_update_on_fresh64_default :
  EEPROManager_new (B := default_limit) 4 (EEPROM.erased 64) record_a 1
    = Some (fst fresh64_default, snd fresh64_default) /\
  entry_on_device (fst fresh64_default) (snd fresh64_default) /\
  1 < EEPROM_MAX_WRITES (Build := default_limit) /\
  Forall (no_wrap (EEPROM.erased 64))
    (skipped (B := default_limit) 4 (EEPROM.erased 64)
       (initialise (B := default_limit) (unconstructed record_a 1))) /\
  List.length record_b = List.length record_a /\
  List.length record_a = List.length record_a /\
  wrap 32 (crc32 (Build := default_limit) record_b) <> _ENTRY_CRC32 (snd fresh64_default) /\
  wrap 32 (_ENTRY_WRITE_COUNT (snd fresh64_default) + 1)
    < EEPROM_MAX_WRITES (Build := default_limit) /\
  exists E2 m2,
    update (B := default_limit) 4 (fst fresh64_default)
        (set_MEMORY (snd fresh64_default) record_b)
      = Some (wrap 32 (_ENTRY_WRITE_COUNT (snd fresh64_default) + 1), (E2, m2)) /\
    EEPROManager_new (B := default_limit) 4 E2 record_a 1 = Some (E2, m2) /\
    _MEMORY m2 = record_b /\ _ADDRESS m2 = _ADDRESS (snd fresh64_default) /\
    _ENTRY_WRITE_COUNT m2 = wrap 32 (_ENTRY_WRITE_COUNT (snd fresh64_default) + 1).
Proof.
  assert (H1 : EEPROManager_new (B := default_limit) 4 (EEPROM.erased 64) record_a 1
               = Some (fst fresh64_default, snd fresh64_default)) by evaluate.
  assert (H2 : entry_on_device (fst fresh64_default) (snd fresh64_default)) by evaluate.
  assert (H3 : 1 < EEPROM_MAX_WRITES (Build := default_limit)) by evaluate.
  assert (Hs : skipped (B := default_limit) 4 (EEPROM.erased 64)
                 (initialise (B := default_limit) (unconstructed record_a 1)) = [])
    by evaluate.
  assert (H4 : Forall (no_wrap (EEPROM.erased 64))
                 (skipped (B := default_limit) 4 (EEPROM.erased 64)
                    (initialise (B := default_limit) (unconstructed record_a 1)))).
  { rewrite Hs. constructor. }
  assert (H5 : List.length record_b = List.length record_a) by reflexivity.
  assert (H6 : List.length record_a = List.length record_a) by reflexivity.
  assert (H7 : wrap 32 (crc32 (Build := default_limit) record_b)
               <> _ENTRY_CRC32 (snd fresh64_default)) by evaluate.
  assert (H8 : wrap 32 (_ENTRY_WRITE_COUNT (snd fresh64_default) + 1)
               < EEPROM_MAX_WRITES (Build := default_limit)) by evaluate.
  exact (conj H1 (conj H2 (conj H3 (conj H4 (conj H5 (conj H6 (conj H7 (conj H8
    (@fresh_manager_recovers_update default_limit 4 (EEPROM.erased 64) 1
       record_a record_b record_a _ _ H1 H2 H3 H4 H5 H6 H7 H8))))))))).
Defined.

Lemma fresh_manager_recovers_relocation_on_changed64 :
  EEPROManager_new (B := two_writes) 4 (EEPROM.erased 64) record_a 1
    = Some (fst fresh64, snd fresh64) /\
  entry_on_device (fst fresh64) (snd fresh64) /\
  1 < EEPROM_MAX_WRITES (Build := two_writes) /\
  Forall (no_wrap (EEPROM.erased 64))
    (skipped (B := two_writes) 4 (EEPROM.erased 64)
       (initialise (B := two_writes) (unconstructed record_a 1))) /\
  List.length record_b = List.length record_a /\
  List.length record_a = List.length record_a /\
  wrap 32 (crc32 (Build := two_writes) record_b) <> _ENTRY_CRC32 (snd fresh64) /\
  EEPROM_MAX_WRITES (Build := two_writes) <= wrap 32 (_ENTRY_WRITE_COUNT (snd fresh64) + 1) /\
  locate (B := two_writes) 4
      (update_in_place (fst fresh64)
         (counted (B := two_writes) (set_MEMORY (snd fresh64) record_b)))
      (counted (B := two_writes) (set_MEMORY (snd fresh64) record_b))
    = Some (0, scanned64) /\
  Forall (no_wrap (update_in_place (fst fresh64)
                     (counted (B := two_writes) (set_MEMORY (snd fresh64) record_b))))
    (skipped (B := two_writes) 4
       (update_in_place (fst fresh64)
          (counted (B := two_writes) (set_MEMORY (snd fresh64) record_b)))
       (counted (B := two_writes) (set_MEMORY (snd fresh64) record_b))) /\
  _ADDRESS scanned64 + entry_size scanned64 < EEPROM.length (fst fresh64) /\
  EEPROM.length (fst fresh64) < 2 ^ size_t_bits (Build := two_writes) /\
  exists E3 m3,
    update (B := two_writes) 4 (fst fresh64) (set_MEMORY (snd fresh64) record_b)
      = Some (1, (E3, m3)) /\
    (forall g, (4 + (4 + 1) <= g)%nat ->
               EEPROManager_new (B := two_writes) g E3 record_a 1 = Some (E3, m3)) /\
    _MEMORY m3 = record_b /\ _ENTRY_WRITE_COUNT m3 = 1 /\
    _ADDRESS m3 = _ADDRESS scanned64 /\ _ADDRESS (snd fresh64) <= _ADDRESS m3.
Proof.
  assert (H1 : EEPROManager_new (B := two_writes) 4 (EEPROM.erased 64) record_a 1
               = Some (fst fresh64, snd fresh64)) by evaluate.
  assert (H2 : entry_on_device (fst fresh64) (snd fresh64)) by evaluate.
  assert (H3 : 1 < EEPROM_MAX_WRITES (Build := two_writes)) by evaluate.
  assert (Hs : skipped (B := two_writes) 4 (EEPROM.erased 64)
                 (initialise (B := two_writes) (unconstructed record_a 1)) = [])
    by evaluate.
  assert (H4 : Forall (no_wrap (EEPROM.erased 64))
                 (skipped (B := two_writes) 4 (EEPROM.erased 64)
                    (initialise (B := two_writes) (unconstructed record_a 1)))).
  { rewrite Hs. constructor. }
  assert (H5 : List.length record_b = List.length record_a) by reflexivity.
  assert (H6 : List.length record_a = List.length record_a) by reflexivity.
  assert (H7 : wrap 32 (crc32 (Build := two_writes) record_b)
               <> _ENTRY_CRC32 (snd fresh64)) by evaluate.
  assert (H8 : EEPROM_MAX_WRITES (Build := two_writes)
               <= wrap 32 (_ENTRY_WRITE_COUNT (snd fresh64) + 1)) by evaluate.
  assert (H9 : locate (B := two_writes) 4
                 (update_in_place (fst fresh64)
                    (counted (B := two_writes) (set_MEMORY (snd fresh64) record_b)))
                 (counted (B := two_writes) (set_MEMORY (snd fresh64) record_b))
               = Some (0, scanned64)) by evaluate.
  assert (Hs' : skipped (B := two_writes) 4
                  (update_in_place (fst fresh64)
                     (counted (B := two_writes) (set_MEMORY (snd fresh64) record_b)))
                  (counted (B := two_writes) (set_MEMORY (snd fresh64) record_b)) = [0])
    by evaluate.
  assert (H10 : Forall (no_wrap (update_in_place (fst fresh64)
                     (counted (B := two_writes) (set_MEMORY (snd fresh64) record_b))))
                  (skipped (B := two_writes) 4
                     (update_in_place (fst fresh64)
                        (counted (B := two_writes) (set_MEMORY (snd fresh64) record_b)))
                     (counted (B := two_writes) (set_MEMORY (snd fresh64) record_b)))).
  { rewrite Hs'. constructor; [evaluate | constructor]. }
  assert (H11 : _ADDRESS scanned64 + entry_size scanned64 < EEPROM.length (fst fresh64))
    by evaluate.
  assert (H12 : EEPROM.length (fst fresh64) < 2 ^ size_t_bits (Build := two_writes))
    by evaluate.
  exact (conj H1 (conj H2 (conj H3 (conj H4 (conj H5 (conj H6 (conj H7 (conj H8
    (conj H9 (conj H10 (conj H11 (conj H12
    (@fresh_manager_recovers_relocation two_writes 4 (EEPROM.erased 64) 1
       record_a record_b record_a _ _ 0 scanned64
       H1 H2 H3 H4 H5 H6 H7 H8 H9 H10 H11 H12))))))))))))).
Defined.

Lemma managers_of_other_keys_coexist_on_shared64 :
  EEPROManager_new (B := two_writes) 4 (EEPROM.erased 64) record_b 2
    = Some (shared64, owner64) /\
  entry_on_device shared64 owner64 /\
  1 < EEPROM_MAX_WRITES (Build := two_writes) /\
  Forall (no_wrap (EEPROM.erased 64))
    (skipped (B := two_writes) 4 (EEPROM.erased 64)
       (initialise (B := two_writes) (unconstructed record_b 2))) /\
  Z.of_nat (List.length record_b) <= stored_LENGTH shared64 (_ADDRESS owner64) /\
  wrap 16 1 <> wrap 16 2 /\
  EEPROManager_new (B := two_writes) 4 shared64 record_a 1
    = Some (fst joined64, snd joined64) /\
  Forall (no_wrap shared64)
    (skipped (B := two_writes) 4 shared64
       (initialise (B := two_writes) (unconstructed record_a 1))) /\
  List.length record_a = List.length record_b /\
  EEPROManager_new (B := two_writes) 4 (fst joined64) record_a 2
    = Some (fst joined64, owner64) /\
  (fst joined64 = shared64 \/
   _ADDRESS owner64 + entry_size owner64 <= _ADDRESS (snd joined64)).
Proof.
  assert (H1 : EEPROManager_new (B := two_writes) 4 (EEPROM.erased 64) record_b 2
               = Some (shared64, owner64)) by evaluate.
  assert (H2 : entry_on_device shared64 owner64) by evaluate.
  assert (H3 : 1 < EEPROM_MAX_WRITES (Build := two_writes)) by evaluate.
  assert (Hs : skipped (B := two_writes) 4 (EEPROM.erased 64)
                 (initialise (B := two_writes) (unconstructed record_b 2)) = [])
    by evaluate.
  assert (H4 : Forall (no_wrap (EEPROM.erased 64))
                 (skipped (B := two_writes) 4 (EEPROM.erased 64)
                    (initialise (B := two_writes) (unconstructed record_b 2)))).
  { rewrite Hs. constructor. }
  assert (H5 : Z.of_nat (List.length record_b) <= stored_LENGTH shared64 (_ADDRESS owner64))
    by (vm_compute; intro; discriminate).
  assert (H6 : wrap 16 1 <> wrap 16 2) by evaluate.
  assert (H7 : EEPROManager_new (B := two_writes) 4 shared64 record_a 1
               = Some (fst joined64, snd joined64)) by evaluate.
  assert (Hs' : skipped (B := two_writes) 4 shared64
                  (initialise (B := two_writes) (unconstructed record_a 1)) = [0])
    by evaluate.
  assert (H8 : Forall (no_wrap shared64)
                 (skipped (B := two_writes) 4 shared64
                    (initialise (B := two_writes) (unconstructed record_a 1)))).
  { rewrite Hs'. constructor; [evaluate | constructor]. }
  assert (H9 : List.length record_a = List.length record_b) by reflexivity.
  exact (conj H1 (conj H2 (conj H3 (conj H4 (conj H5 (conj H6 (conj H7 (conj H8 (conj H9
    (@managers_of_other_keys_coexist two_writes 4 (EEPROM.erased 64) 2 1
       record_b record_a record_a _ _ _ _ H1 H2 H3 H4 H5 H6 H7 H8 H9)))))))))).
Defined.


Lemma update_refuses_exact_fit_on_changed34 :
  memory_crc32 (B := two_writes) (snd changed34) <> _ENTRY_CRC32 (snd changed34) /\
  entry_on_device (fst changed34) (snd changed34) /\
  EEPROM_MAX_WRITES (Build := two_writes)
    <= wrap 32 (_ENTRY_WRITE_COUNT (snd changed34) + 1) /\
  locate (B := two_writes) 4
      (update_in_place (fst changed34) (counted (B := two_writes) (snd changed34)))
      (counted (B := two_writes) (snd changed34))
    = Some (0, scanned34) /\
  _ADDRESS scanned34 + entry_size scanned34 = EEPROM.length (fst changed34) /\
  update (B := two_writes) 4 (fst changed34) (snd changed34)
    = Some (0xFFFFFFFF,
            (update_in_place (fst changed34) (counted (B := two_writes) (snd changed34)),
             scanned34)) /\
  forall a, _ADDRESS (snd changed34) + entry_size (snd changed34) <= a ->
            EEPROM.read
              (update_in_place (fst changed34) (counted (B := two_writes) (snd changed34))) a
            = EEPROM.read (fst changed34) a.
Proof.
  assert (H1 : memory_crc32 (B := two_writes) (snd changed34)
               <> _ENTRY_CRC32 (snd changed34)) by evaluate.
  assert (H2 : entry_on_device (fst changed34) (snd changed34)) by evaluate.
  assert (H3 : EEPROM_MAX_WRITES (Build := two_writes)
               <= wrap 32 (_ENTRY_WRITE_COUNT (snd changed34) + 1)) by evaluate.
  assert (H4 : locate (B := two_writes) 4
                 (update_in_place (fst changed34) (counted (B := two_writes) (snd changed34)))
                 (counted (B := two_writes) (snd changed34))
               = Some (0, scanned34)) by evaluate.
  assert (H5 : _ADDRESS scanned34 + entry_size scanned34 = EEPROM.length (fst changed34))
    by evaluate.
  exact (conj H1 (conj H2 (conj H3 (conj H4 (conj H5
    (@update_refuses_exact_fit two_writes 4 (fst changed34) (snd changed34) 0 scanned34
       H1 H2 H3 H4 H5)))))).
Defined.

Lemma update_on_undersized_device_reports_success_on_changed16 :
  memory_crc32 (B := two_writes) (snd changed16) <> _ENTRY_CRC32 (snd changed16) /\
  EEPROM_MAX_WRITES (Build := two_writes)
    <= wrap 32 (_ENTRY_WRITE_COUNT (snd changed16) + 1) /\
  locate (B := two_writes) 4
      (update_in_place (fst changed16) (counted (B := two_writes) (snd changed16)))
      (counted (B := two_writes) (snd changed16))
    = Some (0, scanned16) /\
  EEPROM.length (fst changed16) < entry_size scanned16 /\
  0 <= _ADDRESS scanned16 /\
  _ADDRESS scanned16 + (entry_size scanned16 - EEPROM.length (fst changed16))
    < 2 ^ size_t_bits (Build := two_writes) /\
  exists E',
    update (B := two_writes) 4 (fst changed16) (snd changed16)
      = Some (1, (E', set_WRITE_COUNT scanned16 1)) /\
    EEPROM.length E' = EEPROM.length (fst changed16).
Proof.
  assert (H1 : memory_crc32 (B := two_writes) (snd changed16)
               <> _ENTRY_CRC32 (snd changed16)) by evaluate.
  assert (H2 : EEPROM_MAX_WRITES (Build := two_writes)
               <= wrap 32 (_ENTRY_WRITE_COUNT (snd changed16) + 1)) by evaluate.
  assert (H3 : locate (B := two_writes) 4
                 (update_in_place (fst changed16) (counted (B := two_writes) (snd changed16)))
                 (counted (B := two_writes) (snd changed16))
               = Some (0, scanned16)) by evaluate.
  assert (H4 : EEPROM.length (fst changed16) < entry_size scanned16) by evaluate.
  assert (H5 : 0 <= _ADDRESS scanned16) by evaluate.
  assert (H6 : _ADDRESS scanned16 + (entry_size scanned16 - EEPROM.length (fst changed16))
               < 2 ^ size_t_bits (Build := two_writes)) by evaluate.
  exact (conj H1 (conj H2 (conj H3 (conj H4 (conj H5 (conj H6
    (@update_on_undersized_device_reports_success two_writes 4
       (fst changed16) (snd changed16) 0 scanned16 H1 H2 H3 H4 H5 H6))))))).
Defined.

Lemma update_stays_exhausted_on_stuck20 :
  memory_crc32 (B := two_writes) (snd stuck20) <> _ENTRY_CRC32 (snd stuck20) /\
  EEPROM_MAX_WRITES (Build := two_writes)
    <= wrap 32 (_ENTRY_WRITE_COUNT (snd stuck20) + 1) /\
  (EEPROM.length (fst stuck20) <= _ADDRESS (snd stuck20) \/
   ~ valid_header (B := two_writes) (fst stuck20) (_ADDRESS (snd stuck20))) /\
  entry_size (snd stuck20) <= EEPROM.length (fst stuck20) /\
  EEPROM.length (fst stuck20) <= _ADDRESS (snd stuck20) + entry_size (snd stuck20) /\
  _ADDRESS (snd stuck20) = 17 /\
  exists E',
    update (B := two_writes) 4 (fst stuck20) (snd stuck20)
      = Some (0xFFFFFFFF, (E', counted (B := two_writes) (snd stuck20))) /\
    _ADDRESS (counted (B := two_writes) (snd stuck20)) = _ADDRESS (snd stuck20) /\
    (EEPROM.length E' <= _ADDRESS (snd stuck20) \/
     ~ valid_header (B := two_writes) E' (_ADDRESS (snd stuck20))).
Proof.
  assert (H1 : memory_crc32 (B := two_writes) (snd stuck20)
               <> _ENTRY_CRC32 (snd stuck20)) by evaluate.
  assert (H2 : EEPROM_MAX_WRITES (Build := two_writes)
               <= wrap 32 (_ENTRY_WRITE_COUNT (snd stuck20) + 1)) by evaluate.
  assert (H3 : EEPROM.length (fst stuck20) <= _ADDRESS (snd stuck20) \/
               ~ valid_header (B := two_writes) (fst stuck20) (_ADDRESS (snd stuck20)))
    by (right; evaluate).
  assert (H4 : entry_size (snd stuck20) <= EEPROM.length (fst stuck20)) by evaluate.
  assert (H5 : EEPROM.length (fst stuck20)
               <= _ADDRESS (snd stuck20) + entry_size (snd stuck20)) by evaluate.
  assert (H6 : _ADDRESS (snd stuck20) = 17) by evaluate.
  exact (conj H1 (conj H2 (conj H3 (conj H4 (conj H5 (conj H6
    (@update_stays_exhausted two_writes 3 (fst stuck20) (snd stuck20)
       H1 H2 H3 H4 H5))))))).
Defined.

Lemma wipe_at_origin_survives_restart_on_changed64 :
  crc8 (Build := two_writes) [xFF] <> xFF /\
  _ADDRESS (snd changed64) = 0 /\
  entry_on_device (fst changed64) (snd changed64) /\
  _ENTRY_KEY (snd changed64) = wrap 16 1 /\
  1 < EEPROM_MAX_WRITES (Build := two_writes) /\
  List.length record_a = sizeof_T (snd changed64) /\
  exists E',
    wipe (B := two_writes) 4 (fst changed64) (snd changed64)
      = Some (E', initialise (B := two_writes) (snd changed64)) /\
    EEPROManager_new (B := two_writes) 4 E' record_a 1
      = Some (E', initialise (B := two_writes) (snd changed64)).
Proof.
  assert (H1 : crc8 (Build := two_writes) [xFF] <> xFF) by evaluate.
  assert (H2 : _ADDRESS (snd changed64) = 0) by evaluate.
  assert (H3 : entry_on_device (fst changed64) (snd changed64)) by evaluate.
  assert (H4 : _ENTRY_KEY (snd changed64) = wrap 16 1) by evaluate.
  assert (H5 : 1 < EEPROM_MAX_WRITES (Build := two_writes)) by evaluate.
  assert (H6 : List.length record_a = sizeof_T (snd changed64)) by evaluate.
  exact (conj H1 (conj H2 (conj H3 (conj H4 (conj H5 (conj H6
    (@wipe_at_origin_survives_restart two_writes 3 3 (fst changed64) (snd changed64)
       1 record_a H1 H2 H3 H4 H5 H6))))))).
Defined.


Lemma locate_never_returns_on_cycle_on_cyclic64 :
  _ADDRESS newcomer < EEPROM.length cyclic64 /\
  valid_header (B := two_writes) cyclic64 (_ADDRESS newcomer) /\
  (stored_KEY cyclic64 (_ADDRESS newcomer) <> _ENTRY_KEY newcomer \/
   EEPROM_MAX_WRITES (Build := two_writes)
     <= stored_WRITE_COUNT cyclic64 (_ADDRESS newcomer)) /\
  next_ADDRESS cyclic64 (_ADDRESS newcomer) = _ADDRESS newcomer /\
  stored_LENGTH cyclic64 0 = 65523 /\
  forall fuel,
    locate (B := two_writes) fuel cyclic64 newcomer = None /\
    begin (B := two_writes) fuel cyclic64 newcomer = None.
Proof.
  assert (H1 : _ADDRESS newcomer < EEPROM.length cyclic64) by evaluate.
  assert (H2 : valid_header (B := two_writes) cyclic64 (_ADDRESS newcomer)) by evaluate.
  assert (H3 : stored_KEY cyclic64 (_ADDRESS newcomer) <> _ENTRY_KEY newcomer \/
               EEPROM_MAX_WRITES (Build := two_writes)
                 <= stored_WRITE_COUNT cyclic64 (_ADDRESS newcomer))
    by (left; evaluate).
  assert (H4 : next_ADDRESS cyclic64 (_ADDRESS newcomer) = _ADDRESS newcomer) by evaluate.
  assert (H5 : stored_LENGTH cyclic64 0 = 65523) by evaluate.
  exact (conj H1 (conj H2 (conj H3 (conj H4 (conj H5
    (@locate_never_returns_on_cycle two_writes cyclic64 newcomer H1 H2 H3 H4)))))).
Defined.

Lemma begin_returns_without_wrap_on_shared64 :
  0 <= _ADDRESS (unconstructed record_a 1) /\
  EEPROM.length shared64 - _ADDRESS (unconstructed record_a 1) <= Z.of_nat 64 /\
  Forall (no_wrap shared64)
    (skipped (B := two_writes) 64 shared64
       (initialise (B := two_writes) (unconstructed record_a 1))) /\
  exists E' m',
    begin (B := two_writes) 64 shared64 (unconstructed record_a 1) = Some (E', m') /\
    EEPROM.length E' = EEPROM.length shared64.
Proof.
  assert (H1 : 0 <= _ADDRESS (unconstructed record_a 1)) by evaluate.
  assert (H2 : EEPROM.length shared64 - _ADDRESS (unconstructed record_a 1) <= Z.of_nat 64)
    by evaluate.
  assert (Hs : skipped (B := two_writes) 64 shared64
                 (initialise (B := two_writes) (unconstructed record_a 1)) = [0])
    by evaluate.
  assert (H3 : Forall (no_wrap shared64)
                 (skipped (B := two_writes) 64 shared64
                    (initialise (B := two_writes) (unconstructed record_a 1)))).
  { rewrite Hs. constructor; [evaluate | constructor]. }
  exact (conj H1 (conj H2 (conj H3
    (@begin_returns_without_wrap two_writes 64 shared64 (unconstructed record_a 1)
       H1 H2 H3)))).
Defined.

Lemma key_check_ignores_high_byte_on_fresh64 :
  key_checked (B := two_writes) (snd fresh64) /\
  entry_on_device (fst fresh64) (snd fresh64) /\
  valid_header (B := two_writes)
    (EEPROM.update (write (fst fresh64) (snd fresh64)) (_ADDRESS (snd fresh64) + 1) Byte.x01)
    (_ADDRESS (snd fresh64)) /\
  stored_KEY
    (EEPROM.update (write (fst fresh64) (snd fresh64)) (_ADDRESS (snd fresh64) + 1) Byte.x01)
    (_ADDRESS (snd fresh64))
    = le_combine [byte.of_Z (_ENTRY_KEY (snd fresh64)); Byte.x01].
Proof.
  assert (H1 : key_checked (B := two_writes) (snd fresh64)) by evaluate.
  assert (H2 : entry_on_device (fst fresh64) (snd fresh64)) by evaluate.
  exact (conj H1 (conj H2
    (@key_check_ignores_high_byte two_writes (fst fresh64) (snd fresh64) Byte.x01 H1 H2))).
Defined.

Lemma managed_shadow_describes_record_on_changed64 :
  managed (B := two_writes) (snd changed64) /\
  well_typed (snd changed64) /\
  key_checked (B := two_writes) (snd changed64) /\
  _ENTRY_LENGTH (snd changed64) = wrap 16 (Z.of_nat (sizeof_T (snd changed64))).
Proof.
  exact (conj changed64_is_managed
    (@managed_shadow_describes_record two_writes (snd changed64) changed64_is_managed)).
Defined.

Lemma update_touches_own_entries_only_on_changed64 :
  entry_on_device (fst changed64) (snd changed64) /\
  update (B := two_writes) 4 (fst changed64) (snd changed64)
    = Some (1, (fst relocated64, snd relocated64)) /\
  EEPROM.length (fst relocated64) = EEPROM.length (fst changed64) /\
  sizeof_T (snd relocated64) = sizeof_T (snd changed64) /\
  (1 <> 0xFFFFFFFF -> entry_on_device (fst relocated64) (snd relocated64)) /\
  forall a, a < _ADDRESS (snd changed64) \/
            _ADDRESS (snd changed64) + entry_size (snd changed64) <= a ->
            a < _ADDRESS (snd relocated64) \/
            _ADDRESS (snd relocated64) + entry_size (snd relocated64) <= a ->
            EEPROM.read (fst relocated64) a = EEPROM.read (fst changed64) a.
Proof.
  assert (H0 : entry_on_device (fst changed64) (snd changed64)) by evaluate.
  assert (H1 : update (B := two_writes) 4 (fst changed64) (snd changed64)
               = Some (1, (fst relocated64, snd relocated64))) by evaluate.
  exact (conj H0 (conj H1
    (@update_touches_own_entries_only two_writes 4 (fst changed64) (snd changed64) 1
       (fst relocated64) (snd relocated64) H0 H1))).
Defined.

Lemma begin_touches_own_entry_only_on_shared64 :
  begin (B := two_writes) 4 shared64 (unconstructed record_a 1)
    = Some (fst joined64, snd joined64) /\
  entry_on_device shared64 (snd joined64) /\
  EEPROM.length (fst joined64) = EEPROM.length shared64 /\
  sizeof_T (snd joined64) = sizeof_T (unconstructed record_a 1) /\
  entry_on_device (fst joined64) (snd joined64) /\
  forall a, a < _ADDRESS (snd joined64) \/
            _ADDRESS (snd joined64) + entry_size (snd joined64) <= a ->
            EEPROM.read (fst joined64) a = EEPROM.read shared64 a.
Proof.
  assert (H1 : begin (B := two_writes) 4 shared64 (unconstructed record_a 1)
               = Some (fst joined64, snd joined64)) by evaluate.
  assert (H2 : entry_on_device shared64 (snd joined64)) by evaluate.
  exact (conj H1 (conj H2
    (@begin_touches_own_entry_only two_writes 4 shared64 (unconstructed record_a 1)
       (fst joined64) (snd joined64) H1 H2))).
Defined.

Lemma construction_ignores_record_size_on_shared64 :
  EEPROManager_new (B := two_writes) 4 (EEPROM.erased 64) record_b 2
    = Some (shared64, owner64) /\
  entry_on_device shared64 owner64 /\
  1 < EEPROM_MAX_WRITES (Build := two_writes) /\
  Forall (no_wrap (EEPROM.erased 64))
    (skipped (B := two_writes) 4 (EEPROM.erased 64)
       (initialise (B := two_writes) (unconstructed record_b 2))) /\
  (List.length record_c <= List.length record_b)%nat /\
  exists m2,
    EEPROManager_new (B := two_writes) 4 shared64 record_c 2 = Some (shared64, m2) /\
    _ADDRESS m2 = _ADDRESS owner64 /\
    _MEMORY m2 = firstn (List.length record_c) (_MEMORY owner64) /\
    _ENTRY_LENGTH m2 = wrap 16 (Z.of_nat (List.length record_c)) /\
    _ENTRY_WRITE_COUNT m2 = _ENTRY_WRITE_COUNT owner64.
Proof.
  assert (H1 : EEPROManager_new (B := two_writes) 4 (EEPROM.erased 64) record_b 2
               = Some (shared64, owner64)) by evaluate.
  assert (H2 : entry_on_device shared64 owner64) by evaluate.
  assert (H3 : 1 < EEPROM_MAX_WRITES (Build := two_writes)) by evaluate.
  assert (Hs : skipped (B := two_writes) 4 (EEPROM.erased 64)
                 (initialise (B := two_writes) (unconstructed record_b 2)) = [])
    by evaluate.
  assert (H4 : Forall (no_wrap (EEPROM.erased 64))
                 (skipped (B := two_writes) 4 (EEPROM.erased 64)
                    (initialise (B := two_writes) (unconstructed record_b 2)))).
  { rewrite Hs. constructor. }
  assert (H5 : (List.length record_c <= List.length record_b)%nat) by (simpl; lia).
  exact (conj H1 (conj H2 (conj H3 (conj H4 (conj H5
    (@construction_ignores_record_size two_writes 4 (EEPROM.erased 64) 2
       record_b record_c _ _ H1 H2 H3 H4 H5)))))).
Defined.

Lemma print_appends_hex_dump_on_erased2 :
  print (EEPROM.erased 2) ["#"%char] = print [xFF; xFF] ["#"%char] /\
  print (EEPROM.erased 2) ["#"%char]
  = ["#"%char]
    ++ flat_map
         (fun b : byte =>
            [nth (Z.to_nat (byte.unsigned b / 16))
               ["0"; "1"; "2"; "3"; "4"; "5"; "6"; "7";
                "8"; "9"; "A"; "B"; "C"; "D"; "E"; "F"]%char " "%char;
             nth (Z.to_nat (byte.unsigned b mod 16))
               ["0"; "1"; "2"; "3"; "4"; "5"; "6"; "7";
                "8"; "9"; "A"; "B"; "C"; "D"; "E"; "F"]%char " "%char;
             " "%char]) (EEPROM.erased 2)
    ++ ["010"%char] /\
  List.length (print (EEPROM.erased 2) ["#"%char])
    = (List.length ["#"%char] + 3 * List.length (EEPROM.erased 2) + 1)%nat /\
  EEPROM.erased 2 = [xFF; xFF] /\
  print (EEPROM.erased 2) ["#"%char]
    = ["#"; "F"; "F"; " "; "F"; "F"; " "; "010"]%char.
Proof.
  assert (H1 : print (EEPROM.erased 2) ["#"%char] = print [xFF; xFF] ["#"%char])
    by reflexivity.
  destruct (print_appends_hex_dump (EEPROM.erased 2) [xFF; xFF] ["#"%char] H1)
    as (H2 & H3 & H4).
  exact (conj H1 (conj H2 (conj H3 (conj H4 eq_refl)))).
Defined.

Lemma force_survives_restart_on_fresh64 :
  EEPROManager_new (B := two_writes) 4 (EEPROM.erased 64) record_a 1
    = Some (fst fresh64, snd fresh64) /\
  entry_on_device (fst fresh64) (snd fresh64) /\
  1 < EEPROM_MAX_WRITES (Build := two_writes) /\
  Forall (no_wrap (EEPROM.erased 64))
    (skipped (B := two_writes) 4 (EEPROM.erased 64)
       (initialise (B := two_writes) (unconstructed record_a 1))) /\
  List.length record_b = List.length record_a /\
  List.length record_a = List.length record_a /\
  exists E2 m2,
    force (fst fresh64) (set_MEMORY (snd fresh64) record_b) = (E2, m2) /\
    EEPROManager_new (B := two_writes) 4 E2 record_a 1 = Some (E2, m2) /\
    _MEMORY m2 = record_b /\
    _ENTRY_WRITE_COUNT m2 = _ENTRY_WRITE_COUNT (snd fresh64) /\
    _ENTRY_CRC32 m2 = _ENTRY_CRC32 (snd fresh64).
Proof.
  assert (H1 : EEPROManager_new (B := two_writes) 4 (EEPROM.erased 64) record_a 1
               = Some (fst fresh64, snd fresh64)) by evaluate.
  assert (H2 : entry_on_device (fst fresh64) (snd fresh64)) by evaluate.
  assert (H3 : 1 < EEPROM_MAX_WRITES (Build := two_writes)) by evaluate.
  assert (Hs : skipped (B := two_writes) 4 (EEPROM.erased 64)
                 (initialise (B := two_writes) (unconstructed record_a 1)) = [])
    by evaluate.
  assert (H4 : Forall (no_wrap (EEPROM.erased 64))
                 (skipped (B := two_writes) 4 (EEPROM.erased 64)
                    (initialise (B := two_writes) (unconstructed record_a 1)))).
  { rewrite Hs. constructor. }
  assert (H5 : List.length record_b = List.length record_a) by reflexivity.
  assert (H6 : List.length record_a = List.length record_a) by reflexivity.
  exact (conj H1 (conj H2 (conj H3 (conj H4 (conj H5 (conj H6
    (@force_survives_restart two_writes 4 (EEPROM.erased 64) 1
       record_a record_b record_a _ _ H1 H2 H3 H4 H5 H6))))))).
Defined.

Lemma update_settles_on_changed20 :
  update (B := two_writes) 4 (fst changed20) (snd changed20)
    = Some (0xFFFFFFFF, (fst (updated two_writes changed20),
                         snd (updated two_writes changed20))) /\
  memory_crc32 (B := two_writes) (snd (updated two_writes changed20))
    = _ENTRY_CRC32 (snd (updated two_writes changed20)) /\
  updates (B := two_writes) 3 4 (fst (updated two_writes changed20))
      (snd (updated two_writes changed20))
    = Some (repeat 0 3, (fst (updated two_writes changed20),
                         snd (updated two_writes changed20))).
Proof.
  assert (H1 : update (B := two_writes) 4 (fst changed20) (snd changed20)
               = Some (0xFFFFFFFF, (fst (updated two_writes changed20),
                                    snd (updated two_writes changed20)))) by evaluate.
  exact (conj H1
    (@update_settles two_writes 4 4 3 (fst changed20) (snd changed20) 0xFFFFFFFF
       (fst (updated two_writes changed20)) (snd (updated two_writes changed20)) H1)).
Defined.

Lemma exhausted_record_is_lost_on_restart_on_changed20 :
  EEPROManager_new (B := two_writes) 4 (EEPROM.erased 20) record_a 1
    = Some (fst fresh20, snd fresh20) /\
  entry_on_device (fst fresh20) (snd fresh20) /\
  1 < EEPROM_MAX_WRITES (Build := two_writes) /\
  Forall (no_wrap (EEPROM.erased 20))
    (skipped (B := two_writes) 4 (EEPROM.erased 20)
       (initialise (B := two_writes) (unconstructed record_a 1))) /\
  List.length record_b = List.length record_a /\
  wrap 32 (crc32 (Build := two_writes) record_b) <> _ENTRY_CRC32 (snd fresh20) /\
  EEPROM_MAX_WRITES (Build := two_writes) <= wrap 32 (_ENTRY_WRITE_COUNT (snd fresh20) + 1) /\
  locate (B := two_writes) 4
      (update_in_place (fst fresh20)
         (counted (B := two_writes) (set_MEMORY (snd fresh20) record_b)))
      (counted (B := two_writes) (set_MEMORY (snd fresh20) record_b))
    = Some (0, scanned20) /\
  EEPROM.length (fst fresh20) <= _ADDRESS scanned20 + entry_size scanned20 /\
  exists E2 n,
    update (B := two_writes) 4 (fst fresh20) (set_MEMORY (snd fresh20) record_b)
      = Some (0xFFFFFFFF, (E2, scanned20)) /\
    stored_DATA E2 (_ADDRESS (snd fresh20)) (List.length record_b) = record_b /\
    (forall g, (4 + 4 <= g)%nat ->
               EEPROManager_new (B := two_writes) g E2 record_a 1 = Some (write E2 n, n)) /\
    _ADDRESS n = _ADDRESS scanned20 /\ _MEMORY n = record_a /\ _ENTRY_WRITE_COUNT n = 1.
Proof.
  assert (H1 : EEPROManager_new (B := two_writes) 4 (EEPROM.erased 20) record_a 1
               = Some (fst fresh20, snd fresh20)) by evaluate.
  assert (H2 : entry_on_device (fst fresh20) (snd fresh20)) by evaluate.
  assert (H3 : 1 < EEPROM_MAX_WRITES (Build := two_writes)) by evaluate.
  assert (Hs : skipped (B := two_writes) 4 (EEPROM.erased 20)
                 (initialise (B := two_writes) (unconstructed record_a 1)) = [])
    by evaluate.
  assert (H4 : Forall (no_wrap (EEPROM.erased 20))
                 (skipped (B := two_writes) 4 (EEPROM.erased 20)
                    (initialise (B := two_writes) (unconstructed record_a 1)))).
  { rewrite Hs. constructor. }
  assert (H5 : List.length record_b = List.length record_a) by reflexivity.
  assert (H6 : wrap 32 (crc32 (Build := two_writes) record_b)
               <> _ENTRY_CRC32 (snd fresh20)) by evaluate.
  assert (H7 : EEPROM_MAX_WRITES (Build := two_writes)
               <= wrap 32 (_ENTRY_WRITE_COUNT (snd fresh20) + 1)) by evaluate.
  assert (H8 : locate (B := two_writes) 4
                 (update_in_place (fst fresh20)
                    (counted (B := two_writes) (set_MEMORY (snd fresh20) record_b)))
                 (counted (B := two_writes) (set_MEMORY (snd fresh20) record_b))
               = Some (0, scanned20)) by evaluate.
  assert (H9 : EEPROM.length (fst fresh20) <= _ADDRESS scanned20 + entry_size scanned20)
    by evaluate.
  exact (conj H1 (conj H2 (conj H3 (conj H4 (conj H5 (conj H6 (conj H7 (conj H8 (conj H9
    (@exhausted_record_is_lost_on_restart two_writes 4 (EEPROM.erased 20) 1
       record_a record_b record_a _ _ scanned20 H1 H2 H3 H4 H5 H6 H7 H8 H9)))))))))).
Defined.
